(** * Verification of the Word-HTML converter and the section extractor

    The development embeds the two scripts of the repository,
    [scripts/extract_section.py] and [scripts/convert_word_html.py], as
    Rocq functions and proves the properties their specification states.

    Python strings are sequences of Unicode code points; they are modelled
    as lists of code points.  The regular expressions of the scripts are
    kept as syntax trees and run by a backtracking matcher that follows the
    priorities of Python's [re] module (greedy before lazy, left
    alternative first, leftmost match for [search]).  Console output
    ([print]) is not modelled. *)

From Stdlib Require Import String Ascii.
From Stdlib Require Import List NArith Bool Arith Lia.
Import ListNotations.

Set Implicit Arguments.

(** ** Strings *)

Definition char := N.
Definition pystr := list char.

Module Utf8.
(** Literals are written as UTF-8 text and decoded to code points. *)

Definition cont (b : N) : N := N.land b 63.

Fixpoint decode (bs : list N) : pystr :=
  match bs with
  | [] => []
  | b :: r =>
      if (b <? 128)%N then b :: decode r
      else if (b <? 224)%N then
        match r with
        | b2 :: r2 => (N.shiftl (N.land b 31) 6 + cont b2)%N :: decode r2
        | _ => []
        end
      else if (b <? 240)%N then
        match r with
        | b2 :: b3 :: r3 =>
            (N.shiftl (N.land b 15) 12 + N.shiftl (cont b2) 6 + cont b3)%N
              :: decode r3
        | _ => []
        end
      else
        match r with
        | b2 :: b3 :: b4 :: r4 =>
            (N.shiftl (N.land b 7) 18 + N.shiftl (cont b2) 12
             + N.shiftl (cont b3) 6 + cont b4)%N :: decode r4
        | _ => []
        end
  end.

Fixpoint bytes (s : string) : list N :=
  match s with
  | EmptyString => []
  | String a r => N_of_ascii a :: bytes r
  end.
End Utf8.

Definition u (s : string) : pystr := Utf8.decode (Utf8.bytes s).

Definition ch (s : string) : char := hd 0%N (u s).

Definition NL : char := 10%N.

(** [str.isspace] for one character, which is also the class [\s] of [re]
    on [str] patterns. *)
Definition isspace (c : char) : bool :=
  ((9 <=? c) && (c <=? 13) || (28 <=? c) && (c <=? 32)
   || (c =? 133) || (c =? 160) || (c =? 5760)
   || (8192 <=? c) && (c <=? 8202)
   || (c =? 8232) || (c =? 8233) || (c =? 8239) || (c =? 8287)
   || (c =? 12288))%N.

Fixpoint str_eqb (a b : pystr) : bool :=
  match a, b with
  | [], [] => true
  | x :: a', y :: b' => (x =? y)%N && str_eqb a' b'
  | _, _ => false
  end.

(** [s.startswith(p)] *)
Fixpoint startswith (p s : pystr) : bool :=
  match p, s with
  | [], _ => true
  | x :: p', y :: s' => (x =? y)%N && startswith p' s'
  | _ :: _, [] => false
  end.

(** [p in s] *)
Fixpoint contains (p s : pystr) : bool :=
  startswith p s ||
  match s with
  | [] => false
  | _ :: s' => contains p s'
  end.

Fixpoint lstrip (s : pystr) : pystr :=
  match s with
  | c :: r => if isspace c then lstrip r else s
  | [] => []
  end.

Definition rstrip (s : pystr) : pystr := rev (lstrip (rev s)).

(** [s.strip()] *)
Definition strip (s : pystr) : pystr := rstrip (lstrip s).

(** [s.split('\n')]: always at least one piece. *)
Fixpoint split_lines (s : pystr) : list pystr :=
  match s with
  | [] => [[]]
  | c :: r =>
      if (c =? NL)%N then [] :: split_lines r
      else match split_lines r with
           | l :: ls => (c :: l) :: ls
           | [] => [[c]]
           end
  end.

(** [sep.join(parts)] *)
Fixpoint join (sep : pystr) (parts : list pystr) : pystr :=
  match parts with
  | [] => []
  | [p] => p
  | p :: ps => p ++ sep ++ join sep ps
  end.

Definition join_lines : list pystr -> pystr := join [NL].

(** [xs[i:j]] for [0 <= i], [0 <= j] *)
Definition slice {A} (i j : nat) (xs : list A) : list A :=
  firstn (j - i) (skipn i xs).

(** Truth value of a string: non-empty. *)
Definition truthy (s : pystr) : bool :=
  match s with [] => false | _ => true end.

(** ** Library tables left abstract

    [re.IGNORECASE] compares characters through the Unicode case tables,
    [\d] is the Unicode class of decimal digits, and [str.lower] maps a
    string through the lower-case table.  The three tables belong to the
    Python runtime, not to the repository. *)
Class Unicode := {
  ieq : char -> char -> bool;
  isdecimal : char -> bool;
  lower : pystr -> pystr
}.

(** ** Regular expressions *)

Inductive regex :=
| Eps
| Chr (p : char -> bool)
| Seq (a b : regex)
| Alt (a b : regex)
| Star (greedy : bool) (a : regex)
| Group (i : nat) (a : regex)
| Look (a : regex)
| Bol (multiline : bool)
| Eol (multiline : bool).

(** A position inside the subject string: what was read (most recent
    character first), what remains, and the groups captured so far. *)
Record mstate := MState {
  seen : pystr;
  rest : pystr;
  caps : list (nat * pystr)
}.

Definition start_of (s : pystr) : mstate := MState [] s [].

Definition advance (c : char) (t : pystr) (s : mstate) : mstate :=
  MState (c :: seen s) t (caps s).

Definition consumed (s s' : mstate) : pystr :=
  firstn (length (rest s) - length (rest s')) (rest s).

Fixpoint set_cap (i : nat) (v : pystr) (cs : list (nat * pystr))
  : list (nat * pystr) :=
  match cs with
  | [] => [(i, v)]
  | (j, w) :: r => if Nat.eqb i j then (i, v) :: r else (j, w) :: set_cap i v r
  end.

Fixpoint get_cap (i : nat) (cs : list (nat * pystr)) : option pystr :=
  match cs with
  | [] => None
  | (j, w) :: r => if Nat.eqb i j then Some w else get_cap i r
  end.

Definition at_bol (multiline : bool) (s : mstate) : bool :=
  match seen s with
  | [] => true
  | c :: _ => multiline && (c =? NL)%N
  end.

Definition at_eol (multiline : bool) (s : mstate) : bool :=
  match rest s with
  | [] => true
  | c :: t => (c =? NL)%N && (multiline || match t with [] => true | _ => false end)
  end.

Definition orelse {A} (x y : option A) : option A :=
  match x with Some _ => x | None => y end.

(** The backtracking matcher, in continuation-passing style: [bt r s k]
    tries the ways [r] can match at [s] in priority order and returns the
    first one the continuation [k] accepts.  An iteration of a star must
    read at least one character, so the number of characters left bounds
    the number of iterations. *)
Fixpoint bt (r : regex) (s : mstate) (k : mstate -> option mstate)
  : option mstate :=
  match r with
  | Eps => k s
  | Chr p =>
      match rest s with
      | c :: t => if p c then k (advance c t s) else None
      | [] => None
      end
  | Seq a b => bt a s (fun s1 => bt b s1 k)
  | Alt a b => orelse (bt a s k) (bt b s k)
  | Star g a =>
      (fix loop (n : nat) (s : mstate) {struct n} : option mstate :=
         match n with
         | O => k s
         | S n' =>
             let again :=
               bt a s (fun s1 =>
                 if length (rest s1) <? length (rest s) then loop n' s1
                 else None) in
             if g then orelse again (k s) else orelse (k s) again
         end) (length (rest s)) s
  | Group i a =>
      bt a s (fun s1 =>
        k (MState (seen s1) (rest s1) (set_cap i (consumed s s1) (caps s1))))
  | Look a =>
      match bt a s (fun s1 => Some s1) with
      | Some s1 => k (MState (seen s) (rest s) (caps s1))
      | None => None
      end
  | Bol m => if at_bol m s then k s else None
  | Eol m => if at_eol m s then k s else None
  end.

(** A successful match: where it started and where it ended. *)
Record rmatch := RMatch { m_start : mstate; m_end : mstate }.

Definition m_text (m : rmatch) : pystr := consumed (m_start m) (m_end m).

(** [m.group(i)]; a group that did not take part yields the empty string
    here (every group read by the scripts takes part in its match). *)
Definition group (i : nat) (m : rmatch) : pystr :=
  match i with
  | O => m_text m
  | _ => match get_cap i (caps (m_end m)) with Some v => v | None => [] end
  end.

Definition match_at (r : regex) (s : mstate) : option rmatch :=
  match bt r (MState (seen s) (rest s) []) (fun s1 => Some s1) with
  | Some e => Some (RMatch s e)
  | None => None
  end.

(** [re.match(r, s)] *)
Definition re_match (r : regex) (s : pystr) : option rmatch :=
  match_at r (start_of s).

(** Leftmost match at or after a position. *)
Fixpoint search_from (r : regex) (sn rs : pystr) : option rmatch :=
  match match_at r (MState sn rs []) with
  | Some m => Some m
  | None =>
      match rs with
      | [] => None
      | c :: t => search_from r (c :: sn) t
      end
  end.

(** [re.search(r, s)] *)
Definition re_search (r : regex) (s : pystr) : option rmatch :=
  search_from r [] s.

(** The scan shared by [re.sub], [re.split] and [re.findall]: the subject
    cut into the successive non-overlapping matches and the characters
    between them.  Every pattern the scripts iterate reads at least one
    character; a match that reads none is passed over. *)
Inductive token := TChar (c : char) | TMatch (m : rmatch).

Fixpoint scan (n : nat) (r : regex) (sn rs : pystr) : list token :=
  match n with
  | O => []
  | S n' =>
      match rs with
      | [] => []
      | c :: t =>
          match match_at r (MState sn rs []) with
          | Some m =>
              let k := length (m_text m) in
              if k =? 0 then TChar c :: scan n' r (c :: sn) t
              else TMatch m :: scan (n' - (k - 1)) r (seen (m_end m)) (rest (m_end m))
          | None => TChar c :: scan n' r (c :: sn) t
          end
      end
  end.

Definition tokens (r : regex) (s : pystr) : list token :=
  scan (length s) r [] s.

(** [re.sub(r, repl, s)] with a replacement free of group references *)
Definition re_sub (r : regex) (repl s : pystr) : pystr :=
  flat_map (fun t => match t with TChar c => [c] | TMatch _ => repl end)
           (tokens r s).

(** [re.split(r, s)] for a pattern without groups *)
Fixpoint split_tokens (cur : pystr) (ts : list token) : list pystr :=
  match ts with
  | [] => [rev cur]
  | TChar c :: ts' => split_tokens (c :: cur) ts'
  | TMatch _ :: ts' => rev cur :: split_tokens [] ts'
  end.

Definition re_split (r : regex) (s : pystr) : list pystr :=
  split_tokens [] (tokens r s).

(** [re.findall(r, s)] for a pattern with exactly one group *)
Definition re_findall1 (r : regex) (s : pystr) : list pystr :=
  flat_map (fun t => match t with TChar _ => [] | TMatch m => [group 1 m] end)
           (tokens r s).

(** *** Pattern syntax *)

Definition only (c : char) : char -> bool := fun x => (x =? c)%N.
Definition no (c : char) : char -> bool := fun x => negb (x =? c)%N.
Definition anychar : char -> bool := fun _ => true.
(** [.] without [re.DOTALL] *)
Definition dot : char -> bool := no NL.

Definition Plus (g : bool) (a : regex) : regex := Seq a (Star g a).

Fixpoint Lit (s : pystr) : regex :=
  match s with
  | [] => Eps
  | c :: r => Seq (Chr (only c)) (Lit r)
  end.

Fixpoint Seqs (rs : list regex) : regex :=
  match rs with
  | [] => Eps
  | [r] => r
  | r :: rs' => Seq r (Seqs rs')
  end.

Fixpoint Alts (rs : list regex) : regex :=
  match rs with
  | [] => Chr (fun _ => false)
  | [r] => r
  | r :: rs' => Alt r (Alts rs')
  end.

(** ** Python values, dictionaries and exceptions *)

Inductive pyval := VStr (s : pystr) | VInt (n : nat).

(** A [dict] keeps its keys in insertion order. *)
Definition dict := list (string * pyval).

Fixpoint dict_get (k : string) (d : dict) : option pyval :=
  match d with
  | [] => None
  | (k', v) :: r => if String.eqb k k' then Some v else dict_get k r
  end.

(** [d[k] = v] *)
Fixpoint dict_set (k : string) (v : pyval) (d : dict) : dict :=
  match d with
  | [] => [(k, v)]
  | (k', w) :: r =>
      if String.eqb k k' then (k, v) :: r else (k', w) :: dict_set k v r
  end.

(** [d.update(e)] *)
Definition dict_update (d e : dict) : dict :=
  fold_left (fun acc kv => dict_set (fst kv) (snd kv) acc) e d.

(** [d.get(k, '')] read as a string *)
Definition get_str (k : string) (d : dict) : pystr :=
  match dict_get k d with
  | Some (VStr s) => s
  | _ => []
  end.

Definition keys (d : dict) : list string := map fst d.

Inductive exn :=
| AttributeError  (* [None.group] *)
| ValueError
| OSError.

Inductive result (A : Type) :=
| Ok (a : A)
| Raise (e : exn).
Arguments Ok {A} a.
Arguments Raise {A} e.

Definition bind {A B} (x : result A) (f : A -> result B) : result B :=
  match x with
  | Ok a => f a
  | Raise e => Raise e
  end.

Notation "'do' x <- e ; k" := (bind e (fun x => k))
  (at level 10, x name, e at level 100, k at level 200).

(** ** [scripts/extract_section.py] *)

Module Extract.

Definition hash : char := Eval vm_compute in ch "#".
Definition pipe : char := Eval vm_compute in ch "|".
Definition star : char := Eval vm_compute in ch "*".
Definition space : char := Eval vm_compute in ch " ".
Definition lbracket : char := Eval vm_compute in ch "[".
Definition rbracket : char := Eval vm_compute in ch "]".
Definition lparen : char := Eval vm_compute in ch "(".
Definition rparen : char := Eval vm_compute in ch ")".

Definition star_of (p : char -> bool) : regex := Star true (Chr p).
Definition plus_of (p : char -> bool) : regex := Plus true (Chr p).
Definition lazy_plus_of (p : char -> bool) : regex := Plus false (Chr p).

(** [\s*] and [#+] *)
Definition ws : regex := star_of isspace.
Definition hashes : regex := plus_of (only hash).

Definition some {A} (o : option A) : bool :=
  match o with Some _ => true | None => false end.

Section WithTables.
Context {U : Unicode}.

(** *** [find_section] *)

(** [re.escape(section_title)] under [re.IGNORECASE]: each character of
    the title is compared through the case table.  The other literal
    characters of the patterns ([#] and CJK ideographs) have no case
    variant; the library compiles them to plain literals. *)
Fixpoint LitI (s : pystr) : regex :=
  match s with
  | [] => Eps
  | c :: r => Seq (Chr (ieq c)) (LitI r)
  end.

(** All four patterns are run with [re.IGNORECASE | re.MULTILINE]. *)

(** [^#+\s*TITLE\s*$] *)
Definition pat_exact (title : pystr) : regex :=
  Seqs [Bol true; hashes; ws; LitI title; ws; Eol true].

(** [^#+\s*.*TITLE.*$] *)
Definition pat_contains (title : pystr) : regex :=
  Seqs [Bol true; hashes; ws; star_of dot; LitI title; star_of dot; Eol true].

Definition kw_fuza : pystr := Eval vm_compute in u "复杂".
Definition kw_ziran : pystr := Eval vm_compute in u "自然".
Definition kw_guocheng : pystr := Eval vm_compute in u "过程".
Definition kw_jili : pystr := Eval vm_compute in u "机理".
Definition kw_jieshi : pystr := Eval vm_compute in u "揭示".

(** [^#+\s*.*复杂.*自然.*过程.*机理.*揭示.*$] *)
Definition pat_keywords : regex :=
  Seqs [Bol true; hashes; ws; star_of dot; Lit kw_fuza; star_of dot;
        Lit kw_ziran; star_of dot; Lit kw_guocheng; star_of dot;
        Lit kw_jili; star_of dot; Lit kw_jieshi; star_of dot; Eol true].

(** [.*TITLE.*] *)
Definition pat_anywhere (title : pystr) : regex :=
  Seqs [star_of dot; LitI title; star_of dot].

Definition patterns (title : pystr) : list regex :=
  [pat_exact title; pat_contains title; pat_keywords; pat_anywhere title].

(** [^#+\s] *)
Definition header_re : regex := Seqs [Bol false; hashes; Chr isspace].

(** [^(#+)] *)
Definition level_re : regex := Seq (Bol false) (Group 1 hashes).

(** [len(re.match(r'^(#+)', line).group(1))]: reading [group] of [None]
    raises [AttributeError]. *)
Definition level_of (line : pystr) : result nat :=
  match re_match level_re line with
  | Some m => Ok (length (group 1 m))
  | None => Raise AttributeError
  end.

(** The inner loop of lines 43-47: the first line whose stripped text the
    pattern matches. *)
Fixpoint first_match (pat : regex) (lines : list pystr) (i : nat)
  : option nat :=
  match lines with
  | [] => None
  | line :: ls =>
      if some (re_match pat (strip line)) then Some i
      else first_match pat ls (S i)
  end.

(** The outer loop of lines 42-49. *)
Fixpoint try_patterns (pats : list regex) (lines : list pystr)
  : option nat :=
  match pats with
  | [] => None
  | pat :: ps =>
      match first_match pat lines 0 with
      | Some i => Some i
      | None => try_patterns ps lines
      end
  end.

Definition complex_keywords : list pystr :=
  Eval vm_compute in
  map u ["复杂"; "自然过程"; "机理"; "揭示"; "地幔"; "地震"; "流体"; "火山"]%string.

(** [any(keyword in '\n'.join(current_section) for keyword in complex_keywords)] *)
Definition has_keyword (block : list pystr) : bool :=
  existsb (fun kw => contains kw (join_lines block)) complex_keywords.

(** State of the block scan of lines 59-70. *)
Record blocks := Blocks {
  potential_sections : list (option pystr * nat * pystr);
  current_section : list pystr;
  current_header : option pystr
}.

Definition relevant (cur : list pystr) : bool :=
  match cur with [] => false | _ => has_keyword cur end.

Fixpoint scan_blocks (lines : list pystr) (i : nat) (st : blocks) : blocks :=
  match lines with
  | [] => st
  | line :: ls =>
      scan_blocks ls (S i)
        (if some (re_match header_re line) then
           Blocks
             (if relevant (current_section st) then
                potential_sections st ++
                  [(current_header st, i - length (current_section st),
                    join_lines (current_section st))]
              else potential_sections st)
             [line] (Some line)
         else
           Blocks (potential_sections st) (current_section st ++ [line])
                  (current_header st))
  end.

(** Lines 51-81: the search among heading-delimited blocks. *)
Definition keyword_fallback (lines : list pystr) : option pystr :=
  let st := scan_blocks lines 0 (Blocks [] [] None) in
  let found :=
    if relevant (current_section st) then
      potential_sections st ++
        [(current_header st, length lines - length (current_section st),
          join_lines (current_section st))]
    else potential_sections st in
  match found with
  | (_, _, text) :: _ => Some text
  | [] => None
  end.

(** Lines 87-93: the first later heading that is not deeper than the
    start.  [ls] are the lines from index [i] on. *)
Fixpoint find_end (start_level : nat) (ls : list pystr) (i : nat)
  : result (option nat) :=
  match ls with
  | [] => Ok None
  | raw :: ls' =>
      let line := strip raw in
      if some (re_match header_re line) then
        do current_level <- level_of line;
        if current_level <=? start_level then Ok (Some i)
        else find_end start_level ls' (S i)
      else find_end start_level ls' (S i)
  end.

Definition find_section (content section_title : pystr)
  : result (option pystr) :=
  let lines := split_lines content in
  match try_patterns (patterns section_title) lines with
  | None => Ok (keyword_fallback lines)
  | Some section_start =>
      do start_level <- level_of (nth section_start lines []);
      do found <- find_end start_level (skipn (S section_start) lines)
                           (S section_start);
      let section_end :=
        match found with Some e => e | None => length lines end in
      Ok (Some (join_lines (slice section_start section_end lines)))
  end.

(** *** [extract_table_cells_from_line] *)

(** Line 167: a pipe with the white space around it, followed (look-ahead)
    by any number of pipe-terminated runs, a pipe-free run and the end. *)
Definition split_re : regex :=
  Seqs [ws; Chr (only pipe); ws;
        Look (Seqs [Star true (Seq (star_of (no pipe)) (Chr (only pipe)));
                    star_of (no pipe); Eol false])].

Definition fw_lparen : char := Eval vm_compute in ch "（".
Definition fw_rparen : char := Eval vm_compute in ch "）".
Definition fw_colon : char := Eval vm_compute in ch "：".
Definition colon : char := Eval vm_compute in ch ":".
Definition bold : pystr := [star; star].

(** [(?:（\d+）[^|]*\|)\s*([^|]+?)(?=\s*\|)] *)
Definition problem_after_date : regex :=
  Seqs [Chr (only fw_lparen); plus_of isdecimal; Chr (only fw_rparen);
        star_of (no pipe); Chr (only pipe); ws;
        Group 1 (lazy_plus_of (no pipe));
        Look (Seq ws (Chr (only pipe)))].

Definition words (l : list string) : regex := Alts (map (fun w => Lit (u w)) l).

(** Line 183: between two bold markers, a star-free text that holds
    问题, 原因 or 机制 (group 1). *)
Definition problem_bold : regex :=
  Seqs [Lit bold;
        Group 1 (Seqs [star_of (no star);
                       words ["问题"; "原因"; "机制"]%string;
                       star_of (no star)]);
        Lit bold].

Definition problem_patterns : list regex := [problem_after_date; problem_bold].

(** Line 194: a bold star-free text that holds 方法, 分析, 模型 or 算法,
    with what follows it up to the next pipe (all of it group 1). *)
Definition method_bold : regex :=
  Group 1 (Seqs [Lit bold; star_of (no star);
                 words ["方法"; "分析"; "模型"; "算法"]%string;
                 star_of (no star); Lit bold; star_of (no pipe)]).

(** Line 195: one of 机器学习, 深度学习, 数据挖掘, 统计分析 and what
    follows it up to the next pipe (group 1). *)
Definition method_terms : regex :=
  Group 1 (Seq (words ["机器学习"; "深度学习"; "数据挖掘"; "统计分析"]%string)
               (star_of (no pipe))).

Definition method_patterns : list regex := [method_bold; method_terms].

(** The loops of lines 186-190 and like ones: the first pattern that
    [re.search] finds decides. *)
Fixpoint first_search (pats : list regex) (line : pystr) : option rmatch :=
  match pats with
  | [] => None
  | pat :: ps =>
      match re_search pat line with
      | Some m => Some m
      | None => first_search ps line
      end
  end.

(** Lines 198-202: the first pattern for which [re.findall] is not empty. *)
Fixpoint first_findall (pats : list regex) (line : pystr)
  : option (list pystr) :=
  match pats with
  | [] => None
  | pat :: ps =>
      match re_findall1 pat line with
      | [] => first_findall ps line
      | matches => Some matches
      end
  end.

(** [re.sub(r'\s+', ' ', v)] and [re.sub(r'\*\*', '', v)] *)
Definition collapse_ws (v : pystr) : pystr := re_sub (plus_of isspace) [space] v.
Definition drop_bold (v : pystr) : pystr := re_sub (Lit bold) [] v.

(** Lines 205-210, for one value. *)
Definition clean_value (v : pystr) : pystr :=
  if truthy v then drop_bold (strip (collapse_ws v)) else v.

Definition clean_entry (kv : string * pyval) : string * pyval :=
  match snd kv with
  | VStr v => (fst kv, VStr (clean_value v))
  | VInt _ => kv
  end.

Definition empty_fields : dict :=
  [("core_problem", VStr []); ("data_source", VStr []);
   ("data_mining_methods", VStr []); ("conclusion", VStr []);
   ("summary", VStr [])]%string.

(** [parts[i].strip() if len(parts) > i else ''] *)
Definition part (i : nat) (parts : list pystr) : pyval :=
  VStr (if i <? length parts then strip (nth i parts []) else []).

(** The body of the function, with the two fall-back pattern lists of
    lines 181-184 and 193-196 as arguments. *)
Definition table_cells_with (problem_pats method_pats : list regex)
           (line : pystr) : dict :=
  let result := empty_fields in
  let parts := re_split split_re line in
  let result :=
    if 6 <=? length parts then
      let result := dict_set "core_problem" (part 1 parts) result in
      let result := dict_set "data_source" (part 2 parts) result in
      let result := dict_set "data_mining_methods" (part 3 parts) result in
      let result := dict_set "conclusion" (part 4 parts) result in
      dict_set "summary" (part 5 parts) result
    else
      let result :=
        match first_search problem_pats line with
        | Some m => dict_set "core_problem" (VStr (strip (group 1 m))) result
        | None => result
        end in
      match first_findall method_pats line with
      | Some matches =>
          dict_set "data_mining_methods" (VStr (join [space] matches)) result
      | None => result
      end in
  map clean_entry result.

Definition extract_table_cells_from_line (line : pystr) : dict :=
  table_cells_with problem_patterns method_patterns line.

(** *** [extract_papers_from_section] *)

(** [^\[([^\]]+)\]\(([^)]+)\)] *)
Definition link_re : regex :=
  Seqs [Bol false; Chr (only lbracket); Group 1 (plus_of (no rbracket));
        Chr (only rbracket); Chr (only lparen);
        Group 2 (plus_of (no rparen)); Chr (only rparen)].

Definition separator_prefix : pystr := Eval vm_compute in u "---|".
Definition header_prefix : pystr := Eval vm_compute in u "**文章**".

Definition new_paper (title url line : pystr) (number : nat) : dict :=
  [("title", VStr title); ("url", VStr url); ("context", VStr line);
   ("number", VInt number); ("core_problem", VStr []);
   ("data_source", VStr []); ("data_mining_methods", VStr []);
   ("conclusion", VStr []); ("summary", VStr [])]%string.

(** The loop of lines 112-143; [papers] is the list built so far. *)
Fixpoint papers_loop (lines : list pystr) (papers : list dict) : list dict :=
  match lines with
  | [] => papers
  | raw :: ls =>
      let line := strip raw in
      if negb (truthy line) || startswith separator_prefix line
         || startswith header_prefix line
      then papers_loop ls papers
      else
        match re_match link_re line with
        | Some link_match =>
            let paper :=
              new_paper (group 1 link_match) (group 2 link_match) line
                        (length papers + 1) in
            let paper := dict_update paper (extract_table_cells_from_line line) in
            papers_loop ls (papers ++ [paper])
        | None => papers_loop ls papers
        end
  end.

Definition extract_papers_from_section (section_content : pystr) : list dict :=
  papers_loop (split_lines section_content) [].

(** *** [extract_research_details] *)

(** [[：:]] *)
Definition either_colon (c : char) : bool :=
  ((c =? fw_colon) || (c =? colon))%N.

(** [(?:\s*\||\s*$)] *)
Definition cell_end : regex :=
  Alt (Seq ws (Chr (only pipe))) (Seq ws (Eol false)).

(** [LABEL[：:]\s*([^|]+?)(?:\s*\||\s*$)] *)
Definition labelled (label : string) : regex :=
  Seqs [Lit (u label); Chr either_colon; ws;
        Group 1 (lazy_plus_of (no pipe)); cell_end].

(** Line 229: between two bold markers, a non-empty star-free text, 问题
    and a star-free text (group 1). *)
Definition bold_question : regex :=
  Seqs [Lit bold;
        Group 1 (Seqs [plus_of (no star); Lit (u "问题"); star_of (no star)]);
        Lit bold].

Definition entry_patterns : list regex :=
  [labelled "研究切入口"; labelled "核心问题"; labelled "研究目标";
   labelled "主要问题"; bold_question].

(** Line 250: a bold label that starts with 方法, a colon, and the cell
    text (group 1). *)
Definition bold_method_label : regex :=
  Seqs [Lit bold; Lit (u "方法"); star_of (no star); Lit bold;
        Chr either_colon; ws; Group 1 (lazy_plus_of (no pipe)); cell_end].

Definition detail_method_patterns : list regex :=
  [labelled "数据挖掘及分析方法"; labelled "方法"; labelled "分析方法";
   labelled "技术"; bold_method_label].

(** Lines 268-273: a term and what follows it up to the next pipe
    (group 1). *)
Definition term (w : string) : regex :=
  Group 1 (Seq (Lit (u w)) (star_of (no pipe))).

Definition tech_patterns : list regex :=
  [term "机器学习"; term "深度学习"; term "数据挖掘"; term "统计分析";
   term "模型"; term "算法";
   Group 1 (Seqs [Lit (u "分析"); star_of (no pipe); Lit (u "方法");
                  star_of (no pipe)])].

(** Lines 238-241 and 259-262: strip, drop the bold markers, collapse the
    white space. *)
Definition tidy (v : pystr) : pystr := collapse_ws (drop_bold (strip v)).

(** The body of the function, with the three pattern lists of lines
    224-230, 245-251 and 267-275 as arguments. *)
Definition research_details_with (entry_pats method_pats tech_pats : list regex)
           (paper : dict) : dict :=
  let content := get_str "context" paper in
  let data_methods := get_str "data_mining_methods" paper in
  let core_problem := get_str "core_problem" paper in
  let research_entry := if truthy core_problem then core_problem else [] in
  let research_entry :=
    if negb (truthy research_entry) then
      match first_search entry_pats content with
      | Some m => tidy (group 1 m)
      | None => research_entry
      end
    else research_entry in
  let methods := if truthy data_methods then data_methods else [] in
  let methods :=
    if negb (truthy methods) then
      match first_search method_pats content with
      | Some m => tidy (group 1 m)
      | None => methods
      end
    else methods in
  let methods :=
    if negb (truthy methods) then
      match first_search tech_pats content with
      | Some m => strip (group 1 m)
      | None => methods
      end
    else methods in
  [("research_entry_point", VStr research_entry);
   ("data_mining_methods", VStr methods)]%string.

Definition extract_research_details (paper : dict) : dict :=
  research_details_with entry_patterns detail_method_patterns tech_patterns
                        paper.

(** *** [main], without the file accesses *)

(** Lines 371-393, for any title. *)
Definition run_pipeline (content title : pystr) : result (list dict) :=
  do found <- find_section content title;
  let section_content :=
    match found with
    | Some text => if truthy text then text else content
    | None => content
    end in
  let papers := extract_papers_from_section section_content in
  Ok (map (fun paper => dict_update paper (extract_research_details paper))
          papers).

Definition target_section_title : pystr :=
  Eval vm_compute in u "复杂自然过程机理揭示".

Definition main_papers (content : pystr) : result (list dict) :=
  run_pipeline content target_section_title.

End WithTables.
End Extract.

(** ** [scripts/convert_word_html.py] *)

Module Convert.

(** *** [read_html_file] *)

Inductive encoding := cp936 | gb2312 | gbk | utf_8 | iso_8859_1.

Definition encodings_to_try : list encoding :=
  [cp936; gb2312; gbk; utf_8; iso_8859_1].

(** The [errors] argument of [open]. *)
Inductive errors := Strict | Ignore.

Section Reader.
(** The file system and the codecs are outside the program.  An attempt
    to open and read the file either yields its bytes or raises; the
    attempts are numbered, since nothing forces the file system to answer
    twice alike.  A codec turns bytes into text or fails with a decode
    error ([None]). *)
Variable read_bytes : pystr -> nat -> result (list N).
Variable decode : encoding -> errors -> list N -> option pystr.

(** The loop of lines 138-146; [except Exception] catches whatever the
    body raises, a decode error included. *)
Fixpoint try_encodings (file_path : pystr) (encs : list encoding)
         (attempt : nat) : result pystr :=
  match encs with
  | [] => Raise ValueError
  | enc :: encs' =>
      match read_bytes file_path attempt with
      | Ok bs =>
          match decode enc Ignore bs with
          | Some content => Ok content
          | None => try_encodings file_path encs' (S attempt)
          end
      | Raise _ => try_encodings file_path encs' (S attempt)
      end
  end.

Definition read_html_file (file_path : pystr) : result pystr :=
  try_encodings file_path encodings_to_try 0.
End Reader.

(** *** The document tree *)

(** An attribute holds a string, or a list of strings when it is
    multi-valued ([class]). *)
Inductive attr_value := AStr (s : pystr) | AList (l : list pystr).

(** The tree that [clean_mso_attributes] receives: comments were taken out
    before (lines 76-77), so a node is a tag or a text. *)
#[warnings="-register-all"]
Inductive node :=
| Text (s : pystr)
| Elem (name : pystr) (attrs : list (pystr * attr_value)) (children : list node).

Definition tag_name (n : node) : option pystr :=
  match n with
  | Elem name _ _ => Some name
  | Text _ => None
  end.

Fixpoint list_eqb (a b : list pystr) : bool :=
  match a, b with
  | [], [] => true
  | x :: a', y :: b' => str_eqb x y && list_eqb a' b'
  | _, _ => false
  end.

(** [tag.decompose()] for every tag of a [find_all] result that meets
    [p].  The result list is in document order and [p] reads only the
    subtree of its tag, so [p] sees each tag as it was before the loop. *)
Fixpoint prune (p : node -> bool) (n : node) : node :=
  match n with
  | Text s => Text s
  | Elem name attrs children =>
      Elem name attrs
        ((fix go (l : list node) : list node :=
            match l with
            | [] => []
            | c :: l' => if p c then go l' else prune p c :: go l'
            end) children)
  end.

Section Cleaning.
Context {U : Unicode}.

(** [get_text] leaves out the strings that stand directly inside some
    tags: none in older versions of the parsing library, [style], [script]
    and [template] in newer ones.  [hidden_text name] tells whether the
    strings directly inside a tag called [name] are left out. *)
Variable hidden_text : pystr -> bool.

(** [any(pattern in s.lower() for pattern in pats)] *)
Definition mentions (pats : list pystr) (s : pystr) : bool :=
  existsb (fun pat => contains pat (lower s)) pats.

Definition value_markers : list pystr :=
  Eval vm_compute in map u ["mso-"; "microsoft"; "word"; "office"]%string.
Definition class_markers : list pystr :=
  Eval vm_compute in map u ["mso"; "microsoft"; "word"; "office"]%string.
Definition style_markers : list pystr :=
  Eval vm_compute in map u ["mso-"; "microsoft"; "word"]%string.

(** Lines 35-53 for one attribute: [None] when it is deleted.  The keys of
    [element.attrs] are distinct, so deleting and assigning by name is
    deleting and replacing the entry. *)
Definition clean_attr (a : pystr * attr_value) : option (pystr * attr_value) :=
  match snd a with
  | AStr attr_value =>
      if mentions value_markers attr_value then None else Some a
  | AList attr_value =>
      let new_classes :=
        filter (fun cls => negb (mentions class_markers cls)) attr_value in
      if negb (list_eqb new_classes attr_value) then
        match new_classes with
        | _ :: _ => Some (fst a, AList new_classes)
        | [] => None
        end
      else Some a
  end.

Fixpoint clean_attrs (attrs : list (pystr * attr_value))
  : list (pystr * attr_value) :=
  match attrs with
  | [] => []
  | a :: r =>
      match clean_attr a with
      | Some a' => a' :: clean_attrs r
      | None => clean_attrs r
      end
  end.

(** Lines 31-53 on a tag and on every tag below it. *)
Fixpoint clean_element (n : node) : node :=
  match n with
  | Text s => Text s
  | Elem name attrs children =>
      Elem name (clean_attrs attrs) (map clean_element children)
  end.

(** [soup.find_all()] lists the tags below [soup], not [soup] itself. *)
Definition clean_descendants (soup : node) : node :=
  match soup with
  | Text s => Text s
  | Elem name attrs children => Elem name attrs (map clean_element children)
  end.

(** [^(v|o|w):] *)
Definition vendor_re : regex :=
  Seqs [Bol false;
        Alts [Chr (only (ch "v")); Chr (only (ch "o")); Chr (only (ch "w"))];
        Chr (only (ch ":"))].

Definition is_vendor_tag (n : node) : bool :=
  match n with
  | Elem name _ _ => Extract.some (re_search vendor_re name)
  | Text _ => false
  end.

(** [tag.string]: the text of a tag with a single child, through single
    children. *)
Fixpoint string_of (n : node) : option pystr :=
  match n with
  | Text s => Some s
  | Elem _ _ [c] => string_of c
  | Elem _ _ _ => None
  end.

Definition named (names : list pystr) (n : node) : bool :=
  match n with
  | Elem name _ _ => existsb (str_eqb name) names
  | Text _ => false
  end.

Definition style_name : pystr := Eval vm_compute in u "style".
Definition script_name : pystr := Eval vm_compute in u "script".
Definition p_name : pystr := Eval vm_compute in u "p".
Definition div_name : pystr := Eval vm_compute in u "div".

(** Lines 61-65 *)
Definition is_vendor_style (n : node) : bool :=
  named [style_name] n &&
  match string_of n with
  | Some s => truthy s && mentions style_markers s
  | None => false
  end.

Definition clean_mso_attributes (soup : node) : node :=
  prune is_vendor_style (prune is_vendor_tag (clean_descendants soup)).

(** [tag.get_text(strip=True)]: the stripped texts below the tag, the empty
    and the hidden ones left out, joined.  [hidden] tells whether the
    strings of the enclosing tag are left out. *)
Fixpoint get_text_strip (hidden : bool) (n : node) : pystr :=
  match n with
  | Text s => if hidden then [] else strip s
  | Elem name _ children =>
      flat_map (get_text_strip (hidden_text name)) children
  end.

(** Lines 93-95 *)
Definition is_empty_block (n : node) : bool :=
  named [p_name; div_name] n && negb (truthy (get_text_strip false n)).

Definition remove_empty_blocks (body : node) : node :=
  prune is_empty_block body.

(** The cleaning pass: [clean_mso_attributes] and the removal of empty
    paragraphs and divisions. *)
Definition mso_strip (body : node) : node :=
  remove_empty_blocks (clean_mso_attributes body).

(** Lines 86-95 of [clean_html_content], which between the two also take
    out every [script] and [style] tag. *)
Definition clean_body (body : node) : node :=
  remove_empty_blocks
    (prune (named [script_name; style_name]) (clean_mso_attributes body)).

End Cleaning.

(** *** [convert_to_markdown] and [convert_to_text] *)

Definition TAB : char := 9%N.
Definition SPACE : char := 32%N.

(** [[ \t]] *)
Definition blank (c : char) : bool := ((c =? SPACE) || (c =? TAB))%N.

(** [\n\s*\n\s*\n] *)
Definition blank_lines_re : regex :=
  Seqs [Chr (only NL); Star true (Chr isspace); Chr (only NL);
        Star true (Chr isspace); Chr (only NL)].

(** [[ \t]+\n] *)
Definition trailing_re : regex := Seq (Plus true (Chr blank)) (Chr (only NL)).

(** [[ \t]+] *)
Definition blanks_re : regex := Plus true (Chr blank).

(** Lines 114-116: what is done to the text that the Markdown renderer
    returns. *)
Definition tidy_markdown (markdown : pystr) : pystr :=
  let markdown := re_sub blank_lines_re [NL; NL] markdown in
  let markdown := re_sub trailing_re [NL] markdown in
  strip markdown.

(** Lines 127-129: what is done to the text of the parsed document. *)
Definition tidy_text (text : pystr) : pystr :=
  let text := re_sub blanks_re [SPACE] text in
  let text := re_sub blank_lines_re [NL; NL] text in
  strip text.

Section Rendering.
(** The Markdown renderer ([html2text], configured as in lines 102-108) and
    the text of the parsed document ([BeautifulSoup(...).get_text()]) belong
    to libraries. *)
Variable handle : pystr -> pystr.
Variable soup_text : pystr -> pystr.

Definition convert_to_markdown (html_content : pystr) : pystr :=
  tidy_markdown (handle html_content).

Definition convert_to_text (html_content : pystr) : pystr :=
  tidy_text (soup_text html_content).
End Rendering.

End Convert.

(** ** Tables for evaluating examples

    [ascii_tables] agrees with the tables of the Python runtime on ASCII
    text and on characters without case; it is used where a statement is
    about one concrete input. *)
Definition ascii_lower (c : char) : char :=
  if ((65 <=? c) && (c <=? 90))%N then (c + 32)%N else c.

Definition ascii_tables : Unicode := {|
  ieq := fun a b => (ascii_lower a =? ascii_lower b)%N;
  isdecimal := fun c => ((48 <=? c) && (c <=? 57))%N;
  lower := map ascii_lower
|}.

(** ** Definitions used to state the properties *)

(** [a] occurs in [b] as a contiguous run of characters. *)
Definition substring (a b : pystr) : Prop :=
  exists before after, b = before ++ a ++ after.

(** The longest prefix whose characters satisfy [p], and what follows it. *)
Fixpoint span (p : char -> bool) (s : pystr) : pystr * pystr :=
  match s with
  | c :: r =>
      if p c then let (a, b) := span p r in (c :: a, b) else ([], s)
  | [] => ([], [])
  end.

(** The loop that [bt] runs for a star. *)
Definition star_loop (g : bool) (a : regex) (k : mstate -> option mstate)
  : nat -> mstate -> option mstate :=
  fix loop (n : nat) (s : mstate) {struct n} : option mstate :=
    match n with
    | O => k s
    | S n' =>
        let again :=
          bt a s (fun s1 =>
            if length (rest s1) <? length (rest s) then loop n' s1
            else None) in
        if g then orelse again (k s) else orelse (k s) again
    end.

(** What a greedy star of one character class computes: the continuation
    is tried after the longest run first, then after shorter and shorter
    ones. *)
Fixpoint star_class (p : char -> bool) (k : mstate -> option mstate)
         (sn rs : pystr) (cs : list (nat * pystr)) : option mstate :=
  match rs with
  | c :: t =>
      if p c then orelse (star_class p k (c :: sn) t cs) (k (MState sn rs cs))
      else k (MState sn rs cs)
  | [] => k (MState sn [] cs)
  end.

(** [s'] is a position of the same subject at or after [s]. *)
Definition forward (s s' : mstate) : Prop :=
  exists w, rest s = w ++ rest s' /\ seen s' = rev w ++ seen s.

(** A line that starts with a link: an opening bracket, a non-empty text
    free of closing brackets, a closing bracket directly followed by an
    opening parenthesis, a non-empty target free of closing parentheses,
    and a closing parenthesis. *)
Definition link_shape (line text target : pystr) : Prop :=
  text <> [] /\ ~ In Extract.rbracket text /\
  target <> [] /\ ~ In Extract.rparen target /\
  exists tail,
    line = [Extract.lbracket] ++ text ++ [Extract.rbracket; Extract.lparen]
           ++ target ++ [Extract.rparen] ++ tail.

(** The same, as a function. *)
Definition parse_link (line : pystr) : option (pystr * pystr) :=
  match line with
  | c0 :: c1 :: r =>
      if (c0 =? Extract.lbracket)%N && no Extract.rbracket c1 then
        let (a, b) := span (no Extract.rbracket) r in
        match b with
        | c2 :: c3 :: c4 :: r2 =>
            if (c2 =? Extract.rbracket)%N && (c3 =? Extract.lparen)%N
               && no Extract.rparen c4 then
              let (a2, b2) := span (no Extract.rparen) r2 in
              match b2 with
              | c5 :: _ =>
                  if (c5 =? Extract.rparen)%N then Some (c1 :: a, c4 :: a2)
                  else None
              | [] => None
              end
            else None
        | _ => None
        end
      else None
  | _ => None
  end.

(** The stripped lines that the row splitter turns into records. *)
Definition qualifies (line : pystr) : bool :=
  truthy line
  && negb (startswith Extract.separator_prefix line)
  && negb (startswith Extract.header_prefix line)
  && Extract.some (re_match Extract.link_re line).

Definition paper_rows (section_content : pystr) : list pystr :=
  filter qualifies (map strip (split_lines section_content)).

(** Fields of a record. *)
Definition raw_row (paper : dict) : pystr := get_str "context" paper.
Definition title_of (paper : dict) : pystr := get_str "title" paper.
Definition url_of (paper : dict) : pystr := get_str "url" paper.
Definition number_of (paper : dict) : option pyval := dict_get "number" paper.

Definition field_keys : list string :=
  ["core_problem"; "data_source"; "data_mining_methods"; "conclusion";
   "summary"]%string.

(** [text] is a non-empty run of consecutive lines of [lines], joined. *)
Definition run_of_lines (text : pystr) (lines : list pystr) : Prop :=
  exists before run after,
    lines = before ++ run ++ after /\ run <> [] /\ text = join_lines run.

(** The characters of the subject that a token stands for. *)
Definition token_text (t : token) : pystr :=
  match t with
  | TChar c => [c]
  | TMatch m => m_text m
  end.

(** What [re.sub(r'\*\*', '', v)] computes, read from left to right: a pair
    of stars is dropped, any other character is kept. *)
Fixpoint remove_bold (s : pystr) : pystr :=
  match s with
  | c1 :: t =>
      match t with
      | c2 :: r =>
          if (c1 =? Extract.star)%N && (c2 =? Extract.star)%N
          then remove_bold r
          else c1 :: remove_bold t
      | [] => [c1]
      end
  | [] => []
  end.

(** The five values of a result of [extract_table_cells_from_line]. *)
Definition cells (core_problem data_source methods conclusion summary : pystr)
  : dict :=
  [("core_problem", VStr core_problem); ("data_source", VStr data_source);
   ("data_mining_methods", VStr methods); ("conclusion", VStr conclusion);
   ("summary", VStr summary)]%string.

(** [get_text] as the newer versions of the parsing library have it. *)
Definition hides_raw_text (name : pystr) : bool :=
  existsb (str_eqb name) (map u ["style"; "script"; "template"]%string).

(** A codec for examples: ASCII, where a byte above 127 cannot be decoded;
    [Strict] fails on it and [Ignore] drops it. *)
Definition ascii_decode (enc : Convert.encoding) (mode : Convert.errors)
           (bs : list N) : option pystr :=
  match mode with
  | Convert.Strict => if forallb (fun b => b <? 128)%N bs then Some bs else None
  | Convert.Ignore => Some (filter (fun b => b <? 128)%N bs)
  end.

Definition raises {A} (r : result A) : Prop := exists e, r = Raise e.

(** The children that [prune] leaves of a list of children. *)
Definition prune_list (p : Convert.node -> bool) (l : list Convert.node)
  : list Convert.node :=
  flat_map (fun c => if p c then [] else [Convert.prune p c]) l.

(** No tag or text below [n] meets [p]. *)
Fixpoint free_of (p : Convert.node -> bool) (n : Convert.node) : bool :=
  match n with
  | Convert.Text _ => true
  | Convert.Elem _ _ children =>
      forallb (fun c => negb (p c) && free_of p c) children
  end.

(** Neither [n] nor anything below it meets [p]. *)
Definition gone (p : Convert.node -> bool) (n : Convert.node) : bool :=
  negb (p n) && free_of p n.

Definition is_text (n : Convert.node) : bool :=
  match n with Convert.Text _ => true | Convert.Elem _ _ _ => false end.

(** The trees a parser builds: the content of a [style] element is raw
    text, so a [style] tag has no tag below it. *)
Fixpoint raw_styles (n : Convert.node) : bool :=
  match n with
  | Convert.Text _ => true
  | Convert.Elem name _ children =>
      (if str_eqb name Convert.style_name then forallb is_text children
       else true)
      && forallb raw_styles children
  end.

(** The number of [#] at the start of a line. *)
Definition leading_hashes (line : pystr) : nat :=
  length (fst (span (only Extract.hash) line)).

(** A later line ends the section that a heading of level [start_level]
    opens: stripped, it is a heading that is not deeper. *)
Definition closes (start_level : nat) (raw : pystr) : bool :=
  Extract.some (re_match Extract.header_re (strip raw))
  && (leading_hashes (strip raw) <=? start_level).

(** The index of the first element that meets [f], counted from [k]. *)
Fixpoint find_index {A} (f : A -> bool) (xs : list A) (k : nat) : option nat :=
  match xs with
  | [] => None
  | x :: r => if f x then Some k else find_index f r (S k)
  end.

(** ** Concrete inputs *)

Module Samples.
Import Extract.

(** A document whose section has one table row. *)
Definition doc : pystr :=
  Eval vm_compute in
  u "intro
# 复杂自然过程机理揭示
[T](http://x)|core|src|method|concl|sum
# next
[U](v)".

Definition row : pystr :=
  Eval vm_compute in u "[T](http://x)|core|src|method|concl|sum".

Definition section_text : pystr :=
  Eval vm_compute in
  u "# 复杂自然过程机理揭示
[T](http://x)|core|src|method|concl|sum".

(** The title on a line that is not a heading. *)
Definition doc_bold_title : pystr :=
  Eval vm_compute in
  u "**复杂自然过程机理揭示**
[T](http://x)|core|src|method|concl|sum".

(** The title as an indented heading, and as a heading further down. *)
Definition doc_indented : pystr :=
  Eval vm_compute in
  u " # 复杂自然过程机理揭示
[T](http://x)|core|src|method|concl|sum
# 复杂自然过程机理揭示
# next".

(** Rows with seven and with eight columns and the same first six. *)
Definition row7 : pystr := Eval vm_compute in u "t|a|b|c|d|e|x".
Definition row8 : pystr := Eval vm_compute in u "t|a|b|c|d|e|y|z".

(** A six-column row with a bold marker between two spaces. *)
Definition row_bold : pystr :=
  Eval vm_compute in u "[T](http://x)|a ** b|c|d|e|f".

(** A row without columns that the fall-back patterns read. *)
Definition row_labels : pystr :=
  Eval vm_compute in u "T（2020）abc|  core text  | **a方法b** rest".

(** A record whose data source is filled and whose raw row names a core
    problem and a method. *)
Definition paper_with_source : dict :=
  Eval vm_compute in
  [("context", VStr (u "核心问题: q | 方法: abc"));
   ("core_problem", VStr []); ("data_source", VStr (u "src"));
   ("data_mining_methods", VStr [])]%string.

Definition paper_filled : dict :=
  Eval vm_compute in
  [("context", VStr (u "核心问题: q | 方法: abc"));
   ("core_problem", VStr (u "core")); ("data_source", VStr (u "src"));
   ("data_mining_methods", VStr (u "method"))]%string.

(** A file system on which the first two attempts fail. *)
Definition flaky_read (file_path : pystr) (attempt : nat)
  : result (list N) :=
  if attempt <? 2 then Raise OSError else Ok [72; 200; 105]%N.

Definition file_path : pystr := Eval vm_compute in u "doc.htm".

(** A body as Word exports it. *)
Definition body : Convert.node :=
  Eval vm_compute in
  Convert.Elem (u "body") [(u "lang", Convert.AStr (u "ZH-CN"))]
    [Convert.Elem (u "style") [] [Convert.Text (u "p {mso-style-name: x}")];
     Convert.Elem (u "p")
       [(u "class", Convert.AList [u "MsoNormal"; u "lead"]);
        (u "style", Convert.AStr (u "mso-pagination:none"))]
       [Convert.Text (u "Title");
        Convert.Elem (u "o:p") [] [Convert.Text (u " ")]];
     Convert.Elem (u "div") [(u "class", Convert.AList [u "WordSection1"])]
       [Convert.Elem (u "p") [] [Convert.Elem (u "o:p") [] [Convert.Text (u "x")]];
        Convert.Text (u "  ")];
     Convert.Elem (u "div") [] [Convert.Text (u "kept")]].

(** A tree that no parser builds: a paragraph inside a [style] element. *)
Definition odd_body : Convert.node :=
  Eval vm_compute in
  Convert.Elem (u "body") []
    [Convert.Elem (u "style") []
       [Convert.Elem (u "p") [] []; Convert.Text (u "p {mso-style-name: x}")];
     Convert.Elem (u "p") [] [Convert.Text (u "kept")]].

(** The records of the pipeline for [doc]. *)
Definition doc_papers : list dict :=
  Eval vm_compute in
  match run_pipeline (U := ascii_tables) doc target_section_title with
  | Ok papers => papers
  | Raise _ => []
  end.

Definition doc_paper : dict := Eval vm_compute in hd [] doc_papers.
End Samples.

(** ** Further definitions used to state properties *)

(** What a record holds under a key read as a string. *)
Definition entry_point_of (paper : dict) : pystr :=
  get_str "research_entry_point" paper.

(** A line holds one of the domain keywords. *)
Definition line_has_keyword (line : pystr) : bool :=
  existsb (fun kw => contains kw line) Extract.complex_keywords.

(** An attribute value that mentions no vendor marker: a string without
    one, or a list none of whose classes has one. *)
Definition attr_ok {U : Unicode} (a : pystr * Convert.attr_value) : bool :=
  match snd a with
  | Convert.AStr v => negb (Convert.mentions Convert.value_markers v)
  | Convert.AList cs =>
      forallb (fun cls => negb (Convert.mentions Convert.class_markers cls)) cs
  end.

(** Every attribute of the tag and of the tags below it is free of vendor
    markers. *)
Fixpoint tags_clean {U : Unicode} (n : Convert.node) : bool :=
  match n with
  | Convert.Text _ => true
  | Convert.Elem _ attrs children =>
      forallb attr_ok attrs && forallb tags_clean children
  end.

(** The same for the tags below the root only. *)
Definition below_clean {U : Unicode} (root : Convert.node) : bool :=
  match root with
  | Convert.Text _ => true
  | Convert.Elem _ _ children => forallb tags_clean children
  end.

(** Name and attributes of the root of a tree. *)
Definition root_of (n : Convert.node)
  : option (pystr * list (pystr * Convert.attr_value)) :=
  match n with
  | Convert.Text _ => None
  | Convert.Elem name attrs _ => Some (name, attrs)
  end.

(** The number of pipe characters of a line. *)
Definition count_pipes (line : pystr) : nat :=
  length (filter (only Extract.pipe) line).

(** The number of matches among the tokens of a scan. *)
Definition count_matches (ts : list token) : nat :=
  length (filter (fun t => match t with TMatch _ => true | TChar _ => false end)
                 ts).

(** The look-ahead of the delimiter pattern of line 167. *)
Definition split_lookahead : regex :=
  Seqs [Star true (Seq (Extract.star_of (no Extract.pipe))
                       (Chr (only Extract.pipe)));
        Extract.star_of (no Extract.pipe); Eol false].


(** The number of newlines of a string. *)
Definition count_nl (s : pystr) : nat := length (filter (only NL) s).

(** The number of newlines in the white space at the front of a string. *)
Fixpoint nl_prefix (s : pystr) : nat :=
  match s with
  | c :: t =>
      if isspace c then (if (c =? NL)%N then 1 else 0) + nl_prefix t else 0
  | [] => 0
  end.

(** No stretch of white space of [s] holds more than two newlines, when
    the stretch that [s] continues has [k] of them already. *)
Fixpoint max_nl (k : nat) (s : pystr) : bool :=
  match s with
  | c :: t =>
      if isspace c then
        if (c =? NL)%N then (k <? 2) && max_nl (S k) t else max_nl k t
      else max_nl 0 t
  | [] => true
  end.

(** Where the pattern "white space, then a newline" stops when it is read
    greedily at the front of [s]: after the last newline of the white
    space in front, if there is one.  The result is what was read and what
    remains. *)
Fixpoint last_nl (s : pystr) : option (pystr * pystr) :=
  match s with
  | c :: t =>
      if isspace c then
        match last_nl t with
        | Some (a, b) => Some (c :: a, b)
        | None => if (c =? NL)%N then Some ([c], t) else None
        end
      else None
  | [] => None
  end.

(** The same for "white space, a newline, white space, a newline". *)
Fixpoint two_nl (s : pystr) : option (pystr * pystr) :=
  match s with
  | c :: t =>
      if isspace c then
        match two_nl t with
        | Some (a, b) => Some (c :: a, b)
        | None =>
            if (c =? NL)%N then
              match last_nl t with
              | Some (a, b) => Some (c :: a, b)
              | None => None
              end
            else None
        end
      else None
  | [] => None
  end.

(** No space or tab stands directly before a newline. *)
Fixpoint no_blank_nl (s : pystr) : bool :=
  match s with
  | c :: t =>
      match t with
      | d :: _ => negb (Convert.blank c && (d =? NL)%N)
      | [] => true
      end && no_blank_nl t
  | [] => true
  end.

(** No two of space and tab stand side by side, [prev] telling whether one
    stands directly before [s]. *)
Fixpoint no_blank_pair (prev : bool) (s : pystr) : bool :=
  match s with
  | c :: t =>
      negb (prev && Convert.blank c) && no_blank_pair (Convert.blank c) t
  | [] => true
  end.






(** Further inputs on which the theorems are applied. *)
Module MoreSamples.

(** A document without the title, with a keyword under its first heading. *)
Definition doc_volcano : pystr :=
  Eval vm_compute in
  u "intro
# A
x 火山 y
# B
z".

Definition other_title : pystr := Eval vm_compute in u "zzz".

Definition volcano_section : pystr :=
  Eval vm_compute in
  u "# A
x 火山 y".


(** A row with an empty methods column and a seventh column that carries
    a method label. *)
Definition row_extra : pystr :=
  Eval vm_compute in u "[T](u)|p|s||d|e|方法: abc".

(** The same row with another seventh column. *)
Definition row_extra_plain : pystr :=
  Eval vm_compute in u "[T](u)|p|s||d|e|x".

(** A row whose link text holds the pipes. *)
Definition row_piped_title : pystr :=
  Eval vm_compute in u "[a|b|c|d|e|f|g](u)".


End MoreSamples.

(** The keys of a record of [extract_papers_from_section], in the order
    in which lines 125-135 insert them. *)
Definition record_keys : list string :=
  ["title"; "url"; "context"; "number"; "core_problem"; "data_source";
   "data_mining_methods"; "conclusion"; "summary"]%string.

Import Extract.

(** ** Strings *)

Lemma join_split_lines (s : pystr) : join_lines (split_lines s) = s.
Proof.
  induction s as [|c r IH]; [reflexivity|].
  cbn [split_lines]. destruct (N.eqb_spec c NL) as [->|Hc].
  - destruct (split_lines r) as [|l ls] eqn:E.
    + destruct r; cbn in E; [discriminate|].
      destruct (_ =? _)%N; [discriminate|]. destruct (split_lines r); discriminate.
    + change (join_lines ([] :: l :: ls)) with ([] ++ [NL] ++ join_lines (l :: ls)).
      now rewrite IH.
  - destruct (split_lines r) as [|l ls] eqn:E.
    + destruct r; cbn in E; [discriminate|].
      destruct (_ =? _)%N; [discriminate|]. destruct (split_lines r); discriminate.
    + rewrite <- IH. destruct ls; reflexivity.
Qed.

Lemma split_lines_cons (s : pystr) : exists l ls, split_lines s = l :: ls.
Proof.
  destruct s as [|c r]; cbn; [eauto|].
  destruct (c =? NL)%N; [eauto|]. destruct (split_lines r); eauto.
Qed.

Lemma split_lines_no_newline (s : pystr) :
  Forall (fun l => ~ In NL l) (split_lines s).
Proof.
  induction s as [|c r IH]; cbn.
  - constructor; [intros [] | constructor].
  - destruct (N.eqb_spec c NL) as [->|Hc].
    + constructor; [intros [] | exact IH].
    + destruct (split_lines r) as [|l ls]; inversion IH; subst.
      * constructor; [|constructor]. intros [E|[]]. congruence.
      * constructor; [|assumption]. intros [E|E]; [congruence | contradiction].
Qed.

Lemma join_lines_cons l l' ls :
  join_lines (l :: l' :: ls) = l ++ NL :: join_lines (l' :: ls).
Proof. reflexivity. Qed.

Lemma join_lines_app (a b : list pystr) :
  a <> [] -> b <> [] ->
  join_lines (a ++ b) = join_lines a ++ NL :: join_lines b.
Proof.
  intros Ha Hb. induction a as [|l a IH]; [contradiction|].
  destruct a as [|l' a].
  - destruct b as [|l' b]; [contradiction|]. reflexivity.
  - change ((l :: l' :: a) ++ b) with (l :: l' :: (a ++ b)).
    rewrite !join_lines_cons.
    change (l' :: a ++ b) with ((l' :: a) ++ b).
    rewrite IH by discriminate. now rewrite <- app_assoc.
Qed.

Lemma split_lines_line (l : pystr) :
  ~ In NL l -> split_lines l = [l].
Proof.
  induction l as [|c r IH]; intros H; [reflexivity|]. cbn.
  destruct (N.eqb_spec c NL) as [->|Hc]; [exfalso; apply H; now left|].
  rewrite IH by (intros Hin; apply H; now right). reflexivity.
Qed.

Lemma split_lines_app_newline (l rest : pystr) :
  ~ In NL l -> split_lines (l ++ NL :: rest) = l :: split_lines rest.
Proof.
  induction l as [|c r IH]; intros H; cbn [app split_lines].
  - now rewrite N.eqb_refl.
  - destruct (N.eqb_spec c NL) as [->|Hc]; [exfalso; apply H; now left|].
    rewrite IH by (intros Hin; apply H; now right). reflexivity.
Qed.

(** Splitting the joined lines gives the lines back. *)
Lemma split_join_lines (run : list pystr) :
  run <> [] -> Forall (fun l => ~ In NL l) run ->
  split_lines (join_lines run) = run.
Proof.
  intros Hne H. induction run as [|l run IH]; [contradiction|].
  inversion H; subst.
  destruct run as [|l' run].
  - now apply split_lines_line.
  - rewrite join_lines_cons, split_lines_app_newline by assumption.
    f_equal. apply IH; [discriminate | assumption].
Qed.

Lemma substring_refl (a : pystr) : substring a a.
Proof. exists [], []. cbn. now rewrite app_nil_r. Qed.

Lemma substring_trans (a b c : pystr) :
  substring a b -> substring b c -> substring a c.
Proof.
  intros (p1 & q1 & ->) (p2 & q2 & ->).
  exists (p2 ++ p1), (q1 ++ q2). now rewrite <- !app_assoc.
Qed.

Lemma lstrip_suffix (s : pystr) : exists w, s = w ++ lstrip s.
Proof.
  induction s as [|c r [w IH]]; cbn; [now exists []|].
  destruct (isspace c).
  - exists (c :: w). cbn. now rewrite <- IH.
  - now exists [].
Qed.

Lemma rstrip_prefix (s : pystr) : exists w, s = rstrip s ++ w.
Proof.
  unfold rstrip. destruct (lstrip_suffix (rev s)) as [w H].
  exists (rev w). rewrite <- rev_app_distr, <- H. now rewrite rev_involutive.
Qed.

(** The stripped text is cut out of the text. *)
Lemma strip_substring (s : pystr) : substring (strip s) s.
Proof.
  unfold strip. destruct (lstrip_suffix s) as [w Hw].
  destruct (rstrip_prefix (lstrip s)) as [v Hv].
  exists w, v. now rewrite <- Hv.
Qed.

Lemma line_substring (l : pystr) (lines : list pystr) :
  In l lines -> substring l (join_lines lines).
Proof.
  induction lines as [|x ls IH]; intros H; [contradiction|].
  destruct ls as [|y ls].
  - destruct H as [->|[]]. apply substring_refl.
  - rewrite join_lines_cons. destruct H as [->|H].
    + exists [], (NL :: join_lines (y :: ls)). reflexivity.
    + destruct (IH H) as (p & q & E). rewrite E.
      exists (x ++ NL :: p), q. rewrite <- app_assoc. reflexivity.
Qed.

(** A run of lines, joined, is cut out of the joined lines. *)
Lemma run_substring (text : pystr) (lines : list pystr) :
  run_of_lines text lines -> substring text (join_lines lines).
Proof.
  intros (before & run & after & -> & Hne & ->).
  assert (H1 : substring (join_lines run) (join_lines (run ++ after))).
  { destruct after as [|a after]; [rewrite app_nil_r; apply substring_refl|].
    rewrite join_lines_app by (assumption || discriminate).
    exists [], (NL :: join_lines (a :: after)). reflexivity. }
  eapply substring_trans; [exact H1|].
  destruct before as [|b before]; [apply substring_refl|].
  rewrite (@join_lines_app (b :: before) (run ++ after))
    by first [discriminate
             | intros E; apply app_eq_nil in E as [E _]; contradiction].
  exists (join_lines (b :: before) ++ [NL]), []. rewrite app_nil_r, <- app_assoc.
  reflexivity.
Qed.

Lemma run_lines_in (text : pystr) (lines : list pystr) :
  run_of_lines text lines ->
  Forall (fun l => ~ In NL l) lines ->
  incl (split_lines text) lines.
Proof.
  intros (before & run & after & -> & Hne & ->) Hnl.
  rewrite split_join_lines; [|assumption|].
  - intros l Hl. apply in_or_app. right. apply in_or_app. now left.
  - apply Forall_app in Hnl as [_ Hnl]. now apply Forall_app in Hnl as [Hnl _].
Qed.

(** ** The matcher *)

Lemma bt_star g a s k :
  bt (Star g a) s k = star_loop g a k (length (rest s)) s.
Proof. reflexivity. Qed.

Lemma forward_refl s : forward s s.
Proof. exists []. split; reflexivity. Qed.

Lemma forward_trans s1 s2 s3 : forward s1 s2 -> forward s2 s3 -> forward s1 s3.
Proof.
  intros [w1 [R1 S1]] [w2 [R2 S2]]. exists (w1 ++ w2). split.
  - rewrite R1, R2. now rewrite app_assoc.
  - rewrite S2, S1, rev_app_distr. now rewrite app_assoc.
Qed.

Lemma forward_same s sn rs cs cs' :
  forward s (MState sn rs cs) -> forward s (MState sn rs cs').
Proof. intros [w H]. exists w. exact H. Qed.

(** Whatever the matcher hands to its continuation is a later position of
    the same subject. *)
Lemma bt_forward r :
  forall s k x, bt r s k = Some x ->
  exists s', forward s s' /\ k s' = Some x.
Proof.
  induction r as [|p|a IHa b IHb|a IHa b IHb|g a IHa|i a IHa|a IHa|m|m];
    intros s k x H.
  - exists s. split; [apply forward_refl | exact H].
  - cbn in H. destruct (rest s) as [|c t] eqn:E; [discriminate|].
    destruct (p c); [|discriminate].
    exists (advance c t s). split; [|exact H].
    exists [c]. split; [exact E | reflexivity].
  - cbn in H. apply IHa in H as [s1 [F1 H]]. apply IHb in H as [s2 [F2 H]].
    exists s2. split; [eapply forward_trans; eauto | exact H].
  - cbn in H. unfold orelse in H.
    destruct (bt a s k) eqn:E.
    + inversion H; subst. now apply IHa.
    + now apply IHb.
  - rewrite bt_star in H. remember (length (rest s)) as n eqn:En. clear En.
    revert s x H. induction n as [|n IHn]; intros s x H; cbn in H.
    + exists s. split; [apply forward_refl | exact H].
    + assert (Hagain :
        forall y,
          bt a s (fun s1 => if length (rest s1) <? length (rest s)
                            then star_loop g a k n s1 else None) = Some y ->
          exists s', forward s s' /\ k s' = Some y).
      { intros y Hy. apply IHa in Hy as [s1 [F1 Hy]].
        destruct (length (rest s1) <? length (rest s)); [|discriminate].
        apply IHn in Hy as [s2 [F2 Hy]].
        exists s2. split; [eapply forward_trans; eauto | exact Hy]. }
      destruct g; unfold orelse in H.
      * destruct (bt a s _) eqn:E.
        -- inversion H; subst. now apply Hagain.
        -- exists s. split; [apply forward_refl | exact H].
      * destruct (k s) eqn:E.
        -- inversion H; subst. exists s. split; [apply forward_refl | exact E].
        -- now apply Hagain.
  - cbn in H. apply IHa in H as [s1 [F1 H]].
    eexists. split; [|exact H]. destruct s1; eapply forward_same; exact F1.
  - cbn in H. destruct (bt a s (fun s1 => Some s1)) as [s1|]; [|discriminate].
    eexists. split; [|exact H]. destruct s as [sn rs cs]; cbn.
    apply forward_same with (cs := cs). apply forward_refl.
  - cbn in H. destruct (at_bol m s); [|discriminate].
    exists s. split; [apply forward_refl | exact H].
  - cbn in H. destruct (at_eol m s); [|discriminate].
    exists s. split; [apply forward_refl | exact H].
Qed.

Lemma forward_consumed s s' w :
  rest s = w ++ rest s' -> consumed s s' = w.
Proof.
  intros R. unfold consumed. rewrite R, length_app.
  replace (length w + length (rest s') - length (rest s')) with (length w) by lia.
  rewrite firstn_app, firstn_all, Nat.sub_diag. cbn. apply app_nil_r.
Qed.

(** A match reads a prefix of what remained where it started. *)
Lemma match_at_forward r s m :
  match_at r s = Some m ->
  m_start m = s /\
  rest s = m_text m ++ rest (m_end m) /\
  seen (m_end m) = rev (m_text m) ++ seen s.
Proof.
  unfold match_at. intros H.
  destruct (bt r _ _) as [e|] eqn:E; [|discriminate].
  inversion H; subst; clear H.
  apply bt_forward in E as [s' [[w [R S]] Heq]]. inversion Heq; subst; clear Heq.
  cbn in *. unfold m_text. cbn.
  rewrite (forward_consumed s e w R). auto.
Qed.

(** The loop of a greedy star over one character class. *)
Lemma star_loop_class p k :
  forall n s, length (rest s) <= n ->
  star_loop true (Chr p) k n s = star_class p k (seen s) (rest s) (caps s).
Proof.
  induction n as [|n IH]; intros [sn rs cs] H; cbn [seen rest caps] in *.
  - destruct rs; [reflexivity | cbn in H; lia].
  - destruct rs as [|c t]; [reflexivity|].
    cbn [star_loop bt rest star_class]. destruct (p c); [|reflexivity].
    unfold advance. cbn [rest seen caps].
    replace (length t <? length (c :: t)) with true
      by (symmetry; apply Nat.ltb_lt; cbn; lia).
    rewrite IH by (cbn in *; lia). reflexivity.
Qed.

Lemma bt_star_class p s k :
  bt (Star true (Chr p)) s k = star_class p k (seen s) (rest s) (caps s).
Proof. rewrite bt_star. now apply star_loop_class. Qed.

Lemma span_app p s : fst (span p s) ++ snd (span p s) = s.
Proof.
  induction s as [|c r IH]; [reflexivity|]. cbn.
  destruct (p c); [|reflexivity].
  destruct (span p r); cbn in *. now rewrite IH.
Qed.

Lemma span_all p s : forallb p (fst (span p s)) = true.
Proof.
  induction s as [|c r IH]; [reflexivity|]. cbn.
  destruct (p c) eqn:E; [|reflexivity].
  destruct (span p r); cbn in *. now rewrite E.
Qed.

Lemma span_stop p s :
  match snd (span p s) with
  | c :: _ => p c = false
  | [] => True
  end.
Proof.
  induction s as [|c r IH]; [exact I|]. cbn.
  destruct (p c) eqn:E; [|exact E].
  destruct (span p r); exact IH.
Qed.

(** When the continuation accepts the position after the longest run, a
    greedy star stops there. *)
Lemma star_class_longest p k sn rs cs x :
  k (MState (rev (fst (span p rs)) ++ sn) (snd (span p rs)) cs) = Some x ->
  star_class p k sn rs cs = Some x.
Proof.
  revert sn. induction rs as [|c t IH]; intros sn H; cbn in *; [exact H|].
  destruct (p c); [|exact H].
  destruct (span p t) as [a b] eqn:E. cbn in *.
  rewrite (IH (c :: sn)); [reflexivity|].
  now rewrite <- app_assoc in H.
Qed.

(** When the continuation refuses every position that a character of the
    class follows, a greedy star can only stop after the longest run. *)
Lemma star_class_det p k sn rs cs :
  (forall sn' c t cs', p c = true -> k (MState sn' (c :: t) cs') = None) ->
  star_class p k sn rs cs =
  k (MState (rev (fst (span p rs)) ++ sn) (snd (span p rs)) cs).
Proof.
  intros Hk. revert sn. induction rs as [|c t IH]; intros sn; cbn; [reflexivity|].
  destruct (p c) eqn:E; [|reflexivity].
  destruct (span p t) as [a b] eqn:E2. cbn in *.
  rewrite IH, (Hk sn c t cs E). rewrite <- app_assoc. cbn.
  now destruct (k _).
Qed.

(** Unfolding equations of the matcher. *)

Lemma bt_eps s k : bt Eps s k = k s.
Proof. reflexivity. Qed.

Lemma bt_chr p s k :
  bt (Chr p) s k =
  match rest s with
  | c :: t => if p c then k (advance c t s) else None
  | [] => None
  end.
Proof. reflexivity. Qed.

Lemma bt_seq a b s k : bt (Seq a b) s k = bt a s (fun s1 => bt b s1 k).
Proof. reflexivity. Qed.

Lemma bt_alt a b s k : bt (Alt a b) s k = orelse (bt a s k) (bt b s k).
Proof. reflexivity. Qed.

Lemma bt_group i a s k :
  bt (Group i a) s k =
  bt a s (fun s1 =>
    k (MState (seen s1) (rest s1) (set_cap i (consumed s s1) (caps s1)))).
Proof. reflexivity. Qed.

Lemma bt_bol m s k : bt (Bol m) s k = if at_bol m s then k s else None.
Proof. reflexivity. Qed.

Lemma bt_eol m s k : bt (Eol m) s k = if at_eol m s then k s else None.
Proof. reflexivity. Qed.

(** A captured [p+] in front of something that cannot start with a
    character of [p]. *)
Lemma bt_group_plus_class i p k s :
  (forall sn' c t cs', p c = true -> k (MState sn' (c :: t) cs') = None) ->
  bt (Group i (plus_of p)) s k =
    match rest s with
    | c :: t =>
        if p c then
          k (MState (rev (fst (span p t)) ++ c :: seen s) (snd (span p t))
                    (set_cap i (c :: fst (span p t)) (caps s)))
        else None
    | [] => None
    end.
Proof.
  intros Hk. unfold plus_of, Plus. rewrite bt_group, bt_seq, bt_chr.
  destruct (rest s) as [|c t] eqn:E; [reflexivity|].
  destruct (p c); [|reflexivity].
  rewrite bt_star_class. unfold advance. cbn [seen rest caps].
  rewrite star_class_det.
  - cbn [seen rest caps]. f_equal. f_equal. f_equal.
    apply forward_consumed. cbn. rewrite E. cbn. f_equal. symmetry. apply span_app.
  - intros sn' c' t' cs' Hp. cbn. now apply Hk.
Qed.

(** The link pattern of line 120 reads a line the way [parse_link] does. *)
Lemma link_re_parse l :
  option_map (fun m => (group 1 m, group 2 m)) (re_match link_re l)
  = parse_link l.
Proof.
  unfold re_match, match_at, start_of. cbn [seen rest].
  unfold link_re. cbn [Seqs]. rewrite bt_seq, bt_bol. cbn [at_bol seen].
  rewrite bt_seq, bt_chr. cbn [rest].
  destruct l as [|c0 r0]; [reflexivity|].
  unfold parse_link. unfold only at 1.
  destruct (c0 =? lbracket)%N eqn:E0; cbn [andb].
  2:{ destruct r0; reflexivity. }
  unfold advance. cbn [seen caps].
  rewrite bt_seq, bt_group_plus_class.
  2:{ intros sn' c t cs' Hp. rewrite bt_seq, bt_chr. cbn [rest].
      unfold no in Hp. unfold only. now destruct (c =? rbracket)%N. }
  cbn [rest seen caps].
  destruct r0 as [|c1 r]; [reflexivity|].
  destruct (no rbracket c1) eqn:E1; [|reflexivity].
  destruct (span (no rbracket) r) as [a b] eqn:Ea. cbn [fst snd].
  rewrite bt_seq, bt_chr. cbn [rest].
  destruct b as [|c2 b]; [reflexivity|].
  unfold only at 1. destruct (c2 =? rbracket)%N eqn:E2; cbn [andb].
  2:{ destruct b as [|? [|? ?]]; reflexivity. }
  unfold advance. cbn [seen caps].
  rewrite bt_seq, bt_chr. cbn [rest].
  destruct b as [|c3 b]; [reflexivity|].
  unfold only at 1. destruct (c3 =? lparen)%N eqn:E3; cbn [andb].
  2:{ destruct b; reflexivity. }
  unfold advance. cbn [seen caps].
  rewrite bt_seq, bt_group_plus_class.
  2:{ intros sn' c t cs' Hp. rewrite bt_chr. cbn [rest].
      unfold no in Hp. unfold only. now destruct (c =? rparen)%N. }
  cbn [rest seen caps].
  destruct b as [|c4 r2]; [reflexivity|].
  destruct (no rparen c4) eqn:E4; [|reflexivity].
  destruct (span (no rparen) r2) as [a2 b2] eqn:Ea2. cbn [fst snd].
  rewrite bt_chr. cbn [rest].
  destruct b2 as [|c5 b2]; [reflexivity|].
  unfold only. destruct (c5 =? rparen)%N eqn:E5; [|reflexivity].
  reflexivity.
Qed.

(** ** Links *)

Lemma no_forallb d (a : pystr) : forallb (no d) a = true <-> ~ In d a.
Proof.
  induction a as [|c a IH]; cbn.
  - split; [intros _ [] | reflexivity].
  - unfold no at 1. rewrite andb_true_iff, IH, negb_true_iff, N.eqb_neq.
    split.
    + intros [Hc Ha] [E|E]; [now apply Hc | now apply Ha].
    + intros H. split; [intros E; apply H; now left | intros E; apply H; now right].
Qed.

Lemma span_exact p (a : pystr) c r :
  forallb p a = true -> p c = false -> span p (a ++ c :: r) = (a, c :: r).
Proof.
  intros Ha Hc. induction a as [|x a IH]; cbn in *.
  - now rewrite Hc.
  - apply andb_true_iff in Ha as [Hx Ha]. now rewrite Hx, IH.
Qed.

Lemma parse_link_shape line text target :
  parse_link line = Some (text, target) -> link_shape line text target.
Proof.
  unfold parse_link. intros H.
  destruct line as [|c0 [|c1 r]]; try discriminate.
  destruct (N.eqb_spec c0 lbracket) as [->|]; [|discriminate].
  destruct (no rbracket c1) eqn:E1; [|discriminate]. cbn [andb] in H.
  pose proof (span_app (no rbracket) r) as Hr.
  pose proof (span_all (no rbracket) r) as Ha.
  destruct (span (no rbracket) r) as [a b]. cbn [fst snd] in *.
  destruct b as [|c2 [|c3 [|c4 r2]]]; try discriminate.
  destruct (N.eqb_spec c2 rbracket) as [->|]; [|discriminate].
  destruct (N.eqb_spec c3 lparen) as [->|]; [|discriminate].
  destruct (no rparen c4) eqn:E4; [|discriminate]. cbn [andb] in H.
  pose proof (span_app (no rparen) r2) as Hr2.
  pose proof (span_all (no rparen) r2) as Ha2.
  destruct (span (no rparen) r2) as [a2 b2]. cbn [fst snd] in *.
  destruct b2 as [|c5 b2]; try discriminate.
  destruct (N.eqb_spec c5 rparen) as [->|]; [|discriminate].
  inversion H; subst text target; clear H.
  repeat split; try discriminate.
  - apply no_forallb. cbn. now rewrite E1.
  - apply no_forallb. cbn. now rewrite E4.
  - exists b2. rewrite <- Hr, <- Hr2. cbn. repeat rewrite <- app_assoc. reflexivity.
Qed.

Lemma shape_parse_link line text target :
  link_shape line text target -> parse_link line = Some (text, target).
Proof.
  intros (Ht & Hnt & Hu & Hnu & tail & ->).
  destruct text as [|c1 a]; [congruence|].
  destruct target as [|c4 a2]; [congruence|].
  apply no_forallb in Hnt, Hnu. cbn in Hnt, Hnu.
  apply andb_true_iff in Hnt as [E1 Ha], Hnu as [E4 Ha2].
  cbn [app parse_link]. rewrite N.eqb_refl, E1. cbn [andb].
  rewrite (span_exact (no rbracket) a rbracket) by (auto; reflexivity).
  rewrite !N.eqb_refl, E4. cbn [andb].
  rewrite (span_exact (no rparen) a2 rparen) by (auto; reflexivity).
  now rewrite N.eqb_refl.
Qed.

(** [re.match] of the link pattern succeeds exactly on the lines that
    start with a link, and its groups are the text and the target. *)
Lemma link_match_shape line m :
  re_match link_re line = Some m ->
  link_shape line (group 1 m) (group 2 m).
Proof.
  intros H. apply parse_link_shape. rewrite <- link_re_parse, H. reflexivity.
Qed.

Lemma link_shape_match line text target :
  link_shape line text target ->
  exists m, re_match link_re line = Some m /\
            group 1 m = text /\ group 2 m = target.
Proof.
  intros H. apply shape_parse_link in H. rewrite <- link_re_parse in H.
  destruct (re_match link_re line) as [m|]; [|discriminate].
  inversion H. eauto.
Qed.

(** ** Dictionaries *)

Lemma dict_get_set_other k k' v d :
  k <> k' -> dict_get k (dict_set k' v d) = dict_get k d.
Proof.
  intros Hk. induction d as [|[k0 w] d IH]; cbn.
  - destruct (String.eqb_spec k k'); [contradiction | reflexivity].
  - destruct (String.eqb_spec k' k0) as [->|]; cbn.
    + destruct (String.eqb_spec k k0); [contradiction | reflexivity].
    + destruct (String.eqb_spec k k0); [reflexivity | exact IH].
Qed.

Lemma dict_get_update_other k d e :
  ~ In k (keys e) -> dict_get k (dict_update d e) = dict_get k d.
Proof.
  unfold dict_update. revert d. induction e as [|[k' v] e IH]; intros d H; cbn.
  - reflexivity.
  - rewrite IH by (intros Hin; apply H; now right).
    apply dict_get_set_other. intros ->. apply H. now left.
Qed.

Lemma get_str_update_other k d e :
  ~ In k (keys e) -> get_str k (dict_update d e) = get_str k d.
Proof. intros H. unfold get_str. now rewrite dict_get_update_other. Qed.

Lemma get_str_set_other k k' v d :
  k <> k' -> get_str k (dict_set k' v d) = get_str k d.
Proof. intros H. unfold get_str. now rewrite dict_get_set_other. Qed.

Section ExtractFacts.
Context {U : Unicode}.

(** ** The row splitter *)

Lemma keys_clean (d : dict) : keys (map clean_entry d) = keys d.
Proof.
  unfold keys. rewrite map_map. apply map_ext.
  intros [k [v|n]]; reflexivity.
Qed.

(** The field extractor always returns the five field keys. *)
Lemma keys_table_cells pp mp line :
  keys (table_cells_with pp mp line) = field_keys.
Proof.
  unfold table_cells_with. rewrite keys_clean.
  destruct (6 <=? _); [reflexivity|].
  destruct (first_search pp line); destruct (first_findall mp line); reflexivity.
Qed.

Lemma papers_loop_spec :
  forall lines papers,
  exists new,
    papers_loop lines papers = papers ++ new /\
    map raw_row new = filter qualifies (map strip lines) /\
    map number_of new =
      map (fun n => Some (VInt n)) (seq (length papers + 1) (length new)) /\
    Forall (fun p => link_shape (raw_row p) (title_of p) (url_of p)) new.
Proof.
  induction lines as [|raw ls IH]; intros papers.
  - exists []. cbn. rewrite app_nil_r. auto.
  - cbn [papers_loop map filter]. unfold qualifies at 1.
    destruct (truthy (strip raw)); cbn [negb orb andb]; [|apply IH].
    destruct (startswith separator_prefix (strip raw)); cbn [negb orb andb];
      [apply IH|].
    destruct (startswith header_prefix (strip raw)); cbn [negb orb andb];
      [apply IH|].
    destruct (re_match link_re (strip raw)) as [m|] eqn:Em; cbn [some];
      [|apply IH].
    set (paper := dict_update _ _).
    destruct (IH (papers ++ [paper])) as (new & E & Hrows & Hnum & Hshape).
    assert (Hget : forall k, ~ In k field_keys ->
              dict_get k paper =
              dict_get k (new_paper (group 1 m) (group 2 m) (strip raw)
                                    (length papers + 1))).
    { intros k Hk. unfold paper. apply dict_get_update_other.
      unfold extract_table_cells_from_line. now rewrite keys_table_cells. }
    assert (Hctx : raw_row paper = strip raw).
    { unfold raw_row, get_str. rewrite Hget; [reflexivity|].
      cbn. intuition discriminate. }
    exists (paper :: new). repeat split.
    + rewrite E, <- app_assoc. reflexivity.
    + cbn [map]. now rewrite Hctx, Hrows.
    + cbn [map length seq]. f_equal.
      * unfold number_of. rewrite Hget; [reflexivity|]. cbn. intuition discriminate.
      * rewrite Hnum, length_app. cbn [length].
        now replace (length papers + 1 + 1) with (S (length papers + 1)) by lia.
    + constructor; [|exact Hshape].
      rewrite Hctx. unfold title_of, url_of, get_str.
      rewrite !Hget by (cbn; intuition discriminate). cbn.
      now apply link_match_shape.
Qed.

Lemma qualifies_iff line :
  qualifies line = true <->
  line <> [] /\ startswith separator_prefix line = false /\
  startswith header_prefix line = false /\
  exists text target, link_shape line text target.
Proof.
  unfold qualifies. rewrite !andb_true_iff, !negb_true_iff. split.
  - intros [[[H1 H2] H3] H4]. repeat split; auto.
    + intros ->. discriminate.
    + destruct (re_match link_re line) as [m|] eqn:E; [|discriminate].
      eauto using link_match_shape.
  - intros (H1 & H2 & H3 & text & target & H4). repeat split; auto.
    + destruct line; [congruence | reflexivity].
    + apply link_shape_match in H4 as (m & -> & _). reflexivity.
Qed.

(** C2 (row splitter contract): the records of
    [extract_papers_from_section] are, in order, the lines of the section
    that after trimming are non-empty, do not start with the table
    separator or with the bold header label, and start with a link; the
    raw row of each record is its trimmed line, its ordinal number is its
    position counted from one, and its title and url are the text and the
    target of the link at the start of the line. *)
Theorem row_splitter_contract (section_content : pystr) :
  let papers := extract_papers_from_section section_content in
  map raw_row papers = paper_rows section_content /\
  map number_of papers =
    map (fun n => Some (VInt n)) (seq 1 (length papers)) /\
  Forall (fun p => link_shape (raw_row p) (title_of p) (url_of p)) papers /\
  (forall line,
     qualifies line = true <->
     line <> [] /\ startswith separator_prefix line = false /\
     startswith header_prefix line = false /\
     exists text target, link_shape line text target).
Proof.
  cbv zeta. unfold extract_papers_from_section, paper_rows.
  destruct (papers_loop_spec (split_lines section_content) [])
    as (new & -> & Hrows & Hnum & Hshape).
  cbn [app].
  split; [exact Hrows | split; [exact Hnum | split; [exact Hshape |]]].
  intros line. apply qualifies_iff.
Qed.

End ExtractFacts.

(** ** The section locator returns lines of the document *)

Lemma slice_run (A : Type) (i j : nat) (xs : list A) :
  i <= j ->
  xs = firstn i xs ++ slice i j xs ++ skipn (j - i) (skipn i xs).
Proof.
  intros _. unfold slice. now rewrite !firstn_skipn.
Qed.

Lemma slice_nonempty (A : Type) (i j : nat) (xs : list A) :
  i < j -> i < length xs -> slice i j xs <> [].
Proof.
  intros Hij Hi E. apply (f_equal (@length A)) in E.
  unfold slice in E. rewrite length_firstn, length_skipn in E. cbn in E. lia.
Qed.

Lemma slice_is_run (i j : nat) (lines : list pystr) :
  i < j -> i < length lines ->
  run_of_lines (join_lines (slice i j lines)) lines.
Proof.
  intros Hij Hi. exists (firstn i lines), (slice i j lines),
    (skipn (j - i) (skipn i lines)).
  split; [apply slice_run; lia|]. split; [now apply slice_nonempty | reflexivity].
Qed.

Lemma Ok_inj (A : Type) (a b : A) : Ok a = Ok b -> a = b.
Proof. intros H. now injection H. Qed.

Section LocatorFacts.
Context {U : Unicode}.

Lemma first_match_bound pat :
  forall lines k i,
  first_match pat lines k = Some i -> k <= i < k + length lines.
Proof.
  induction lines as [|l ls IH]; intros k i H; cbn in H; [discriminate|].
  destruct (some _).
  - inversion H; subst. cbn. lia.
  - apply IH in H. cbn. lia.
Qed.

Lemma try_patterns_bound pats lines i :
  try_patterns pats lines = Some i -> i < length lines.
Proof.
  induction pats as [|pat ps IH]; cbn; [discriminate|].
  destruct (first_match pat lines 0) eqn:E.
  - intros H. inversion H; subst. apply first_match_bound in E. lia.
  - exact IH.
Qed.

Lemma find_end_bound level :
  forall ls k e,
  find_end level ls k = Ok (Some e) -> k <= e < k + length ls.
Proof.
  induction ls as [|raw ls IH]; intros k e H; cbn in H; [discriminate|].
  destruct (some _).
  - destruct (level_of (strip raw)) as [lv|]; cbn in H; [|discriminate].
    destruct (lv <=? level).
    + inversion H; subst. cbn. lia.
    + apply IH in H. cbn. lia.
  - apply IH in H. cbn. lia.
Qed.

Lemma scan_blocks_runs (all : list pystr) :
  forall ls done i st,
  all = done ++ ls ->
  (exists before, done = before ++ current_section st) ->
  Forall (fun e => run_of_lines (snd e) all) (potential_sections st) ->
  (exists before, all = before ++ current_section (scan_blocks ls i st)) /\
  Forall (fun e => run_of_lines (snd e) all)
         (potential_sections (scan_blocks ls i st)).
Proof.
  induction ls as [|line ls IH]; intros done i st Hall [before Hdone] Hpot.
  - cbn. rewrite app_nil_r in Hall. subst all. eauto.
  - cbn [scan_blocks].
    apply (IH (done ++ [line])).
    + rewrite Hall, <- app_assoc. reflexivity.
    + destruct (some _); cbn [current_section].
      * now exists done.
      * exists before. rewrite Hdone, <- app_assoc. reflexivity.
    + destruct (some _); cbn [potential_sections]; [|exact Hpot].
      unfold relevant. destruct (current_section st) as [|c cs] eqn:Ec;
        [exact Hpot|].
      destruct (has_keyword (c :: cs)); [|exact Hpot].
      apply Forall_app. split; [exact Hpot|]. constructor; [|constructor].
      cbn [snd]. exists before, (c :: cs), (line :: ls).
      split; [|split; [discriminate | reflexivity]].
      rewrite Hall, Hdone, <- app_assoc. reflexivity.
Qed.

Lemma keyword_fallback_run lines text :
  keyword_fallback lines = Some text -> run_of_lines text lines.
Proof.
  unfold keyword_fallback.
  destruct (@scan_blocks_runs lines lines [] 0 (Blocks [] [] None))
    as [[before Hcur] Hpot]; [reflexivity | now exists [] | constructor |].
  set (st := scan_blocks lines 0 (Blocks [] [] None)) in *.
  assert (Hall : Forall (fun e => run_of_lines (snd e) lines)
            (if relevant (current_section st) then
               potential_sections st ++
                 [(current_header st, length lines - length (current_section st),
                   join_lines (current_section st))]
             else potential_sections st)).
  { unfold relevant. destruct (current_section st) as [|c cs] eqn:Ec; [exact Hpot|].
    destruct (has_keyword (c :: cs)); [|exact Hpot].
    apply Forall_app. split; [exact Hpot|]. constructor; [|constructor].
    cbn [snd]. exists before, (c :: cs), [].
    split; [|split; [discriminate | reflexivity]].
    now rewrite app_nil_r. }
  destruct (if relevant _ then _ else _) as [|[[h a] t] found]; [discriminate|].
  intros H. injection H as <-. now inversion Hall.
Qed.

(** Every section that [find_section] returns is a run of consecutive
    lines of the document. *)
Lemma find_section_run content title text :
  find_section content title = Ok (Some text) ->
  run_of_lines text (split_lines content).
Proof.
  unfold find_section.
  destruct (try_patterns _ _) as [start|] eqn:Et.
  - apply try_patterns_bound in Et.
    destruct (level_of _) as [lv|]; cbn [bind]; [|discriminate].
    destruct (find_end _ _ _) as [[e|]|] eqn:Ee; cbn [bind]; try discriminate.
    + apply find_end_bound in Ee. intros H. inversion H; subst.
      apply slice_is_run; lia.
    + intros H. inversion H; subst. apply slice_is_run; lia.
  - intros H. inversion H; subst. now apply keyword_fallback_run.
Qed.

(** Every record comes from one line of the section. *)
Lemma paper_line section_content p :
  In p (extract_papers_from_section section_content) ->
  exists line, In line (split_lines section_content) /\ raw_row p = strip line.
Proof.
  unfold extract_papers_from_section. intros Hp.
  destruct (papers_loop_spec (split_lines section_content) [])
    as (new & E & Hrows & _).
  rewrite E in Hp. cbn [app] in Hp.
  apply (in_map raw_row) in Hp. rewrite Hrows in Hp.
  apply filter_In in Hp as [Hp _].
  apply in_map_iff in Hp as (line & E' & Hin). eauto.
Qed.

Lemma raw_row_details p :
  raw_row (dict_update p (extract_research_details p)) = raw_row p.
Proof.
  unfold raw_row. apply get_str_update_other.
  cbn. intuition discriminate.
Qed.

(** C1 (zero fabrication): whatever the pipeline emits for a document, the
    raw row of every record is the stripped text of one line of the
    document and so a contiguous piece of the document; every section that
    [find_section] returns is a run of consecutive lines of the document,
    and every record of [extract_papers_from_section] has as raw row the
    stripped text of one line of the section it was given. *)
Theorem zero_fabrication (content title : pystr) (papers : list dict) (p : dict)
  (Hrun : run_pipeline content title = Ok papers) (Hin : In p papers) :
  substring (raw_row p) content /\
  (exists line, In line (split_lines content) /\ raw_row p = strip line) /\
  (forall text, find_section content title = Ok (Some text) ->
                run_of_lines text (split_lines content)) /\
  (forall section_content q,
     In q (extract_papers_from_section section_content) ->
     exists line, In line (split_lines section_content)
                  /\ raw_row q = strip line).
Proof.
  assert (Hline : exists line, In line (split_lines content)
                               /\ raw_row p = strip line).
  { unfold run_pipeline in Hrun.
    destruct (find_section content title) as [found|] eqn:Ef; cbn [bind] in Hrun;
      [|discriminate].
    apply Ok_inj in Hrun. subst papers.
    apply in_map_iff in Hin as (q & <- & Hq). cbv beta. rewrite raw_row_details.
    apply paper_line in Hq as (line & Hl & ->).
    exists line. split; [|reflexivity].
    destruct found as [text|]; [|exact Hl].
    destruct (truthy text); [|exact Hl].
    apply find_section_run in Ef.
    eapply run_lines_in; eauto. apply split_lines_no_newline. }
  split; [|split; [exact Hline | split]].
  - destruct Hline as (line & Hl & ->).
    eapply substring_trans; [apply strip_substring|].
    rewrite <- (join_split_lines content). now apply line_substring.
  - intros text. apply find_section_run.
  - intros sc q. apply paper_line.
Qed.

End LocatorFacts.

(** ** The section locator on headings *)

Lemma find_index_some (A : Type) (f : A -> bool) d :
  forall xs k e,
  find_index f xs k = Some e ->
  k <= e < k + length xs /\
  f (nth (e - k) xs d) = true /\
  forall j, j < e - k -> f (nth j xs d) = false.
Proof.
  induction xs as [|x r IH]; intros k e H; cbn in H; [discriminate|].
  destruct (f x) eqn:E.
  - injection H as <-. rewrite Nat.sub_diag. cbn.
    split; [lia|]. split; [exact E|]. intros j Hj. lia.
  - apply IH in H as (Hb & He & Hlt). cbn [length].
    split; [lia|].
    replace (e - k) with (S (e - S k)) by lia. cbn [nth].
    split; [exact He|]. intros [|j] Hj; [exact E|]. apply Hlt. lia.
Qed.

Lemma find_index_none (A : Type) (f : A -> bool) d :
  forall xs k j,
  find_index f xs k = None -> j < length xs -> f (nth j xs d) = false.
Proof.
  induction xs as [|x r IH]; intros k j H Hj; cbn in *; [lia|].
  destruct (f x) eqn:E; [discriminate|].
  destruct j as [|j]; [exact E|]. apply (IH (S k)); [exact H | lia].
Qed.

(** The level pattern counts the [#] at the start of the line, and fails
    on a line that starts with anything else. *)
Lemma level_of_spec (line : pystr) :
  level_of line =
  if startswith [hash] line then Ok (leading_hashes line)
  else Raise AttributeError.
Proof.
  unfold level_of, re_match, match_at, start_of, level_re. cbn [seen rest].
  rewrite bt_seq, bt_bol. cbn [at_bol seen].
  unfold hashes, plus_of, Plus. rewrite bt_group, bt_seq, bt_chr. cbn [rest].
  destruct line as [|c r]; [reflexivity|].
  unfold leading_hashes. cbn [startswith span]. unfold only at 1 3.
  rewrite (N.eqb_sym hash c).
  destruct (c =? hash)%N; cbn [andb]; [|reflexivity].
  rewrite bt_star_class. unfold advance. cbn [seen rest caps].
  erewrite star_class_longest by reflexivity.
  unfold group. cbn [m_end caps set_cap get_cap Nat.eqb seen rest].
  rewrite (@forward_consumed _ _ (c :: fst (span (only hash) r)))
    by (cbn [rest]; now rewrite <- app_comm_cons, span_app).
  now destruct (span (only hash) r).
Qed.

Lemma header_starts_with_hash (line : pystr) :
  some (re_match header_re line) = true -> startswith [hash] line = true.
Proof.
  unfold re_match, match_at, start_of, header_re. cbn [Seqs seen rest].
  rewrite bt_seq, bt_bol. cbn [at_bol seen].
  unfold hashes, plus_of, Plus. rewrite !bt_seq, bt_chr. cbn [rest].
  destruct line as [|c r]; [discriminate|].
  cbn [startswith]. unfold only at 1. rewrite (N.eqb_sym hash c).
  now destruct (c =? hash)%N.
Qed.

(** The scan for the end of the section never raises: it finds the first
    line that closes the section. *)
Lemma find_end_spec start_level :
  forall ls k,
  find_end start_level ls k = Ok (find_index (closes start_level) ls k).
Proof.
  induction ls as [|raw ls IH]; intros k; [reflexivity|].
  cbn [find_end find_index]. unfold closes at 1.
  destruct (some (re_match header_re (strip raw))) eqn:E; cbn [andb];
    [|apply IH].
  rewrite level_of_spec, (header_starts_with_hash _ E). cbn [bind].
  destruct (leading_hashes (strip raw) <=? start_level); [reflexivity | apply IH].
Qed.

Section HeadingFacts.
Context {U : Unicode}.

(** X3 (the section under a heading): when the line that the patterns
    select starts with [#], the section locator returns the lines from
    that line up to, and without, the next line that (stripped) is a
    heading of the same or a smaller level, or up to the end of the
    document when there is no such line. *)
Lemma find_section_heading (content title : pystr) (i : nat) :
  let lines := split_lines content in
  let start_level := leading_hashes (nth i lines []) in
  try_patterns (patterns title) lines = Some i ->
  startswith [hash] (nth i lines []) = true ->
  exists e,
    find_section content title = Ok (Some (join_lines (slice i e lines))) /\
    i < e <= length lines /\
    (forall j, i < j < e -> closes start_level (nth j lines []) = false) /\
    (e < length lines -> closes start_level (nth e lines []) = true).
Proof.
  cbv zeta. intros Ht Hh. unfold find_section. rewrite Ht.
  pose proof (try_patterns_bound _ _ Ht) as Hi.
  rewrite level_of_spec, Hh. cbn [bind]. rewrite find_end_spec. cbn [bind].
  set (lines := split_lines content) in *.
  set (lv := leading_hashes (nth i lines [])).
  assert (Hnth : forall j, nth j (skipn (S i) lines) [] = nth (S i + j) lines []).
  { intros j. rewrite <- (firstn_skipn (S i) lines) at 2.
    rewrite app_nth2; rewrite length_firstn; [f_equal; lia | lia]. }
  destruct (find_index (closes lv) (skipn (S i) lines) (S i)) as [e|] eqn:Ee.
  - apply (find_index_some (closes lv) []) in Ee as (Hb & He & Hlt).
    rewrite length_skipn in Hb. rewrite Hnth in He.
    exists e. split; [reflexivity|]. split; [lia|]. split.
    + intros j Hj. specialize (Hlt (j - S i)). rewrite Hnth in Hlt.
      replace (S i + (j - S i)) with j in Hlt by lia. apply Hlt. lia.
    + intros _. now replace (S i + (e - S i)) with e in He by lia.
  - exists (length lines). split; [reflexivity|]. split; [lia|]. split; [|lia].
    intros j Hj.
    pose proof (@find_index_none _ (closes lv) [] _ _ (j - S i) Ee) as H.
    rewrite Hnth, length_skipn in H.
    replace (S i + (j - S i)) with j in H by lia. apply H. lia.
Qed.

(** When the line that the patterns select does not start with [#], be it
    a line without heading marks or an indented heading, reading its level
    raises. *)
Lemma find_section_raises (content title : pystr) (i : nat) :
  try_patterns (patterns title) (split_lines content) = Some i ->
  startswith [hash] (nth i (split_lines content) []) = false ->
  find_section content title = Raise AttributeError.
Proof.
  intros Ht Hh. unfold find_section. rewrite Ht, level_of_spec, Hh. reflexivity.
Qed.

(** The exact pattern is tried first. *)
Lemma exact_match_first (title : pystr) (lines : list pystr) (i : nat) :
  first_match (pat_exact title) lines 0 = Some i ->
  try_patterns (patterns title) lines = Some i.
Proof. intros H. unfold patterns. cbn [try_patterns]. now rewrite H. Qed.

End HeadingFacts.

(** ** Scanning a string for matches *)

Lemma scan_text r :
  forall n sn rs, length rs <= n ->
  flat_map token_text (scan n r sn rs) = rs.
Proof.
  induction n as [n IH] using lt_wf_ind. intros sn rs Hn.
  destruct n as [|n]; [destruct rs; [reflexivity | cbn in Hn; lia]|].
  destruct rs as [|c t]; [reflexivity|]. cbn [scan].
  assert (Hchar : flat_map token_text (TChar c :: scan n r (c :: sn) t) = c :: t).
  { cbn. f_equal. apply IH; [lia | cbn in Hn; lia]. }
  destruct (match_at r (MState sn (c :: t) [])) as [m|] eqn:Em; [|exact Hchar].
  destruct (length (m_text m) =? 0) eqn:Ek; [exact Hchar|].
  apply Nat.eqb_neq in Ek.
  apply match_at_forward in Em as (_ & Hrest & _). cbn [rest] in Hrest.
  cbn [flat_map token_text]. rewrite IH; [now rewrite <- Hrest | lia |].
  apply (f_equal (@length char)) in Hrest. rewrite length_app in Hrest.
  cbn in Hrest, Hn. lia.
Qed.

Lemma tokens_text r s : flat_map token_text (tokens r s) = s.
Proof. apply scan_text. lia. Qed.

Lemma split_tokens_substring :
  forall ts cur,
  Forall (fun part => substring part (rev cur ++ flat_map token_text ts))
         (split_tokens cur ts).
Proof.
  induction ts as [|t ts IH]; intros cur.
  - cbn. constructor; [|constructor]. exists [], []. cbn. now rewrite !app_nil_r.
  - destruct t as [c|m]; cbn [split_tokens flat_map token_text].
    + specialize (IH (c :: cur)). cbn [rev] in IH.
      now rewrite <- app_assoc in IH.
    + constructor.
      * exists [], (m_text m ++ flat_map token_text ts). reflexivity.
      * specialize (IH []). cbn [rev app] in IH.
        eapply Forall_impl; [|exact IH]. intros part (p & q & E).
        exists (rev cur ++ m_text m ++ p), q. rewrite E.
        now rewrite <- !app_assoc.
Qed.

(** Every piece that [re.split] returns is cut out of the subject. *)
Lemma re_split_substring r s :
  Forall (fun part => substring part s) (re_split r s).
Proof.
  unfold re_split. pose proof (split_tokens_substring (tokens r s) []) as H.
  cbn [rev app] in H. now rewrite tokens_text in H.
Qed.

(** *** Dropping the bold markers *)

Lemma match_at_bold sn rs :
  match_at (Lit bold) (MState sn rs []) =
  match rs with
  | c1 :: c2 :: r =>
      if (c1 =? star)%N && (c2 =? star)%N
      then Some (RMatch (MState sn rs []) (MState (c2 :: c1 :: sn) r []))
      else None
  | _ => None
  end.
Proof.
  unfold match_at, bold. cbn [Lit seen rest]. rewrite bt_seq, bt_chr. cbn [rest].
  destruct rs as [|c1 rs]; [reflexivity|]. unfold only at 1.
  destruct (c1 =? star)%N; [|now destruct rs].
  rewrite bt_seq, bt_chr. unfold advance. cbn [rest seen caps].
  destruct rs as [|c2 r]; [reflexivity|]. unfold only.
  destruct (c2 =? star)%N; reflexivity.
Qed.

Lemma scan_bold :
  forall n sn rs, length rs <= n ->
  flat_map (fun t => match t with TChar c => [c] | TMatch _ => [] end)
           (scan n (Lit bold) sn rs) = remove_bold rs.
Proof.
  induction n as [n IH] using lt_wf_ind. intros sn rs Hn.
  destruct n as [|n]; [destruct rs; [reflexivity | cbn in Hn; lia]|].
  destruct rs as [|c1 t]; [reflexivity|]. cbn [scan]. rewrite match_at_bold.
  destruct t as [|c2 r].
  - cbn. destruct n; reflexivity.
  - cbn [remove_bold].
    destruct ((c1 =? star)%N && (c2 =? star)%N).
    + set (m := RMatch _ _).
      assert (Hm : m_text m = [c1; c2]) by (now apply forward_consumed).
      cbv zeta. rewrite Hm. cbn [length Nat.eqb flat_map app].
      cbn [length] in Hn. apply IH; cbn [m_end rest]; clear - Hn; lia.
    + cbn [flat_map app]. f_equal. apply IH; [lia | cbn in *; lia].
Qed.

Lemma drop_bold_remove (v : pystr) : drop_bold v = remove_bold v.
Proof. unfold drop_bold, re_sub, tokens. apply scan_bold. lia. Qed.

Lemma remove_bold_cons c1 c2 (r : pystr) :
  remove_bold (c1 :: c2 :: r) =
  if (c1 =? star)%N && (c2 =? star)%N then remove_bold r
  else c1 :: remove_bold (c2 :: r).
Proof. reflexivity. Qed.

Lemma remove_bold_head c (r : pystr) :
  c <> star -> exists t, remove_bold (c :: r) = c :: t.
Proof.
  intros Hc. cbn. destruct r as [|c2 r]; [eauto|].
  destruct (N.eqb_spec c star); [contradiction|]. cbn [andb]. eauto.
Qed.

Lemma remove_bold_no_bold :
  forall n (s : pystr), length s <= n -> contains bold (remove_bold s) = false.
Proof.
  induction n as [n IH] using lt_wf_ind. intros s Hn.
  destruct s as [|c1 [|c2 r]].
  - reflexivity.
  - unfold bold. cbn [remove_bold contains startswith].
    now rewrite andb_false_r.
  - rewrite remove_bold_cons. cbn [length] in Hn.
    destruct (N.eqb_spec c1 star) as [->|H1];
      [destruct (N.eqb_spec c2 star) as [->|H2]|]; cbn [andb].
    + apply (IH (length r)); lia.
    + destruct (remove_bold_head r H2) as [t Et].
      cbn [contains]. rewrite (IH (S (length r))) by (cbn; lia).
      rewrite Et. unfold bold. cbn [startswith].
      destruct (N.eqb_spec star c2); [congruence|].
      cbn [andb]. now rewrite andb_false_r.
    + cbn [contains]. rewrite (IH (S (length r))) by (cbn; lia).
      unfold bold. cbn [startswith]. destruct (N.eqb_spec star c1); [congruence|].
      reflexivity.
Qed.

(** No bold marker is left in the result of [drop_bold]. *)
Lemma drop_bold_clean (v : pystr) : contains bold (drop_bold v) = false.
Proof. rewrite drop_bold_remove. now apply (remove_bold_no_bold (n := length v)). Qed.

Lemma remove_bold_chars :
  forall n (s : pystr) c, length s <= n -> In c (remove_bold s) -> In c s.
Proof.
  induction n as [n IH] using lt_wf_ind. intros s c Hn Hc.
  destruct s as [|c1 [|c2 r]]; [exact Hc | exact Hc |].
  cbn [remove_bold] in Hc. cbn [length] in Hn.
  destruct ((c1 =? star)%N && (c2 =? star)%N).
  - right. right. apply (IH (length r)); [lia | lia | exact Hc].
  - destruct Hc as [Hc|Hc]; [now left|]. right.
    apply (IH (S (length r))); [lia | cbn; lia | exact Hc].
Qed.

Lemma drop_bold_chars (v : pystr) c : In c (drop_bold v) -> In c v.
Proof. rewrite drop_bold_remove. now apply (remove_bold_chars (n := length v)). Qed.

(** *** Collapsing the white space *)

Lemma ws_run_match sn c t :
  isspace c = true ->
  exists m, match_at (plus_of isspace) (MState sn (c :: t) []) = Some m
            /\ m_text m <> [].
Proof.
  intros Hc. unfold match_at, plus_of, Plus. cbn [seen rest].
  rewrite bt_seq, bt_chr. cbn [rest]. rewrite Hc.
  rewrite bt_star_class. unfold advance. cbn [seen rest caps].
  erewrite star_class_longest by reflexivity.
  eexists. split; [reflexivity|].
  unfold m_text. cbn [m_start m_end].
  rewrite (@forward_consumed _ _ (c :: fst (span isspace t)));
    [discriminate|].
  cbn [rest]. now rewrite <- app_comm_cons, span_app.
Qed.

Lemma scan_ws :
  forall n sn rs,
  Forall (fun ch => isspace ch = true -> ch = space)
    (flat_map (fun t => match t with TChar c => [c] | TMatch _ => [space] end)
              (scan n (plus_of isspace) sn rs)).
Proof.
  induction n as [n IH] using lt_wf_ind. intros sn rs.
  destruct n as [|n]; [constructor|].
  destruct rs as [|c t]; [constructor|]. cbn [scan].
  assert (Hchar : isspace c = false ->
    Forall (fun ch => isspace ch = true -> ch = space)
      (flat_map (fun t => match t with TChar c => [c] | TMatch _ => [space] end)
                (TChar c :: scan n (plus_of isspace) (c :: sn) t))).
  { intros Hc. cbn [flat_map app]. constructor; [congruence|]. apply IH. lia. }
  destruct (isspace c) eqn:Hc.
  - destruct (@ws_run_match sn c t Hc) as (m & -> & Hm).
    destruct (length (m_text m) =? 0) eqn:Ek.
    + apply Nat.eqb_eq in Ek. destruct (m_text m); [contradiction | discriminate].
    + cbn [flat_map app]. constructor; [reflexivity|]. apply IH. lia.
  - destruct (match_at _ _) as [m|]; [|now apply Hchar].
    destruct (length (m_text m) =? 0); [now apply Hchar|].
    cbn [flat_map app]. constructor; [reflexivity|]. apply IH. lia.
Qed.

(** After [collapse_ws] the only white space left is the plain space. *)
Lemma collapse_ws_spaces (v : pystr) c :
  In c (collapse_ws v) -> isspace c = true -> c = space.
Proof.
  intros Hin. pose proof (scan_ws (length v) [] v) as H.
  rewrite Forall_forall in H. now apply H.
Qed.

Lemma substring_chars (a b : pystr) c : substring a b -> In c a -> In c b.
Proof.
  intros (p & q & ->) H. apply in_or_app. right. apply in_or_app. now left.
Qed.

(** What the clean-up of lines 205-210 guarantees for a value. *)
Lemma clean_value_facts (v : pystr) :
  contains bold (clean_value v) = false /\
  (forall c, In c (clean_value v) -> isspace c = true -> c = space).
Proof.
  unfold clean_value. destruct v as [|x v]; cbn [truthy].
  - split; [reflexivity | intros c []].
  - split; [apply drop_bold_clean|].
    intros c Hc. apply drop_bold_chars in Hc.
    apply (@substring_chars _ _ c (strip_substring _)) in Hc.
    now apply (@collapse_ws_spaces (x :: v)).
Qed.



Lemma span_length p (s : pystr) : length (snd (span p s)) <= length s.
Proof.
  rewrite <- (span_app p s) at 2. rewrite length_app. lia.
Qed.





Section FieldFacts.
Context {U : Unicode}.

(** ** The field extractor *)

Lemma table_cells_shape pp mp line :
  exists a b c d e,
    table_cells_with pp mp line =
    cells (clean_value a) (clean_value b) (clean_value c) (clean_value d)
          (clean_value e).
Proof.
  unfold table_cells_with.
  destruct (6 <=? _); [repeat eexists; reflexivity|].
  destruct (first_search pp line); destruct (first_findall mp line);
    repeat eexists; reflexivity.
Qed.

(** With six parts or more the fields are read off the parts. *)
Lemma table_cells_six pp mp line :
  6 <= length (re_split split_re line) ->
  table_cells_with pp mp line =
  cells (clean_value (strip (nth 1 (re_split split_re line) [])))
        (clean_value (strip (nth 2 (re_split split_re line) [])))
        (clean_value (strip (nth 3 (re_split split_re line) [])))
        (clean_value (strip (nth 4 (re_split split_re line) [])))
        (clean_value (strip (nth 5 (re_split split_re line) []))).
Proof.
  intros Hparts. unfold table_cells_with, part.
  set (parts := re_split split_re line) in *.
  replace (6 <=? length parts) with true by (symmetry; apply Nat.leb_le; lia).
  replace (1 <? length parts) with true by (symmetry; apply Nat.ltb_lt; lia).
  replace (2 <? length parts) with true by (symmetry; apply Nat.ltb_lt; lia).
  replace (3 <? length parts) with true by (symmetry; apply Nat.ltb_lt; lia).
  replace (4 <? length parts) with true by (symmetry; apply Nat.ltb_lt; lia).
  replace (5 <? length parts) with true by (symmetry; apply Nat.ltb_lt; lia).
  reflexivity.
Qed.


Lemma nth_firstn_lt (A : Type) (i n : nat) (xs : list A) d :
  i < n -> nth i (firstn n xs) d = nth i xs d.
Proof.
  revert n xs. induction i as [|i IH]; intros [|n] [|x xs] H;
    try reflexivity; try lia.
  cbn. apply IH. lia.
Qed.

(** C10 (extra columns are dropped), amended: when the split of a line
    yields more than six parts, the fields that
    [extract_table_cells_from_line] returns are determined by the first six
    parts alone: any line whose split has the same first six parts gives
    the same fields.  All the parts, the extra ones included, are pieces of
    the line, which the record keeps whole as its raw row.  (What stands in
    the extra parts is not confined to the raw row: the later steps read
    the whole row again.) *)
Theorem extra_columns_dropped (line line' : pystr)
  (Hmore : 6 < length (re_split split_re line))
  (Hsix : 6 <= length (re_split split_re line'))
  (Hsame : firstn 6 (re_split split_re line')
           = firstn 6 (re_split split_re line)) :
  extract_table_cells_from_line line' = extract_table_cells_from_line line /\
  Forall (fun part => substring part line) (re_split split_re line) /\
  (forall text target number,
     raw_row (dict_update (new_paper text target line number)
                          (extract_table_cells_from_line line)) = line).
Proof.
  split; [|split].
  - unfold extract_table_cells_from_line.
    rewrite !table_cells_six by lia.
    rewrite <- !(@nth_firstn_lt _ 1 6 (re_split split_re line')) by lia.
    rewrite <- !(@nth_firstn_lt _ 2 6 (re_split split_re line')) by lia.
    rewrite <- !(@nth_firstn_lt _ 3 6 (re_split split_re line')) by lia.
    rewrite <- !(@nth_firstn_lt _ 4 6 (re_split split_re line')) by lia.
    rewrite <- !(@nth_firstn_lt _ 5 6 (re_split split_re line')) by lia.
    rewrite Hsame.
    now rewrite !nth_firstn_lt by lia.
  - apply re_split_substring.
  - intros text target number. unfold raw_row.
    rewrite get_str_update_other; [reflexivity|].
    unfold extract_table_cells_from_line. rewrite keys_table_cells.
    cbn. intuition discriminate.
Qed.

(** X11 (the field extractor on every line): the result has
    exactly the five field keys, each with a string.  No value contains a
    bold marker, and the only white space a value can contain is the plain
    space.  With fewer than six parts, the fields that no fall-back pattern
    fills are empty. *)
Lemma field_extractor_total (problem_pats method_pats : list regex)
  (line : pystr) :
  let result := table_cells_with problem_pats method_pats line in
  let parts := re_split split_re line in
  keys result = field_keys /\
  (forall k, In k field_keys ->
     exists v, dict_get k result = Some (VStr v) /\
               contains bold v = false /\
               (forall c, In c v -> isspace c = true -> c = space)) /\
  (length parts < 6 ->
     get_str "data_source" result = [] /\
     get_str "conclusion" result = [] /\
     get_str "summary" result = []) /\
  (length parts < 6 -> first_search problem_pats line = None ->
     get_str "core_problem" result = []) /\
  (length parts < 6 -> first_findall method_pats line = None ->
     get_str "data_mining_methods" result = []).
Proof.
  cbv zeta. split; [apply keys_table_cells|]. split.
  - destruct (table_cells_shape problem_pats method_pats line)
      as (a & b & c & d & e & ->).
    intros k Hk. cbn in Hk.
    destruct Hk as [<-|[<-|[<-|[<-|[<-|[]]]]]];
      eexists; (split; [reflexivity | apply clean_value_facts]).
  - unfold table_cells_with.
    split; [|split]; intros Hlt;
      (replace (6 <=? length (re_split split_re line)) with false
         by (symmetry; apply Nat.leb_gt; lia)).
    + destruct (first_search problem_pats line);
        destruct (first_findall method_pats line); repeat split; reflexivity.
    + intros ->. destruct (first_findall method_pats line); reflexivity.
    + intros ->. destruct (first_search problem_pats line); reflexivity.
Qed.

End FieldFacts.

(** ** The second pass *)

Lemma truthy_nonempty (s : pystr) : s <> [] -> truthy s = true.
Proof. destruct s; [congruence | reflexivity]. Qed.

(** C5 (second-pass preference), amended: [extract_research_details]
    prefers the already filled [core_problem] for the research entry point
    and the already filled [data_mining_methods] for the methods, whatever
    the label patterns are (they are not consulted then); [data_source] is
    never read, so it has no influence on the result. *)
Theorem second_pass_preference (entry_pats method_pats tech_pats : list regex)
  (paper : dict) :
  let details := research_details_with entry_pats method_pats tech_pats paper in
  (get_str "core_problem" paper <> [] ->
   get_str "research_entry_point" details = get_str "core_problem" paper) /\
  (get_str "data_mining_methods" paper <> [] ->
   get_str "data_mining_methods" details
   = get_str "data_mining_methods" paper) /\
  (forall v,
     research_details_with entry_pats method_pats tech_pats
                           (dict_set "data_source" v paper) = details).
Proof.
  cbv zeta. unfold research_details_with. split; [|split].
  - intros H. repeat (rewrite (truthy_nonempty H); cbn [negb]). reflexivity.
  - intros H. repeat (rewrite (truthy_nonempty H); cbn [negb]). reflexivity.
  - intros v. rewrite !get_str_set_other by discriminate. reflexivity.
Qed.

(** ** The encoding reader *)

Section ReaderFacts.
Import Convert.
Variable read_bytes : pystr -> nat -> result (list N).
Variable decode : encoding -> errors -> list N -> option pystr.

(** With [errors='ignore'] a codec drops what it cannot decode and so
    always returns a text. *)
Hypothesis decode_ignore : forall enc bs, decode enc Ignore bs <> None.

Lemma try_encodings_first file_path :
  forall encs k i bs,
  i < length encs ->
  (forall j, j < i -> raises (read_bytes file_path (k + j))) ->
  read_bytes file_path (k + i) = Ok bs ->
  exists content,
    decode (nth i encs cp936) Ignore bs = Some content /\
    try_encodings read_bytes decode file_path encs k = Ok content.
Proof.
  induction encs as [|enc encs IH]; intros k i bs Hi Hbefore Hok;
    [cbn in Hi; lia|].
  cbn [try_encodings]. destruct i as [|i].
  - rewrite Nat.add_0_r in Hok. rewrite Hok. cbn [nth].
    destruct (decode enc Ignore bs) as [content|] eqn:E.
    + eauto.
    + now apply decode_ignore in E.
  - destruct (Hbefore 0) as [e He]; [lia|]. rewrite Nat.add_0_r in He.
    rewrite He. cbn [nth]. apply IH.
    + cbn in Hi. lia.
    + intros j Hj. replace (S k + j) with (k + S j) by lia. apply Hbefore. lia.
    + now replace (S k + i) with (k + S i) by lia.
Qed.

Lemma try_encodings_raise file_path :
  forall encs k e,
  try_encodings read_bytes decode file_path encs k = Raise e ->
  e = ValueError /\
  forall j, j < length encs -> raises (read_bytes file_path (k + j)).
Proof.
  induction encs as [|enc encs IH]; intros k e H; cbn [try_encodings] in H.
  - split; [congruence | cbn; intros; lia].
  - destruct (read_bytes file_path k) as [bs|e0] eqn:Er.
    + destruct (decode enc Ignore bs) eqn:E; [discriminate|].
      now apply decode_ignore in E.
    + apply IH in H as [He Hall]. split; [exact He|].
      intros [|j] Hj.
      * rewrite Nat.add_0_r, Er. now exists e0.
      * replace (k + S j) with (S k + j) by lia. apply Hall. cbn in Hj. lia.
Qed.

Lemma try_encodings_all_fail file_path :
  forall encs k,
  (forall j, j < length encs -> raises (read_bytes file_path (k + j))) ->
  try_encodings read_bytes decode file_path encs k = Raise ValueError.
Proof.
  induction encs as [|enc encs IH]; intros k H; cbn [try_encodings];
    [reflexivity|].
  destruct (H 0) as [e He]; [cbn; lia|]. rewrite Nat.add_0_r in He. rewrite He.
  apply IH. intros j Hj. replace (S k + j) with (k + S j) by lia.
  apply H. cbn. lia.
Qed.

(** C8 (encoding reader): [read_html_file] returns the content decoded with
    the first candidate, in the order cp936, gb2312, gbk, utf-8,
    iso-8859-1, whose open-and-read succeeds; it raises its [ValueError]
    exactly when every attempt raises.  Since undecodable bytes are dropped,
    decoding never makes an attempt fail. *)
Theorem encoding_reader (file_path : pystr) :
  (forall i bs,
     i < length encodings_to_try ->
     (forall j, j < i -> raises (read_bytes file_path j)) ->
     read_bytes file_path i = Ok bs ->
     exists content,
       decode (nth i encodings_to_try cp936) Ignore bs = Some content /\
       read_html_file read_bytes decode file_path = Ok content) /\
  ((forall j, j < length encodings_to_try -> raises (read_bytes file_path j))
   <-> exists e, read_html_file read_bytes decode file_path = Raise e) /\
  (forall e, read_html_file read_bytes decode file_path = Raise e ->
             e = ValueError).
Proof.
  unfold read_html_file. split; [|split].
  - intros i bs Hi Hbefore Hok.
    now apply (@try_encodings_first file_path encodings_to_try 0).
  - split.
    + intros H. exists ValueError.
      now apply (@try_encodings_all_fail file_path encodings_to_try 0).
    + intros [e He]. now apply try_encodings_raise in He as [_ He].
  - intros e He. now apply try_encodings_raise in He as [He _].
Qed.

End ReaderFacts.

(** ** The document tree *)

Section TreeFacts.
Import Convert.

Lemma node_induction (P : node -> Prop) :
  (forall s, P (Text s)) ->
  (forall name attrs children,
     Forall P children -> P (Elem name attrs children)) ->
  forall n, P n.
Proof.
  intros HT HE. fix IH 1. intros [s|name attrs children].
  - apply HT.
  - apply HE. induction children as [|c cs IHcs]; constructor.
    + apply IH.
    + exact IHcs.
Qed.

Lemma prune_elem p name attrs children :
  prune p (Elem name attrs children) = Elem name attrs (prune_list p children).
Proof.
  cbn [prune]. f_equal. unfold prune_list.
  induction children as [|c cs IH]; [reflexivity|].
  cbn [flat_map]. destruct (p c); cbn [app]; now rewrite IH.
Qed.

Lemma prune_list_cons p c cs :
  prune_list p (c :: cs) =
  if p c then prune_list p cs else prune p c :: prune_list p cs.
Proof. unfold prune_list. cbn [flat_map]. now destruct (p c). Qed.

(** Pruning a tree that has nothing to prune changes nothing. *)
Lemma prune_free p : forall n, free_of p n = true -> prune p n = n.
Proof.
  induction n as [s|name attrs children IH] using node_induction; intros H.
  - reflexivity.
  - rewrite prune_elem. f_equal. cbn [free_of] in H.
    induction children as [|c cs IHcs]; [reflexivity|].
    inversion IH as [|? ? Hc Hcs]; subst.
    cbn [forallb] in H. apply andb_true_iff in H as [Hgc Hgcs].
    apply andb_true_iff in Hgc as [Hpc Hfc]. apply negb_true_iff in Hpc.
    rewrite prune_list_cons, Hpc, (Hc Hfc), (IHcs Hcs Hgcs). reflexivity.
Qed.

Lemma prune_list_gone p cs :
  forallb (gone p) cs = true -> prune_list p cs = cs.
Proof.
  intros H. assert (E : prune p (Elem [] [] cs) = Elem [] [] cs)
    by (apply prune_free; exact H).
  rewrite prune_elem in E. now injection E.
Qed.

Section Stability.
(** [inv] describes the trees at hand; it passes to the nodes below.
    On these trees, pruning by [q] does not change what [p] answers. *)
Variable inv : node -> bool.
Variables p q : node -> bool.
Hypothesis inv_below :
  forall name attrs children,
  inv (Elem name attrs children) = true -> forallb inv children = true.
Hypothesis stable : forall c, inv c = true -> p (prune q c) = p c.

Lemma free_of_prune :
  forall n, inv n = true -> free_of p n = true ->
  free_of p (prune q n) = true.
Proof.
  induction n as [s|name attrs children IH] using node_induction;
    intros Hinv H; [reflexivity|].
  rewrite prune_elem. cbn [free_of] in *.
  apply inv_below in Hinv.
  induction children as [|c cs IHcs]; [reflexivity|].
  inversion IH as [|? ? Hc Hcs]; subst.
  cbn [forallb] in H, Hinv.
  apply andb_true_iff in H as [Hgc Hgcs].
  apply andb_true_iff in Hgc as [Hpc Hfc].
  apply andb_true_iff in Hinv as [Hic Hics].
  rewrite prune_list_cons. destruct (q c); [now apply IHcs|].
  cbn [forallb]. rewrite (@stable c Hic), Hpc, (Hc Hic Hfc). cbn [andb].
  now apply IHcs.
Qed.
End Stability.

Section SelfStability.
Variable inv : node -> bool.
Variable p : node -> bool.
Hypothesis inv_below :
  forall name attrs children,
  inv (Elem name attrs children) = true -> forallb inv children = true.
Hypothesis stable : forall c, inv c = true -> p (prune p c) = p c.

(** Pruning by [p] leaves nothing that meets [p]. *)
Lemma prune_makes_free :
  forall n, inv n = true -> free_of p (prune p n) = true.
Proof.
  induction n as [s|name attrs children IH] using node_induction;
    intros Hinv; [reflexivity|].
  rewrite prune_elem. cbn [free_of].
  apply inv_below in Hinv.
  induction children as [|c cs IHcs]; [reflexivity|].
  inversion IH as [|? ? Hc Hcs]; subst.
  cbn [forallb] in Hinv. apply andb_true_iff in Hinv as [Hic Hics].
  rewrite prune_list_cons. destruct (p c) eqn:Hpc; [now apply IHcs|].
  cbn [forallb]. rewrite (@stable c Hic), Hpc, (Hc Hic). cbn [andb].
  now apply IHcs.
Qed.
End SelfStability.

Lemma str_eqb_refl (s : pystr) : str_eqb s s = true.
Proof. induction s as [|c s IH]; cbn; [reflexivity|]. now rewrite N.eqb_refl. Qed.

Lemma list_eqb_refl (l : list pystr) : list_eqb l l = true.
Proof.
  induction l as [|x l IH]; cbn; [reflexivity|]. now rewrite str_eqb_refl.
Qed.

Lemma filter_twice (A : Type) (f : A -> bool) (l : list A) :
  filter f (filter f l) = filter f l.
Proof.
  induction l as [|x l IH]; cbn; [reflexivity|].
  destruct (f x) eqn:E; cbn; [rewrite E; now f_equal | exact IH].
Qed.

Lemma always_below (name : pystr) (attrs : list (pystr * attr_value))
      (children : list node) :
  (fun _ : node => true) (Elem name attrs children) = true ->
  forallb (fun _ : node => true) children = true.
Proof. intros _. now induction children. Qed.

Lemma raw_styles_below name attrs children :
  raw_styles (Elem name attrs children) = true ->
  forallb raw_styles children = true.
Proof. cbn [raw_styles]. intros H. now apply andb_true_iff in H as [_ H]. Qed.

Lemma is_text_prune q c : is_text (prune q c) = is_text c.
Proof. destruct c; [reflexivity | now rewrite prune_elem]. Qed.

(** Texts stay when the test answers only for tags. *)
Lemma prune_list_texts q cs :
  (forall s, q (Text s) = false) ->
  forallb is_text cs = true -> prune_list q cs = cs.
Proof.
  intros Hq. induction cs as [|c cs IH]; intros H; [reflexivity|].
  cbn [forallb] in H. apply andb_true_iff in H as [Hc Hcs].
  destruct c as [s|]; [|discriminate].
  rewrite prune_list_cons, Hq, IH by assumption. reflexivity.
Qed.

Lemma forallb_is_text_prune q cs :
  forallb is_text cs = true -> forallb is_text (prune_list q cs) = true.
Proof.
  induction cs as [|c cs IH]; intros H; [reflexivity|].
  cbn [forallb] in H. apply andb_true_iff in H as [Hc Hcs].
  rewrite prune_list_cons. destruct (q c); [now apply IH|].
  cbn [forallb]. now rewrite is_text_prune, Hc, IH.
Qed.

(** Pruning keeps the content of [style] elements raw. *)
Lemma raw_styles_prune q :
  forall n, raw_styles n = true -> raw_styles (prune q n) = true.
Proof.
  induction n as [s|name attrs children IH] using node_induction;
    intros H; [reflexivity|].
  rewrite prune_elem. cbn [raw_styles] in *.
  apply andb_true_iff in H as [Hs Hc]. apply andb_true_iff. split.
  - destruct (str_eqb name style_name); [|reflexivity].
    now apply forallb_is_text_prune.
  - clear Hs. induction children as [|c cs IHcs]; [reflexivity|].
    inversion IH as [|? ? H1 H2]; subst.
    cbn [forallb] in Hc. apply andb_true_iff in Hc as [Hc Hcs].
    rewrite prune_list_cons. destruct (q c); [now apply IHcs|].
    cbn [forallb]. now rewrite (H1 Hc), IHcs.
Qed.

Section CleaningFacts.
Context {U : Unicode}.
Variable hidden_text : pystr -> bool.

Lemma clean_attr_fixed a a' :
  clean_attr a = Some a' -> clean_attr a' = Some a'.
Proof.
  unfold clean_attr. destruct a as [k [v|cs]]; cbn [fst snd].
  - destruct (mentions value_markers v) eqn:E; [discriminate|].
    intros H. injection H as <-. cbn [snd]. now rewrite E.
  - set (ok := fun cls => negb (mentions class_markers cls)).
    destruct (list_eqb (filter ok cs) cs) eqn:E; cbn [negb].
    + intros H. injection H as <-. cbn [snd]. fold ok. now rewrite E.
    + destruct (filter ok cs) as [|x new] eqn:Ef; [discriminate|].
      intros H. injection H as <-. cbn [snd fst]. fold ok.
      rewrite <- Ef, filter_twice, list_eqb_refl. reflexivity.
Qed.

Lemma clean_attrs_twice attrs : clean_attrs (clean_attrs attrs) = clean_attrs attrs.
Proof.
  induction attrs as [|a r IH]; [reflexivity|]. cbn [clean_attrs].
  destruct (clean_attr a) as [a'|] eqn:E; [|exact IH].
  cbn [clean_attrs]. now rewrite (clean_attr_fixed _ E), IH.
Qed.

Lemma clean_element_twice :
  forall n, clean_element (clean_element n) = clean_element n.
Proof.
  induction n as [s|name attrs children IH] using node_induction;
    [reflexivity|].
  cbn [clean_element]. rewrite clean_attrs_twice, map_map. f_equal.
  induction children as [|c cs IHcs]; [reflexivity|].
  inversion IH; subst. cbn [map]. f_equal; [assumption | now apply IHcs].
Qed.

Lemma clean_element_prune_list q :
  forall cs,
  Forall (fun c => clean_element c = c ->
                   clean_element (prune q c) = prune q c) cs ->
  map clean_element cs = cs ->
  map clean_element (prune_list q cs) = prune_list q cs.
Proof.
  induction cs as [|c cs IHcs]; intros IH H; [reflexivity|].
  inversion IH as [|? ? Hc Hcs]; subst.
  cbn [map] in H. injection H as Ec Ecs.
  rewrite prune_list_cons. destruct (q c); [now apply IHcs|].
  cbn [map]. now rewrite (Hc Ec), IHcs.
Qed.

(** Pruning a tree whose attributes are clean leaves them clean. *)
Lemma clean_element_prune q :
  forall n, clean_element n = n -> clean_element (prune q n) = prune q n.
Proof.
  induction n as [s|name attrs children IH] using node_induction;
    intros H; [reflexivity|].
  rewrite prune_elem. cbn [clean_element] in *. injection H as Ea Ec.
  rewrite Ea. f_equal. now apply clean_element_prune_list.
Qed.

Lemma clean_descendants_twice soup :
  clean_descendants (clean_descendants soup) = clean_descendants soup.
Proof.
  destruct soup as [s|name attrs children]; [reflexivity|].
  cbn [clean_descendants]. rewrite map_map. f_equal.
  apply map_ext. intros c. apply clean_element_twice.
Qed.

Lemma clean_descendants_prune q soup :
  clean_descendants soup = soup ->
  clean_descendants (prune q soup) = prune q soup.
Proof.
  destruct soup as [s|name attrs children]; [reflexivity|].
  rewrite prune_elem. cbn [clean_descendants]. intros H. injection H as Ec.
  f_equal. apply clean_element_prune_list; [|exact Ec].
  apply Forall_forall. intros c _. apply clean_element_prune.
Qed.

Lemma is_text_clean c : is_text (clean_element c) = is_text c.
Proof. now destruct c. Qed.

Lemma raw_styles_clean_element :
  forall n, raw_styles n = true -> raw_styles (clean_element n) = true.
Proof.
  induction n as [s|name attrs children IH] using node_induction;
    intros H; [reflexivity|].
  cbn [clean_element raw_styles] in *.
  apply andb_true_iff in H as [Hs Hc]. apply andb_true_iff. split.
  - destruct (str_eqb name style_name); [|reflexivity].
    clear IH Hc. induction children as [|c cs IHcs]; [reflexivity|].
    cbn [forallb map] in *. apply andb_true_iff in Hs as [H1 H2].
    now rewrite is_text_clean, H1, IHcs.
  - clear Hs. induction children as [|c cs IHcs]; [reflexivity|].
    inversion IH as [|? ? H1 H2]; subst.
    cbn [forallb] in Hc. apply andb_true_iff in Hc as [Hc Hcs].
    cbn [map forallb]. now rewrite (H1 Hc), IHcs.
Qed.

Lemma raw_styles_clean_descendants soup :
  raw_styles soup = true -> raw_styles (clean_descendants soup) = true.
Proof.
  destruct soup as [s|name attrs children]; [reflexivity|].
  intros H. change (clean_descendants (Elem name attrs children))
    with (Elem name attrs (map clean_element children)).
  pose proof (raw_styles_clean_element _ H) as H'.
  cbn [clean_element raw_styles] in *. exact H'.
Qed.

(** What the three tests answer does not change under pruning. *)
Lemma vendor_tag_stable q c : is_vendor_tag (prune q c) = is_vendor_tag c.
Proof. destruct c; [reflexivity | now rewrite prune_elem]. Qed.

Lemma vendor_style_stable q c :
  (forall s, q (Text s) = false) ->
  raw_styles c = true ->
  is_vendor_style (prune q c) = is_vendor_style c.
Proof.
  intros Hq H. destruct c as [s|name attrs children]; [reflexivity|].
  rewrite prune_elem. cbn [raw_styles] in H.
  apply andb_true_iff in H as [Hs _].
  destruct (str_eqb name style_name) eqn:E.
  - now rewrite prune_list_texts.
  - unfold is_vendor_style, named. cbn [existsb]. rewrite E. reflexivity.
Qed.

Lemma get_text_prune :
  forall n hidden,
  get_text_strip hidden_text hidden (prune (is_empty_block hidden_text) n)
  = get_text_strip hidden_text hidden n.
Proof.
  induction n as [s|name attrs children IH] using node_induction;
    intros hidden; [reflexivity|].
  rewrite prune_elem. cbn [get_text_strip].
  induction children as [|c cs IHcs]; [reflexivity|].
  inversion IH as [|? ? Hc Hcs]; subst.
  rewrite prune_list_cons. cbn [flat_map].
  destruct (is_empty_block hidden_text c) eqn:E.
  - unfold is_empty_block in E. apply andb_true_iff in E as [Hn E].
    apply negb_true_iff in E. destruct c as [s|cname cattrs cc]; [discriminate|].
    cbn [get_text_strip] in *.
    destruct (flat_map _ cc); [|discriminate]. now apply IHcs.
  - cbn [flat_map]. now rewrite Hc, IHcs.
Qed.

Lemma empty_block_stable c :
  is_empty_block hidden_text (prune (is_empty_block hidden_text) c)
  = is_empty_block hidden_text c.
Proof.
  unfold is_empty_block. rewrite get_text_prune. f_equal.
  destruct c; [reflexivity | now rewrite prune_elem].
Qed.

(** C9 (idempotence of the cleaning pass): on a parsed document tree, in
    which the content of every [style] element is raw text, applying the
    cleaning pass ([clean_mso_attributes], then the removal of the empty
    paragraphs and divisions) to its own result changes nothing. *)
Theorem mso_strip_idempotent (body : node) (Hraw : raw_styles body = true) :
  mso_strip hidden_text (mso_strip hidden_text body)
  = mso_strip hidden_text body.
Proof.
  set (t1 := clean_descendants body).
  set (t2 := prune is_vendor_tag t1).
  set (t3 := prune is_vendor_style t2).
  set (t4 := prune (is_empty_block hidden_text) t3).
  assert (E : mso_strip hidden_text body = t4) by reflexivity.
  assert (R1 : raw_styles t1 = true) by now apply raw_styles_clean_descendants.
  assert (R2 : raw_styles t2 = true) by now apply raw_styles_prune.
  assert (R3 : raw_styles t3 = true) by now apply raw_styles_prune.
  assert (A4 : clean_descendants t4 = t4).
  { repeat apply clean_descendants_prune. apply clean_descendants_twice. }
  assert (B4 : free_of is_vendor_tag t4 = true).
  { do 2 (apply (@free_of_prune (fun _ => true));
            [apply always_below | intros; apply vendor_tag_stable
            | reflexivity |]).
    apply (@prune_makes_free (fun _ => true));
      [apply always_below | intros; apply vendor_tag_stable | reflexivity]. }
  assert (C4 : free_of is_vendor_style t4 = true).
  { apply (@free_of_prune raw_styles);
      [apply raw_styles_below
      | intros c Hc; now apply vendor_style_stable | exact R3 |].
    apply (@prune_makes_free raw_styles);
      [apply raw_styles_below
      | intros c Hc; now apply vendor_style_stable | exact R2]. }
  assert (D4 : free_of (is_empty_block hidden_text) t4 = true).
  { apply (@prune_makes_free (fun _ => true));
      [apply always_below | intros; apply empty_block_stable | reflexivity]. }
  rewrite E. unfold mso_strip, remove_empty_blocks, clean_mso_attributes.
  rewrite A4, (prune_free _ _ B4), (prune_free _ _ C4), (prune_free _ _ D4).
  reflexivity.
Qed.

Lemma named_stable names q c : named names (prune q c) = named names c.
Proof. destruct c; [reflexivity | now rewrite prune_elem]. Qed.

Lemma free_of_weaken (p q : node -> bool) :
  (forall c, p c = true -> q c = true) ->
  forall n, free_of q n = true -> free_of p n = true.
Proof.
  intros Hpq. induction n as [s|name attrs children IH] using node_induction;
    intros H; [reflexivity|].
  cbn [free_of] in *. induction children as [|c cs IHcs]; [reflexivity|].
  inversion IH as [|? ? Hc Hcs]; subst.
  cbn [forallb] in *. apply andb_true_iff in H as [Hg Hgs].
  apply andb_true_iff in Hg as [Hq Hf]. apply negb_true_iff in Hq.
  rewrite (Hc Hf), (IHcs Hcs Hgs).
  destruct (p c) eqn:Ep; [apply Hpq in Ep; congruence | reflexivity].
Qed.

(** X9 (cleaning twice): the pass as [clean_html_content] runs it, with
    every [script] and [style] tag taken out between the two steps, is
    idempotent on every tree. *)
Lemma clean_body_idempotent (body : node) :
  clean_body hidden_text (clean_body hidden_text body)
  = clean_body hidden_text body.
Proof.
  set (t1 := clean_descendants body).
  set (t2 := prune is_vendor_tag t1).
  set (t3 := prune is_vendor_style t2).
  set (t4 := prune (named [script_name; style_name]) t3).
  set (t5 := prune (is_empty_block hidden_text) t4).
  assert (E : clean_body hidden_text body = t5) by reflexivity.
  assert (A5 : clean_descendants t5 = t5).
  { repeat apply clean_descendants_prune. apply clean_descendants_twice. }
  assert (B5 : free_of is_vendor_tag t5 = true).
  { do 3 (apply (@free_of_prune (fun _ => true));
            [apply always_below | intros; apply vendor_tag_stable
            | reflexivity |]).
    apply (@prune_makes_free (fun _ => true));
      [apply always_below | intros; apply vendor_tag_stable | reflexivity]. }
  assert (S5 : free_of (named [script_name; style_name]) t5 = true).
  { apply (@free_of_prune (fun _ => true));
      [apply always_below | intros; apply named_stable | reflexivity |].
    apply (@prune_makes_free (fun _ => true));
      [apply always_below | intros; apply named_stable | reflexivity]. }
  assert (C5 : free_of is_vendor_style t5 = true).
  { apply (@free_of_weaken is_vendor_style (named [script_name; style_name]));
      [|exact S5].
    intros c Hc. unfold is_vendor_style in Hc.
    apply andb_true_iff in Hc as [Hc _]. destruct c as [s|name ? ?];
      [discriminate|].
    unfold named in *. cbn [existsb] in *.
    apply orb_true_iff in Hc as [Hc|Hc]; [|discriminate].
    rewrite Hc. now rewrite orb_true_r. }
  assert (D5 : free_of (is_empty_block hidden_text) t5 = true).
  { apply (@prune_makes_free (fun _ => true));
      [apply always_below | intros; apply empty_block_stable | reflexivity]. }
  rewrite E. unfold clean_body, remove_empty_blocks, clean_mso_attributes.
  rewrite A5, (prune_free _ _ B5), (prune_free _ _ C5), (prune_free _ _ S5),
    (prune_free _ _ D5).
  reflexivity.
Qed.

End CleaningFacts.
End TreeFacts.

(** ** The properties on concrete inputs *)

Section Concrete.
Import Extract Convert Samples.
#[local] Existing Instance ascii_tables.

(** C4 (the locator on a line that is not a heading): the title stands on a
    bold line; only the fourth pattern matches it, at the first line, and
    [find_section] then raises [AttributeError] when it reads the heading
    level of that line, instead of returning the lines from there on. *)
Theorem find_section_raises_on_plain_line :
  let lines := split_lines doc_bold_title in
  first_match (pat_exact target_section_title) lines 0 = None /\
  first_match (pat_contains target_section_title) lines 0 = None /\
  first_match pat_keywords lines 0 = None /\
  first_match (pat_anywhere target_section_title) lines 0 = Some 0 /\
  try_patterns (patterns target_section_title) lines = Some 0 /\
  find_section doc_bold_title target_section_title = Raise AttributeError.
Proof. vm_compute. repeat split; reflexivity. Qed.

(** C3 (exact heading match): the document holds the heading of the title,
    once indented by a space (line 0) and once at the margin (line 2).  The
    first pattern matches the stripped line 0, which is a heading of level
    1, and [find_section] raises [AttributeError] when it reads the heading
    level of the unstripped line, instead of returning the lines of the
    section.  Without the space in front, it returns the first two lines. *)
Theorem find_section_raises_on_indented_heading :
  let lines := split_lines doc_indented in
  first_match (pat_exact target_section_title) lines 0 = Some 0 /\
  strip (nth 0 lines []) = nth 2 lines [] /\
  some (re_match header_re (strip (nth 0 lines []))) = true /\
  level_of (strip (nth 0 lines [])) = Ok 1 /\
  find_section doc_indented target_section_title = Raise AttributeError /\
  find_section (lstrip doc_indented) target_section_title
  = Ok (Some (join_lines (slice 0 2 (split_lines (lstrip doc_indented))))).
Proof. vm_compute. repeat split; reflexivity. Qed.

(** C5, as stated, fails: the data source of the record is filled, and yet
    both derived fields are parsed from the raw row; neither is the data
    source. *)
Lemma second_pass_ignores_data_source :
  ~ (forall paper : dict,
       get_str "data_source" paper <> [] ->
       get_str "research_entry_point" (extract_research_details paper)
         = get_str "data_source" paper \/
       get_str "data_mining_methods" (extract_research_details paper)
         = get_str "data_source" paper).
Proof.
  intros H.
  destruct (H paper_with_source) as [E|E];
    [vm_compute; discriminate | vm_compute in E; discriminate ..].
Qed.

(** C7 (post-processing of the field values): the second column of the row
    holds a bold marker between two spaces.  The first pass collapses the
    white space before it deletes the marker, so the value it returns keeps
    the two spaces side by side: its white space is not collapsed.  The
    second pass ([tidy]) deletes the markers first and collapses then. *)
Theorem field_value_keeps_space_run :
  let v := get_str "core_problem" (extract_table_cells_from_line row_bold) in
  nth 1 (re_split split_re row_bold) [] = u "a ** b" /\
  v = u "a  b" /\
  collapse_ws v = u "a b" /\
  tidy (u "a ** b") = u "a b".
Proof. vm_compute. repeat split; reflexivity. Qed.

(** The condition of [mso_strip_idempotent] cannot be dropped: on a tree
    with a paragraph inside a [style] element, the first pass removes the
    paragraph, and only then does the second pass see the [style] element
    as a single text and remove it. *)
Remark mso_strip_needs_raw_styles :
  raw_styles odd_body = false /\
  mso_strip hides_raw_text (mso_strip hides_raw_text odd_body)
  <> mso_strip hides_raw_text odd_body.
Proof. split; [reflexivity | vm_compute; discriminate]. Qed.

(** C10, as stated, fails: what stands in a seventh column is not confined
    to the raw row of the record.  The methods column of the first row is
    empty, so the second pass of [main] reads the methods from the whole
    raw row and finds them in the seventh column; with another seventh
    column and the same first six parts the field is empty.  In the last
    row the pipes stand in the link text, and the title holds the text of
    the seventh part. *)
Theorem extra_column_read_back :
  let final content :=
    match run_pipeline content target_section_title with
    | Ok records => records
    | Raise _ => []
    end in
  let parts := re_split split_re MoreSamples.row_extra in
  length parts = 7 /\
  nth 6 parts [] = u "方法: abc" /\
  firstn 6 (re_split split_re MoreSamples.row_extra_plain) = firstn 6 parts /\
  get_str "data_mining_methods"
    (extract_table_cells_from_line MoreSamples.row_extra) = [] /\
  map raw_row (final MoreSamples.row_extra) = [MoreSamples.row_extra] /\
  map (get_str "data_mining_methods") (final MoreSamples.row_extra)
    = [u "abc"] /\
  map (get_str "data_mining_methods") (final MoreSamples.row_extra_plain)
    = [[]] /\
  nth 6 (re_split split_re MoreSamples.row_piped_title) [] = u "g](u)" /\
  map title_of (final MoreSamples.row_piped_title) = [u "a|b|c|d|e|f|g"].
Proof. vm_compute. repeat split; reflexivity. Qed.

(** *** The theorems applied to concrete inputs *)

Lemma zero_fabrication_witness :
  run_pipeline doc target_section_title = Ok doc_papers /\
  In doc_paper doc_papers /\
  substring (raw_row doc_paper) doc /\
  (exists line, In line (split_lines doc) /\ raw_row doc_paper = strip line).
Proof.
  assert (Hrun : run_pipeline doc target_section_title = Ok doc_papers)
    by (vm_compute; reflexivity).
  assert (Hin : In doc_paper doc_papers) by (vm_compute; left; reflexivity).
  destruct (@zero_fabrication ascii_tables doc target_section_title
              doc_papers doc_paper Hrun Hin)
    as (Hsub & Hline & _).
  repeat split; assumption.
Defined.

Lemma row_splitter_contract_witness :
  map raw_row (extract_papers_from_section section_text) = [row] /\
  map number_of (extract_papers_from_section section_text) = [Some (VInt 1)] /\
  Forall (fun p => link_shape (raw_row p) (title_of p) (url_of p))
         (extract_papers_from_section section_text).
Proof.
  destruct (@row_splitter_contract ascii_tables section_text) as (Hrows & Hnum & Hshape & _).
  cbv zeta in *. split; [|split].
  - rewrite Hrows. vm_compute. reflexivity.
  - rewrite Hnum. vm_compute. reflexivity.
  - exact Hshape.
Defined.


Lemma extra_columns_dropped_witness :
  6 < length (re_split split_re row7) /\
  6 <= length (re_split split_re row8) /\
  firstn 6 (re_split split_re row8) = firstn 6 (re_split split_re row7) /\
  extract_table_cells_from_line row8 = extract_table_cells_from_line row7 /\
  Forall (fun part => substring part row7) (re_split split_re row7).
Proof.
  assert (H7 : 6 < length (re_split split_re row7)) by (vm_compute; lia).
  assert (H8 : 6 <= length (re_split split_re row8)) by (vm_compute; lia).
  assert (Hsame : firstn 6 (re_split split_re row8)
                  = firstn 6 (re_split split_re row7))
    by (vm_compute; reflexivity).
  destruct (@extra_columns_dropped ascii_tables row7 row8 H7 H8 Hsame) as (E & Hsub & _).
  repeat split; assumption.
Defined.

Lemma field_extractor_total_witness :
  keys (extract_table_cells_from_line row_labels) = field_keys /\
  get_str "data_source" (extract_table_cells_from_line row_labels) = [] /\
  get_str "conclusion" (extract_table_cells_from_line row_labels) = [] /\
  get_str "summary" (extract_table_cells_from_line row_labels) = [].
Proof.
  destruct (@field_extractor_total problem_patterns
              method_patterns row_labels)
    as (Hkeys & _ & Hempty & _).
  cbv zeta in *. split; [exact Hkeys|].
  apply Hempty. vm_compute. lia.
Defined.

Lemma second_pass_preference_witness :
  get_str "core_problem" paper_filled <> [] /\
  get_str "data_mining_methods" paper_filled <> [] /\
  get_str "research_entry_point" (extract_research_details paper_filled)
    = get_str "core_problem" paper_filled /\
  get_str "data_mining_methods" (extract_research_details paper_filled)
    = get_str "data_mining_methods" paper_filled.
Proof.
  assert (H1 : get_str "core_problem" paper_filled <> [])
    by (vm_compute; discriminate).
  assert (H2 : get_str "data_mining_methods" paper_filled <> [])
    by (vm_compute; discriminate).
  destruct (@second_pass_preference entry_patterns
              detail_method_patterns tech_patterns paper_filled) as (He & Hm & _).
  cbv zeta in *. repeat split; auto.
Defined.

Lemma encoding_reader_witness :
  (forall enc bs, ascii_decode enc Ignore bs <> None) /\
  read_html_file flaky_read ascii_decode file_path = Ok [72; 105]%N.
Proof.
  assert (H : forall enc bs, ascii_decode enc Ignore bs <> None)
    by (intros enc bs; discriminate).
  split; [exact H|].
  destruct (@encoding_reader flaky_read ascii_decode H file_path) as (Hfirst & _).
  destruct (Hfirst 2 [72; 200; 105]%N) as (content & Hdec & Hread).
  - vm_compute. lia.
  - intros j Hj. exists OSError. unfold flaky_read.
    destruct j as [|[|j]]; [reflexivity | reflexivity | lia].
  - reflexivity.
  - rewrite Hread. vm_compute in Hdec. injection Hdec as <-. reflexivity.
Defined.

Lemma mso_strip_idempotent_witness :
  raw_styles body = true /\
  mso_strip hides_raw_text (mso_strip hides_raw_text body)
  = mso_strip hides_raw_text body.
Proof.
  assert (H : raw_styles body = true) by (vm_compute; reflexivity).
  split; [exact H | exact (@mso_strip_idempotent ascii_tables hides_raw_text body H)].
Defined.

End Concrete.

(** ** More on the section locator *)

Lemma startswith_prefix (p s : pystr) :
  startswith p s = true <-> exists r, s = p ++ r.
Proof.
  revert s. induction p as [|x p IH]; intros s; cbn.
  - split; [intros _; now exists s | reflexivity].
  - destruct s as [|y s].
    + split; [discriminate | intros [r E]; discriminate].
    + rewrite andb_true_iff, N.eqb_eq, IH. split.
      * intros [-> [r ->]]. now exists r.
      * intros [r E]. injection E as -> ->. split; [reflexivity | now exists r].
Qed.

(** [p in s] holds exactly when [p] is a contiguous piece of [s]. *)
Lemma contains_substring (p s : pystr) :
  contains p s = true <-> substring p s.
Proof.
  induction s as [|c s IH].
  - cbn. rewrite orb_false_r, startswith_prefix. split.
    + intros [r E]. exists [], r. exact E.
    + intros (a & b & E). symmetry in E. apply app_eq_nil in E as [-> E].
      apply app_eq_nil in E as [-> ->]. now exists [].
  - cbn [contains]. rewrite orb_true_iff, startswith_prefix, IH. split.
    + intros [[r E]|(a & b & E)].
      * exists [], r. exact E.
      * exists (c :: a), b. cbn. now rewrite E.
    + intros (a & b & E). destruct a as [|x a].
      * left. now exists b.
      * right. injection E as -> E. now exists a, b.
Qed.

Lemma first_match_find_index pat :
  forall lines k,
  first_match pat lines k =
  find_index (fun line => some (re_match pat (strip line))) lines k.
Proof.
  induction lines as [|l ls IH]; intros k; [reflexivity|].
  cbn. destruct (some _); [reflexivity | apply IH].
Qed.

Lemma first_match_some pat lines i :
  first_match pat lines 0 = Some i ->
  i < length lines /\
  some (re_match pat (strip (nth i lines []))) = true /\
  forall j, j < i -> some (re_match pat (strip (nth j lines []))) = false.
Proof.
  rewrite first_match_find_index. intros H.
  apply (find_index_some _ []) in H as (Hb & He & Hlt).
  rewrite Nat.sub_0_r in He, Hlt.
  split; [exact (proj2 Hb)|]. split; [exact He | exact Hlt].
Qed.

Lemma first_match_none pat lines j :
  first_match pat lines 0 = None -> j < length lines ->
  some (re_match pat (strip (nth j lines []))) = false.
Proof.
  rewrite first_match_find_index. intros H Hj.
  exact (@find_index_none _ _ [] _ _ j H Hj).
Qed.

Section LocatorMore.
Context {U : Unicode}.

(** X1 (error behaviour of the section locator): [find_section] raises
    exactly when the patterns select a line that does not start with [#];
    the exception is then the [AttributeError] of reading the level of the
    line.  The pipeline raises exactly when [find_section] does. *)
Theorem find_section_errors (content title : pystr) (e : exn) :
  (find_section content title = Raise e <->
   e = AttributeError /\
   exists i,
     try_patterns (patterns title) (split_lines content) = Some i /\
     startswith [hash] (nth i (split_lines content) []) = false) /\
  (run_pipeline content title = Raise e <->
   find_section content title = Raise e).
Proof.
  split.
  - unfold find_section.
    destruct (try_patterns _ _) as [i|] eqn:Et.
    + rewrite level_of_spec.
      destruct (startswith [hash] _) eqn:Eh; cbn [bind].
      * rewrite find_end_spec. cbn [bind]. split; [discriminate|].
        intros (_ & j & Hj & Hs). injection Hj as <-. congruence.
      * split.
        -- intros H. injection H as <-. split; [reflexivity|]. now exists i.
        -- intros [-> _]. reflexivity.
    + split; [discriminate|]. intros (_ & j & Hj & _). discriminate.
  - unfold run_pipeline. destruct (find_section content title); cbn [bind];
      [split; discriminate | split; intros H; now injection H as ->].
Qed.

(** X2 (priority of the patterns): the selected line is the first line
    that the first successful pattern matches.  In particular, when some
    line matches the exact pattern, the first such line is selected, even
    if an earlier line matches one of the looser patterns. *)
Theorem pattern_priority (title : pystr) (lines : list pystr) :
  (forall i, first_match (pat_exact title) lines 0 = Some i ->
     try_patterns (patterns title) lines = Some i /\
     some (re_match (pat_exact title) (strip (nth i lines []))) = true /\
     forall j, j < i ->
       some (re_match (pat_exact title) (strip (nth j lines []))) = false) /\
  (forall i, try_patterns (patterns title) lines = Some i ->
     exists n pat,
       nth_error (patterns title) n = Some pat /\
       first_match pat lines 0 = Some i /\
       forall m pat', m < n -> nth_error (patterns title) m = Some pat' ->
         first_match pat' lines 0 = None) /\
  (try_patterns (patterns title) lines = None ->
   forall pat j, In pat (patterns title) -> j < length lines ->
     some (re_match pat (strip (nth j lines []))) = false).
Proof.
  assert (Hgen : forall pats,
    (forall i, try_patterns pats lines = Some i ->
       exists n pat,
         nth_error pats n = Some pat /\
         first_match pat lines 0 = Some i /\
         forall m pat', m < n -> nth_error pats m = Some pat' ->
           first_match pat' lines 0 = None) /\
    (try_patterns pats lines = None ->
     forall pat, In pat pats -> first_match pat lines 0 = None)).
  { induction pats as [|pat ps [IH1 IH2]]; cbn [try_patterns].
    - split; [discriminate | intros _ pat []].
    - destruct (first_match pat lines 0) as [k|] eqn:E.
      + split; [|discriminate]. intros i H. injection H as <-.
        exists 0, pat. split; [reflexivity|]. split; [exact E|].
        intros m pat' Hm. lia.
      + split.
        * intros i H. destruct (IH1 i H) as (n & pat0 & Hn & Hf & Hbefore).
          exists (S n), pat0. split; [exact Hn|]. split; [exact Hf|].
          intros [|m] pat' Hm Hp; cbn in Hp.
          -- now injection Hp as <-.
          -- apply (Hbefore m); [lia | exact Hp].
        * intros H pat0 [<-|Hin]; [exact E | now apply IH2]. }
  split; [|split].
  - intros i H. split; [|now apply first_match_some].
    unfold patterns. cbn [try_patterns]. now rewrite H.
  - apply Hgen.
  - intros H pat j Hin Hj. apply first_match_none; [|exact Hj].
    now apply (proj2 (Hgen (patterns title))).
Qed.

Lemma quiet_block (block : list pystr) :
  relevant block = false ->
  Forall (fun line => line_has_keyword line = false) block.
Proof.
  intros H. apply Forall_forall. intros line Hin.
  destruct block as [|b block]; [contradiction|]. cbn [relevant] in H.
  unfold has_keyword in H. unfold line_has_keyword.
  destruct (existsb (fun kw => contains kw line) complex_keywords) eqn:E;
    [|reflexivity].
  apply existsb_exists in E as (kw & Hkw & Hc).
  assert (Hex : existsb (fun kw => contains kw (join_lines (b :: block)))
                        complex_keywords = true).
  { apply existsb_exists. exists kw. split; [exact Hkw|].
    apply contains_substring. apply contains_substring in Hc.
    eapply substring_trans; [exact Hc | now apply line_substring]. }
  congruence.
Qed.

Lemma scan_blocks_keywords :
  forall ls i st,
  Forall (fun e => line_has_keyword (snd e) = true) (potential_sections st) ->
  Forall (fun e => line_has_keyword (snd e) = true)
         (potential_sections (scan_blocks ls i st)).
Proof.
  induction ls as [|line ls IH]; intros i st H; [exact H|].
  cbn [scan_blocks]. apply IH.
  destruct (some _); cbn [potential_sections]; [|exact H].
  destruct (relevant (current_section st)) eqn:E; [|exact H].
  apply Forall_app. split; [exact H|]. constructor; [|constructor].
  cbn [snd]. unfold relevant in E.
  destruct (current_section st); [discriminate | exact E].
Qed.

Lemma scan_blocks_quiet :
  forall ls done i st,
  (exists before,
     done = before ++ current_section st /\
     (potential_sections st = [] ->
      Forall (fun line => line_has_keyword line = false) before)) ->
  exists before,
    done ++ ls = before ++ current_section (scan_blocks ls i st) /\
    (potential_sections (scan_blocks ls i st) = [] ->
     Forall (fun line => line_has_keyword line = false) before).
Proof.
  induction ls as [|line ls IH]; intros done i st (before & Hdone & Hq).
  - cbn. rewrite app_nil_r. eauto.
  - cbn [scan_blocks].
    replace (done ++ line :: ls) with ((done ++ [line]) ++ ls)
      by (now rewrite <- app_assoc).
    apply IH. destruct (some _); cbn [current_section potential_sections].
    + exists done. split; [reflexivity|].
      destruct (relevant (current_section st)) eqn:E.
      * intros H. now apply app_eq_nil in H as [_ H].
      * intros H. rewrite Hdone. apply Forall_app.
        split; [now apply Hq | now apply quiet_block].
    + exists before. split; [|exact Hq].
      rewrite Hdone, <- app_assoc. reflexivity.
Qed.

(** X4 (keyword fall-back of the section locator): when no pattern selects
    a line, [find_section] does not raise.  What it returns is a run of
    consecutive lines of the document that holds one of the domain
    keywords; it returns [None] only for a document none of whose lines
    holds a keyword. *)
Theorem keyword_fallback_result (content title : pystr)
  (Hnone : try_patterns (patterns title) (split_lines content) = None) :
  exists r,
    find_section content title = Ok r /\
    match r with
    | Some text =>
        run_of_lines text (split_lines content) /\
        line_has_keyword text = true
    | None =>
        forall line, In line (split_lines content) ->
                     line_has_keyword line = false
    end.
Proof.
  unfold find_section. rewrite Hnone.
  set (lines := split_lines content).
  exists (keyword_fallback lines). split; [reflexivity|].
  destruct (keyword_fallback lines) as [text|] eqn:E.
  - split; [now apply keyword_fallback_run|].
    unfold keyword_fallback in E.
    pose proof (@scan_blocks_keywords lines 0 (Blocks [] [] None)
                  (Forall_nil _)) as Hpot.
    set (st := scan_blocks lines 0 (Blocks [] [] None)) in *.
    destruct (relevant (current_section st)) eqn:Er.
    + destruct (potential_sections st) as [|[[h a] t] rest] eqn:Ep.
      * cbn in E. injection E as <-. unfold relevant in Er.
        destruct (current_section st); [discriminate | exact Er].
      * cbn in E. injection E as <-. now inversion Hpot.
    + destruct (potential_sections st) as [|[[h a] t] rest] eqn:Ep;
        [discriminate|].
      injection E as <-. now inversion Hpot.
  - unfold keyword_fallback in E.
    destruct (@scan_blocks_quiet lines [] 0 (Blocks [] [] None))
      as (before & Hall & Hq).
    { exists []. split; [reflexivity | constructor]. }
    cbn [app] in Hall.
    set (st := scan_blocks lines 0 (Blocks [] [] None)) in *.
    destruct (relevant (current_section st)) eqn:Er.
    + destruct (potential_sections st) as [|[[h a] t] rest]; discriminate.
    + destruct (potential_sections st) as [|[[h a] t] rest] eqn:Ep;
        [|discriminate].
      intros line Hin. rewrite Hall in Hin.
      apply in_app_or in Hin as [Hin|Hin].
      * specialize (Hq eq_refl). rewrite Forall_forall in Hq. now apply Hq.
      * pose proof (quiet_block _ Er) as Hc. rewrite Forall_forall in Hc.
        now apply Hc.
Qed.

End LocatorMore.

(** ** More on the cleaning of the document tree *)

Section CleaningMore.
Import Convert.
Context {U : Unicode}.
Variable hidden_text : pystr -> bool.

Lemma filter_all (A : Type) (f : A -> bool) (l : list A) :
  forallb f l = true -> filter f l = l.
Proof.
  induction l as [|x l IH]; cbn; [reflexivity|].
  intros H. apply andb_true_iff in H as [Hx Hl]. now rewrite Hx, IH.
Qed.

Lemma forallb_filter (A : Type) (f : A -> bool) (l : list A) :
  forallb f (filter f l) = true.
Proof.
  induction l as [|x l IH]; cbn; [reflexivity|].
  destruct (f x) eqn:E; cbn; [now rewrite E | exact IH].
Qed.

Lemma clean_attr_ok a a' : clean_attr a = Some a' -> attr_ok a' = true.
Proof.
  unfold clean_attr, attr_ok. destruct a as [k [v|cs]]; cbn [fst snd].
  - destruct (mentions value_markers v) eqn:E; [discriminate|].
    intros H. injection H as <-. cbn [snd]. now rewrite E.
  - set (ok := fun cls => negb (mentions class_markers cls)).
    destruct (list_eqb (filter ok cs) cs) eqn:E; cbn [negb].
    + intros H. injection H as <-. cbn [snd].
      destruct (forallb ok cs) eqn:Ef; [reflexivity|].
      assert (Hne : filter ok cs <> cs).
      { intros Heq. rewrite <- Heq, forallb_filter in Ef. discriminate. }
      exfalso. apply Hne. clear Ef Hne. revert E.
      generalize (filter ok cs). intros l. revert cs.
      induction l as [|x l IH]; intros [|y cs] H; try discriminate;
        [reflexivity|].
      cbn in H. apply andb_true_iff in H as [Hx Hl].
      f_equal; [|now apply IH].
      clear - Hx. revert y Hx. induction x as [|c x IHx]; intros [|d y] H;
        try discriminate; [reflexivity|].
      cbn in H. apply andb_true_iff in H as [Hc Hr]. apply N.eqb_eq in Hc.
      subst. f_equal. now apply IHx.
    + destruct (filter ok cs) as [|x new] eqn:Ef; [discriminate|].
      intros H. injection H as <-. cbn [snd]. rewrite <- Ef.
      apply forallb_filter.
Qed.

Lemma attr_ok_kept a : attr_ok a = true -> clean_attr a = Some a.
Proof.
  unfold clean_attr, attr_ok. destruct a as [k [v|cs]]; cbn [fst snd].
  - intros H. apply negb_true_iff in H. now rewrite H.
  - intros H. rewrite (filter_all _ _ H), list_eqb_refl. reflexivity.
Qed.

Lemma clean_attrs_ok attrs : forallb attr_ok (clean_attrs attrs) = true.
Proof.
  induction attrs as [|a r IH]; [reflexivity|]. cbn [clean_attrs].
  destruct (clean_attr a) as [a'|] eqn:E; [|exact IH].
  cbn [forallb]. now rewrite (clean_attr_ok _ E), IH.
Qed.

Lemma clean_attrs_kept attrs :
  forallb attr_ok attrs = true -> clean_attrs attrs = attrs.
Proof.
  induction attrs as [|a r IH]; [reflexivity|]. cbn [forallb clean_attrs].
  intros H. apply andb_true_iff in H as [Ha Hr].
  now rewrite (attr_ok_kept _ Ha), IH.
Qed.

Lemma tags_clean_element : forall n, tags_clean (clean_element n) = true.
Proof.
  induction n as [s|name attrs children IH] using node_induction;
    [reflexivity|].
  cbn [clean_element tags_clean]. rewrite clean_attrs_ok. cbn [andb].
  induction children as [|c cs IHcs]; [reflexivity|].
  inversion IH as [|? ? Hc Hcs]; subst. cbn [map forallb].
  now rewrite Hc, IHcs.
Qed.

Lemma tags_clean_fixed : forall n, tags_clean n = true -> clean_element n = n.
Proof.
  induction n as [s|name attrs children IH] using node_induction;
    intros H; [reflexivity|].
  cbn [clean_element tags_clean] in *. apply andb_true_iff in H as [Ha Hc].
  rewrite (clean_attrs_kept _ Ha). f_equal.
  induction children as [|c cs IHcs]; [reflexivity|].
  inversion IH as [|? ? H1 H2]; subst.
  cbn [forallb] in Hc. apply andb_true_iff in Hc as [Hc Hcs].
  cbn [map]. now rewrite (H1 Hc), IHcs.
Qed.

Lemma tags_clean_prune_list q cs :
  Forall (fun c => tags_clean c = true -> tags_clean (prune q c) = true) cs ->
  forallb tags_clean cs = true ->
  forallb tags_clean (prune_list q cs) = true.
Proof.
  induction cs as [|c cs IHcs]; intros IH H; [reflexivity|].
  inversion IH as [|? ? H1 H2]; subst.
  cbn [forallb] in H. apply andb_true_iff in H as [Hc Hcs].
  rewrite prune_list_cons. destruct (q c); [now apply IHcs|].
  cbn [forallb]. now rewrite (H1 Hc), IHcs.
Qed.

Lemma tags_clean_prune q :
  forall n, tags_clean n = true -> tags_clean (prune q n) = true.
Proof.
  induction n as [s|name attrs children IH] using node_induction;
    intros H; [reflexivity|].
  rewrite prune_elem. cbn [tags_clean] in *.
  apply andb_true_iff in H as [Ha Hc]. rewrite Ha. cbn [andb].
  now apply tags_clean_prune_list.
Qed.

Lemma below_clean_prune q root :
  below_clean root = true -> below_clean (prune q root) = true.
Proof.
  destruct root as [s|name attrs children]; [reflexivity|].
  rewrite prune_elem. cbn [below_clean]. apply tags_clean_prune_list.
  apply Forall_forall. intros c _. apply tags_clean_prune.
Qed.

Lemma below_clean_descendants soup :
  below_clean (clean_descendants soup) = true.
Proof.
  destruct soup as [s|name attrs children]; [reflexivity|].
  cbn [clean_descendants below_clean].
  induction children as [|c cs IH]; [reflexivity|].
  cbn [map forallb]. now rewrite tags_clean_element, IH.
Qed.

Lemma root_of_prune q n : root_of (prune q n) = root_of n.
Proof. destruct n; [reflexivity | now rewrite prune_elem]. Qed.

Lemma root_of_descendants n : root_of (clean_descendants n) = root_of n.
Proof. now destruct n. Qed.

(** X5 (what [clean_mso_attributes] leaves): below the root no tag with a
    vendor-namespace name is left and no attribute that mentions a vendor
    marker; on a parsed tree no [style] element with vendor markers is
    left either.  The root keeps its name and its own attributes, marked
    or not: only the tags below it are cleaned. *)
Theorem clean_mso_attributes_result (soup : node) :
  free_of is_vendor_tag (clean_mso_attributes soup) = true /\
  below_clean (clean_mso_attributes soup) = true /\
  root_of (clean_mso_attributes soup) = root_of soup /\
  (raw_styles soup = true ->
   free_of is_vendor_style (clean_mso_attributes soup) = true).
Proof.
  unfold clean_mso_attributes. split; [|split; [|split]].
  - apply (@free_of_prune (fun _ => true));
      [apply always_below | intros; apply vendor_tag_stable | reflexivity |].
    apply (@prune_makes_free (fun _ => true));
      [apply always_below | intros; apply vendor_tag_stable | reflexivity].
  - do 2 apply below_clean_prune. apply below_clean_descendants.
  - now rewrite !root_of_prune, root_of_descendants.
  - intros Hraw.
    apply (@prune_makes_free raw_styles);
      [apply raw_styles_below | intros c Hc; now apply vendor_style_stable |].
    apply raw_styles_prune. now apply raw_styles_clean_descendants.
Qed.

(** X6 (the attribute pass changes only marked attributes): cleaning the
    attributes of a tag leaves the tag as it is exactly when no attribute
    of the tag or below it mentions a vendor marker; an attribute list
    without marked attributes is returned unchanged. *)
Theorem attribute_cleaning_fixpoints (n : node)
  (attrs : list (pystr * attr_value)) :
  (clean_element n = n <-> tags_clean n = true) /\
  (forallb attr_ok attrs = true -> clean_attrs attrs = attrs) /\
  forallb attr_ok (clean_attrs attrs) = true.
Proof.
  split; [|split].
  - split.
    + intros H. rewrite <- H. apply tags_clean_element.
    + apply tags_clean_fixed.
  - apply clean_attrs_kept.
  - apply clean_attrs_ok.
Qed.

(** X7 (removal of the empty blocks): after [remove_empty_blocks] no
    paragraph or division below the root has an empty text, and the text
    of the tree is the text it had before. *)
Theorem remove_empty_blocks_result (body : node) (hidden : bool) :
  free_of (is_empty_block hidden_text)
          (remove_empty_blocks hidden_text body) = true /\
  get_text_strip hidden_text hidden (remove_empty_blocks hidden_text body)
  = get_text_strip hidden_text hidden body.
Proof.
  unfold remove_empty_blocks. split.
  - apply (@prune_makes_free (fun _ => true));
      [apply always_below | intros; apply empty_block_stable | reflexivity].
  - apply get_text_prune.
Qed.

(** X8 (what [clean_html_content] leaves of the body): after the pass of
    lines 86-95 no tag below the root has a vendor-namespace name, none is a
    [script] or [style] element, none is an empty paragraph or division,
    and no attribute below the root mentions a vendor marker. *)
Theorem clean_body_result (body : node) :
  free_of is_vendor_tag (clean_body hidden_text body) = true /\
  free_of (named [script_name; style_name]) (clean_body hidden_text body)
  = true /\
  free_of (is_empty_block hidden_text) (clean_body hidden_text body) = true /\
  below_clean (clean_body hidden_text body) = true.
Proof.
  unfold clean_body, remove_empty_blocks, clean_mso_attributes.
  split; [|split; [|split]].
  - do 3 (apply (@free_of_prune (fun _ => true));
            [apply always_below | intros; apply vendor_tag_stable
            | reflexivity |]).
    apply (@prune_makes_free (fun _ => true));
      [apply always_below | intros; apply vendor_tag_stable | reflexivity].
  - apply (@free_of_prune (fun _ => true));
      [apply always_below | intros; apply named_stable | reflexivity |].
    apply (@prune_makes_free (fun _ => true));
      [apply always_below | intros; apply named_stable | reflexivity].
  - apply (@prune_makes_free (fun _ => true));
      [apply always_below | intros; apply empty_block_stable | reflexivity].
  - do 4 apply below_clean_prune. apply below_clean_descendants.
Qed.

End CleaningMore.

(** ** The delimiter split of a table row *)

Lemma span_none p (s : pystr) : snd (span p s) = [] -> fst (span p s) = s.
Proof.
  intros H. pose proof (span_app p s) as E. rewrite H, app_nil_r in E. exact E.
Qed.

Lemma bt_look a s k :
  bt (Look a) s k =
  match bt a s (fun s1 => Some s1) with
  | Some s1 => k (MState (seen s) (rest s) (caps s1))
  | None => None
  end.
Proof. reflexivity. Qed.

Lemma star_loop_O g a k s : star_loop g a k 0 s = k s.
Proof. reflexivity. Qed.

Lemma star_loop_S g a k n s :
  star_loop g a k (S n) s =
  let again :=
    bt a s (fun s1 =>
      if length (rest s1) <? length (rest s) then star_loop g a k n s1
      else None) in
  if g then orelse again (k s) else orelse (k s) again.
Proof. reflexivity. Qed.

(** The look-ahead of the delimiter pattern succeeds at every position: it
    only asks that what remains be pipe-terminated runs followed by a
    pipe-free run. *)
Lemma split_lookahead_always :
  forall n s, length (rest s) <= n ->
  exists e,
    star_loop true (Seq (star_of (no pipe)) (Chr (only pipe)))
      (fun s1 => bt (Seq (star_of (no pipe)) (Eol false)) s1
                    (fun s2 => Some s2)) n s = Some e.
Proof.
  induction n as [n IH] using lt_wf_ind. intros [sn rs cs] Hn.
  cbn [rest] in Hn.
  assert (Hend : snd (span (no pipe) rs) = [] ->
    exists e, bt (Seq (star_of (no pipe)) (Eol false)) (MState sn rs cs)
                 (fun s2 => Some s2) = Some e).
  { intros Hs. rewrite bt_seq. unfold star_of. rewrite bt_star_class.
    cbn [seen rest caps]. eexists. apply star_class_longest.
    rewrite Hs, bt_eol. reflexivity. }
  destruct n as [|n].
  - destruct rs; [|cbn in Hn; lia]. rewrite star_loop_O. now apply Hend.
  - rewrite star_loop_S. cbv zeta. rewrite bt_seq. unfold star_of at 1.
    rewrite bt_star_class, star_class_det.
    2:{ intros sn' c t cs' Hp. rewrite bt_chr. cbn [rest].
        unfold no in Hp. unfold only. now destruct (c =? pipe)%N. }
    cbn [seen rest caps]. rewrite bt_chr. cbn [rest].
    pose proof (span_app (no pipe) rs) as Happ.
    pose proof (span_stop (no pipe) rs) as Hstop.
    destruct (snd (span (no pipe) rs)) as [|c t] eqn:Es.
    + cbn [orelse]. now apply Hend.
    + assert (Hc : only pipe c = true)
        by (unfold only, no in *; now apply negb_false_iff in Hstop).
      rewrite Hc. unfold advance. cbn [rest seen caps].
      assert (Hlen : length t < length rs).
      { rewrite <- Happ, length_app. cbn. lia. }
      replace (length t <? length rs) with true
        by (symmetry; now apply Nat.ltb_lt).
      destruct (IH n (Nat.lt_succ_diag_r n)
                  (MState (c :: rev (fst (span (no pipe) rs)) ++ sn) t cs))
        as [e He]; [cbn [rest]; lia|].
      rewrite He. cbn [orelse]. eauto.
Qed.

Lemma bt_split_lookahead s :
  exists e, bt split_lookahead s (fun s1 => Some s1) = Some e.
Proof.
  unfold split_lookahead. cbn [Seqs]. rewrite bt_seq, bt_star.
  now apply split_lookahead_always.
Qed.

Lemma isspace_not_pipe c : isspace c = true -> (c =? pipe)%N = false.
Proof.
  intros H. destruct (N.eqb_spec c pipe) as [->|]; [discriminate | reflexivity].
Qed.

(** Where the delimiter pattern matches: at a run of white space that a
    pipe follows; the match takes the run, the pipe and the white space
    after it. *)
Lemma match_at_split sn rs :
  match snd (span isspace rs) with
  | c :: t =>
      if (c =? pipe)%N then
        exists m,
          match_at split_re (MState sn rs []) = Some m /\
          m_text m = fst (span isspace rs) ++ pipe :: fst (span isspace t) /\
          rest (m_end m) = snd (span isspace t) /\
          seen (m_end m) = rev (m_text m) ++ sn
      else match_at split_re (MState sn rs []) = None
  | [] => match_at split_re (MState sn rs []) = None
  end.
Proof.
  assert (Hbt :
    bt split_re (MState sn rs []) (fun s1 => Some s1) =
    match snd (span isspace rs) with
    | c :: t =>
        if (c =? pipe)%N then
          star_class isspace
            (fun s1 => bt (Look split_lookahead) s1 (fun s2 => Some s2))
            (c :: rev (fst (span isspace rs)) ++ sn) t []
        else None
    | [] => None
    end).
  { unfold split_re. cbn [Seqs]. fold split_lookahead.
    rewrite bt_seq. unfold ws, star_of at 1.
    rewrite bt_star_class, star_class_det.
    2:{ intros sn' c t cs' Hp. rewrite bt_seq, bt_chr. cbn [rest].
        unfold only. now rewrite (isspace_not_pipe _ Hp). }
    cbn [seen rest caps]. rewrite bt_seq, bt_chr. cbn [rest].
    destruct (snd (span isspace rs)) as [|c t]; [reflexivity|].
    unfold only at 1. destruct (c =? pipe)%N; [|reflexivity].
    unfold advance. cbn [seen rest caps].
    rewrite bt_seq. unfold star_of. now rewrite bt_star_class. }
  unfold match_at. cbn [seen rest]. rewrite Hbt. clear Hbt.
  pose proof (span_app isspace rs) as Happ.
  destruct (snd (span isspace rs)) as [|c t] eqn:Es; [reflexivity|].
  destruct (N.eqb_spec c pipe) as [->|]; [|reflexivity].
  set (e0 := MState (rev (fst (span isspace t))
                     ++ pipe :: rev (fst (span isspace rs)) ++ sn)
                    (snd (span isspace t)) []).
  destruct (bt_split_lookahead e0) as [e1 He1].
  erewrite star_class_longest; [|fold e0; rewrite bt_look, He1; reflexivity].
  eexists. split; [reflexivity|].
  unfold m_text. cbn [m_start m_end rest seen].
  assert (Ht : consumed (MState sn rs []) (MState (seen e0) (rest e0) (caps e1))
               = fst (span isspace rs) ++ pipe :: fst (span isspace t)).
  { apply forward_consumed. cbn [rest]. rewrite <- Happ at 1.
    rewrite <- app_assoc. cbn [app]. now rewrite span_app. }
  rewrite Ht. split; [reflexivity|]. split; [reflexivity|].
  rewrite rev_app_distr. cbn [rev]. rewrite <- !app_assoc. reflexivity.
Qed.

Lemma count_pipes_app (a b : pystr) :
  count_pipes (a ++ b) = count_pipes a + count_pipes b.
Proof. unfold count_pipes. now rewrite filter_app, length_app. Qed.

Lemma count_pipes_space (a : pystr) :
  forallb isspace a = true -> count_pipes a = 0.
Proof.
  induction a as [|c a IH]; [reflexivity|]. cbn [forallb]. intros H.
  apply andb_true_iff in H as [Hc Ha]. unfold count_pipes in *. cbn [filter].
  unfold only at 1. rewrite (isspace_not_pipe _ Hc). now apply IH.
Qed.

Lemma count_pipes_cons c (t : pystr) :
  count_pipes (c :: t) = (if (c =? pipe)%N then 1 else 0) + count_pipes t.
Proof. unfold count_pipes. cbn [filter]. unfold only at 1. now destruct (c =? pipe)%N. Qed.

(** The scan of a line for delimiters: no character between two matches
    is a pipe, and there are as many matches as pipes. *)
Lemma scan_split :
  forall n sn rs, length rs <= n ->
  Forall (fun t => match t with TChar c => c <> pipe | TMatch _ => True end)
         (scan n split_re sn rs) /\
  count_matches (scan n split_re sn rs) = count_pipes rs.
Proof.
  induction n as [n IH] using lt_wf_ind. intros sn rs Hn.
  destruct n as [|n]; [destruct rs; [now split | cbn in Hn; lia]|].
  destruct rs as [|c t]; [now split|]. cbn [scan].
  assert (Hchar : c <> pipe ->
    Forall (fun t => match t with TChar c => c <> pipe | TMatch _ => True end)
           (TChar c :: scan n split_re (c :: sn) t) /\
    count_matches (TChar c :: scan n split_re (c :: sn) t)
    = count_pipes (c :: t)).
  { intros Hc. destruct (IH n (Nat.lt_succ_diag_r n) (c :: sn) t) as [H1 H2];
      [cbn in Hn; lia|].
    split; [now constructor|].
    rewrite count_pipes_cons. apply N.eqb_neq in Hc. rewrite Hc.
    unfold count_matches in *. cbn [filter]. exact H2. }
  pose proof (match_at_split sn (c :: t)) as Hm.
  pose proof (span_app isspace (c :: t)) as Happ.
  pose proof (span_all isspace (c :: t)) as Hall.
  destruct (snd (span isspace (c :: t))) as [|d r] eqn:Es.
  - rewrite Hm. apply Hchar. intros ->. cbn in Es. discriminate.
  - destruct (N.eqb_spec d pipe) as [->|Hd].
    + destruct Hm as (m & -> & Htext & Hrest & Hseen).
      assert (Hk : (length (m_text m) =? 0) = false).
      { rewrite Htext, length_app. cbn. apply Nat.eqb_neq. lia. }
      rewrite Hk.
      assert (Hrs : c :: t = m_text m ++ rest (m_end m)).
      { rewrite Htext, Hrest, <- app_assoc. cbn [app].
        rewrite (span_app isspace r). symmetry. exact Happ. }
      destruct (IH (n - (length (m_text m) - 1))) with
        (sn := seen (m_end m)) (rs := rest (m_end m)) as [H1 H2].
      * apply Nat.eqb_neq in Hk. lia.
      * apply (f_equal (@length char)) in Hrs. rewrite length_app in Hrs.
        cbn [length] in Hrs, Hn. apply Nat.eqb_neq in Hk. lia.
      * split; [now constructor|].
        unfold count_matches in *. cbn [filter length]. rewrite H2.
        rewrite Hrs. rewrite count_pipes_app, Htext, count_pipes_app.
        rewrite count_pipes_cons, N.eqb_refl.
        rewrite (count_pipes_space _ Hall).
        rewrite (count_pipes_space _ (span_all isspace r)). reflexivity.
    + rewrite Hm. apply Hchar. intros ->. cbn in Es.
      injection Es as E _. now apply Hd.
Qed.

Lemma split_tokens_length :
  forall ts cur, length (split_tokens cur ts) = S (count_matches ts).
Proof.
  induction ts as [|[c|m] ts IH]; intros cur; cbn [split_tokens];
    [reflexivity | apply IH |].
  cbn [length]. rewrite IH. reflexivity.
Qed.

Lemma split_tokens_no_pipe :
  forall ts cur,
  Forall (fun t => match t with TChar c => c <> pipe | TMatch _ => True end) ts ->
  ~ In pipe cur ->
  Forall (fun part => ~ In pipe part) (split_tokens cur ts).
Proof.
  induction ts as [|[c|m] ts IH]; intros cur Hts Hcur; cbn [split_tokens].
  - constructor; [|constructor]. now rewrite <- in_rev.
  - inversion Hts; subst. apply IH; [assumption|].
    intros [E|E]; [congruence | contradiction].
  - inversion Hts; subst. constructor; [now rewrite <- in_rev|].
    apply IH; [assumption | intros []].
Qed.

Section SplitFacts.
Context {U : Unicode}.

(** X10 (columns of a row): the delimiter split of a line cuts it at every
    pipe: it yields one part more than the line has pipes, and no part
    holds a pipe.  So the fields are read off the columns exactly when the
    line has five pipes or more; with fewer pipes the data source, the
    conclusion and the summary stay empty. *)
Theorem split_at_every_pipe (line : pystr) :
  let parts := re_split split_re line in
  length parts = S (count_pipes line) /\
  Forall (fun part => ~ In pipe part) parts /\
  if 5 <=? count_pipes line then
    extract_table_cells_from_line line =
    cells (clean_value (strip (nth 1 parts [])))
          (clean_value (strip (nth 2 parts [])))
          (clean_value (strip (nth 3 parts [])))
          (clean_value (strip (nth 4 parts [])))
          (clean_value (strip (nth 5 parts [])))
  else
    get_str "data_source" (extract_table_cells_from_line line) = [] /\
    get_str "conclusion" (extract_table_cells_from_line line) = [] /\
    get_str "summary" (extract_table_cells_from_line line) = [].
Proof.
  cbv zeta.
  destruct (@scan_split (length line) [] line (le_n _)) as [Hno Hcount].
  assert (Hlen : length (re_split split_re line) = S (count_pipes line)).
  { unfold re_split, tokens. now rewrite split_tokens_length, Hcount. }
  split; [exact Hlen|]. split.
  - unfold re_split, tokens. apply split_tokens_no_pipe; [exact Hno | intros []].
  - destruct (Nat.leb_spec 5 (count_pipes line)) as [H|H].
    + unfold extract_table_cells_from_line. apply table_cells_six. lia.
    + unfold extract_table_cells_from_line, table_cells_with.
      replace (6 <=? length (re_split split_re line)) with false
        by (symmetry; apply Nat.leb_gt; lia).
      destruct (first_search problem_patterns line);
        destruct (first_findall method_patterns line); repeat split; reflexivity.
Qed.

End SplitFacts.

(** ** Values taken from the running text *)



(** *** What a group captures *)











Section ContextFacts.
Context {U : Unicode}.


End ContextFacts.

(** ** The two passes together *)

Lemma dict_get_set_same k v d : dict_get k (dict_set k v d) = Some v.
Proof.
  induction d as [|[k0 w] d IH]; cbn.
  - now rewrite String.eqb_refl.
  - destruct (String.eqb_spec k k0) as [->|Hk]; cbn.
    + now rewrite String.eqb_refl.
    + destruct (String.eqb_spec k k0); [contradiction | exact IH].
Qed.

Section PipelineFacts.
Context {U : Unicode}.

Lemma details_keys ep mp tp p :
  keys (research_details_with ep mp tp p)
  = ["research_entry_point"; "data_mining_methods"]%string.
Proof. reflexivity. Qed.

Lemma details_other k p :
  k <> "research_entry_point"%string -> k <> "data_mining_methods"%string ->
  dict_get k (dict_update p (extract_research_details p)) = dict_get k p.
Proof.
  intros H1 H2. apply dict_get_update_other.
  unfold extract_research_details. rewrite details_keys.
  cbn. intuition congruence.
Qed.

Lemma details_entry p :
  entry_point_of (dict_update p (extract_research_details p))
  = entry_point_of (extract_research_details p).
Proof.
  unfold entry_point_of, extract_research_details, research_details_with.
  cbv zeta. unfold dict_update. cbn [fold_left fst snd].
  unfold get_str. rewrite dict_get_set_other by discriminate.
  rewrite dict_get_set_same. reflexivity.
Qed.

(** X13 (the two passes together): when [main] gets through its pipeline,
    the text it analysed is the section that [find_section] returned, or
    the whole document when that is [None] or empty; its records are, in
    order, the qualifying rows of that text, numbered from one, with the
    link of the row as title and url: the second pass leaves these fields
    as the first pass wrote them.  In every record whose [core_problem] is
    filled, the research entry point is that [core_problem]. *)
Theorem pipeline_records (content title : pystr) (records : list dict)
  (Hrun : run_pipeline content title = Ok records) :
  exists section_content,
    (find_section content title = Ok (Some section_content)
       /\ section_content <> []
     \/ (find_section content title = Ok None
         \/ find_section content title = Ok (Some []))
        /\ section_content = content) /\
    map raw_row records = paper_rows section_content /\
    map number_of records
      = map (fun n => Some (VInt n)) (seq 1 (length records)) /\
    Forall (fun r => link_shape (raw_row r) (title_of r) (url_of r)) records /\
    Forall (fun r => get_str "core_problem" r <> [] ->
                     entry_point_of r = get_str "core_problem" r) records.
Proof.
  unfold run_pipeline in Hrun.
  destruct (find_section content title) as [found|] eqn:Ef; cbn [bind] in Hrun;
    [|discriminate].
  apply Ok_inj in Hrun. subst records.
  set (section_content :=
         match found with
         | Some text => if truthy text then text else content
         | None => content
         end).
  exists section_content. split.
  { subst section_content. destruct found as [[|c text]|]; cbn [truthy].
    - right. split; [right; reflexivity | reflexivity].
    - left. split; [reflexivity | discriminate].
    - right. split; [left; reflexivity | reflexivity]. }
  unfold extract_papers_from_section, paper_rows.
  destruct (papers_loop_spec (split_lines section_content) [])
    as (new & -> & Hrows & Hnum & Hshape).
  cbn [app length Nat.add] in *. rewrite length_map.
  split; [|split; [|split]].
  - rewrite map_map, <- Hrows. apply map_ext. intros p. apply raw_row_details.
  - rewrite map_map, <- Hnum. apply map_ext. intros p.
    unfold number_of. now apply details_other.
  - rewrite Forall_forall in *. intros r Hr.
    apply in_map_iff in Hr as (p & <- & Hp).
    unfold title_of, url_of, get_str. rewrite raw_row_details.
    rewrite !details_other by discriminate. now apply Hshape.
  - rewrite Forall_forall. intros r Hr.
    apply in_map_iff in Hr as (p & <- & Hp).
    rewrite details_entry.
    unfold get_str at 1 2. rewrite !details_other by discriminate.
    fold (get_str "core_problem" p). intros Hcore.
    unfold entry_point_of, extract_research_details, research_details_with.
    cbv zeta. repeat (rewrite (truthy_nonempty Hcore); cbn [negb]).
    reflexivity.
Qed.

End PipelineFacts.

(** ** The white space of the converted documents *)

Section Tidying.
Import Convert.

Lemma blank_isspace c : blank c = true -> isspace c = true.
Proof.
  unfold blank. intros H. apply orb_true_iff in H as [H|H];
    apply N.eqb_eq in H; subst; reflexivity.
Qed.

Lemma blank_not_nl c : blank c = true -> (c =? NL)%N = false.
Proof.
  unfold blank. intros H. apply orb_true_iff in H as [H|H];
    apply N.eqb_eq in H; subst; reflexivity.
Qed.

Lemma nl_isspace c : (c =? NL)%N = true -> isspace c = true.
Proof. intros H. apply N.eqb_eq in H. now subst. Qed.

(** *** Where the patterns match *)

Lemma plus_class_match p sn c t :
  p c = true ->
  exists m, match_at (Plus true (Chr p)) (MState sn (c :: t) []) = Some m
            /\ m_text m = c :: fst (span p t)
            /\ rest (m_end m) = snd (span p t).
Proof.
  intros Hc. unfold match_at, Plus. cbn [seen rest].
  rewrite bt_seq, bt_chr. cbn [rest]. rewrite Hc.
  rewrite bt_star_class. unfold advance. cbn [seen rest caps].
  erewrite star_class_longest by reflexivity.
  eexists. split; [reflexivity|].
  unfold m_text. cbn [m_start m_end]. split; [|reflexivity].
  apply forward_consumed.
  cbn [rest]. now rewrite <- app_comm_cons, span_app.
Qed.

Lemma plus_class_none p sn c t :
  p c = false ->
  match_at (Plus true (Chr p)) (MState sn (c :: t) []) = None.
Proof.
  intros Hc. unfold match_at, Plus. cbn [seen rest].
  rewrite bt_seq, bt_chr. cbn [rest]. now rewrite Hc.
Qed.

(** The pattern of line 115 matches where a run of spaces and tabs starts
    that a newline ends, and reads the run and the newline. *)
Lemma match_at_trailing sn (c : char) (t : pystr) :
  if blank c then
    match snd (span blank t) with
    | d :: r =>
        if (d =? NL)%N then
          exists m,
            match_at trailing_re (MState sn (c :: t) []) = Some m /\
            m_text m = c :: fst (span blank t) ++ [NL] /\
            rest (m_end m) = r
        else match_at trailing_re (MState sn (c :: t) []) = None
    | [] => match_at trailing_re (MState sn (c :: t) []) = None
    end
  else match_at trailing_re (MState sn (c :: t) []) = None.
Proof.
  assert (Hbt : bt trailing_re (MState sn (c :: t) []) (fun s1 => Some s1) =
    if blank c then
      match snd (span blank t) with
      | d :: r =>
          if (d =? NL)%N then
            Some (MState (d :: rev (fst (span blank t)) ++ c :: sn) r [])
          else None
      | [] => None
      end
    else None).
  { unfold trailing_re, Plus. rewrite !bt_seq, bt_chr. cbn [rest].
    destruct (blank c); [|reflexivity].
    rewrite bt_star_class, star_class_det.
    2:{ intros sn' c' t' cs' Hp. rewrite bt_chr. cbn [rest].
        unfold only. now rewrite (blank_not_nl _ Hp). }
    unfold advance. cbn [seen rest caps]. rewrite bt_chr. cbn [rest seen caps].
    destruct (snd (span blank t)) as [|d r]; [reflexivity|].
    unfold only. destruct (d =? NL)%N; reflexivity. }
  unfold match_at. cbn [seen rest]. rewrite Hbt.
  pose proof (span_app blank t) as Happ.
  destruct (blank c); [|reflexivity].
  destruct (snd (span blank t)) as [|d r]; [reflexivity|].
  destruct (N.eqb_spec d NL) as [->|]; [|reflexivity].
  eexists. split; [reflexivity|]. split; [|reflexivity].
  unfold m_text. cbn [m_start m_end]. apply forward_consumed. cbn [rest].
  rewrite <- app_comm_cons, <- app_assoc. cbn [app]. now rewrite Happ.
Qed.

Lemma star_last_nl :
  forall rs sn cs,
  star_class isspace
    (fun s1 => bt (Chr (only NL)) s1 (fun s2 => Some s2)) sn rs cs =
  match last_nl rs with
  | Some (a, b) => Some (MState (rev a ++ sn) b cs)
  | None => None
  end.
Proof.
  induction rs as [|c t IH]; intros sn cs; [reflexivity|].
  cbn [star_class last_nl]. rewrite bt_chr. cbn [rest].
  destruct (isspace c) eqn:Hc.
  - rewrite IH. destruct (last_nl t) as [[a b]|]; cbn [orelse].
    + cbn [rev]. now rewrite <- app_assoc.
    + unfold only. destruct (c =? NL)%N; reflexivity.
  - unfold only. destruct (N.eqb_spec c NL) as [->|]; [discriminate | reflexivity].
Qed.

Lemma star_two_nl :
  forall rs sn cs,
  star_class isspace
    (fun s1 => bt (Seq (Chr (only NL))
                       (Seq (Star true (Chr isspace)) (Chr (only NL))))
                  s1 (fun s2 => Some s2)) sn rs cs =
  match two_nl rs with
  | Some (a, b) => Some (MState (rev a ++ sn) b cs)
  | None => None
  end.
Proof.
  induction rs as [|c t IH]; intros sn cs; [reflexivity|].
  cbn [star_class two_nl]. rewrite !bt_seq, bt_chr. cbn [rest].
  destruct (isspace c) eqn:Hc.
  - rewrite IH. destruct (two_nl t) as [[a b]|]; cbn [orelse].
    + cbn [rev]. now rewrite <- app_assoc.
    + unfold only at 1. destruct (c =? NL)%N; [|reflexivity].
      rewrite bt_seq, bt_star_class. unfold advance. cbn [seen rest caps].
      rewrite star_last_nl. destruct (last_nl t) as [[a b]|]; [|reflexivity].
      cbn [rev]. now rewrite <- app_assoc.
  - unfold only at 1.
    destruct (N.eqb_spec c NL) as [->|]; [discriminate | reflexivity].
Qed.

Lemma last_nl_spec (rs : pystr) :
  match last_nl rs with
  | Some (a, b) =>
      rs = a ++ b /\ (exists a', a = a' ++ [NL]) /\
      nl_prefix b = 0 /\ 1 <= nl_prefix rs
  | None => nl_prefix rs = 0
  end.
Proof.
  induction rs as [|c t IH]; [reflexivity|]. cbn [last_nl nl_prefix].
  destruct (isspace c); [|reflexivity].
  destruct (last_nl t) as [[a b]|].
  - destruct IH as (-> & [a' ->] & Hb & Hn).
    repeat split; [now exists (c :: a') | exact Hb | lia].
  - destruct (N.eqb_spec c NL) as [->|]; [|exact IH].
    repeat split; [now exists [] | exact IH | lia].
Qed.

Lemma two_nl_spec (rs : pystr) :
  match two_nl rs with
  | Some (a, b) =>
      rs = a ++ b /\ (exists a', a = a' ++ [NL]) /\
      nl_prefix b = 0 /\ 2 <= nl_prefix rs
  | None => nl_prefix rs <= 1
  end.
Proof.
  induction rs as [|c t IH]; [cbn; lia|]. cbn [two_nl nl_prefix].
  destruct (isspace c); [|lia].
  destruct (two_nl t) as [[a b]|].
  - destruct IH as (-> & [a' ->] & Hb & Hn).
    repeat split; [now exists (c :: a') | exact Hb | lia].
  - pose proof (last_nl_spec t) as Hl.
    destruct (N.eqb_spec c NL) as [->|]; [|exact IH].
    destruct (last_nl t) as [[a b]|]; [|lia].
    destruct Hl as (-> & [a' ->] & Hb & Hn).
    repeat split; [now exists (NL :: a') | exact Hb | lia].
Qed.

(** The pattern of lines 114 and 128 matches at a newline that white space
    with two or more newlines follows, and reads up to the last of them. *)
Lemma match_at_blank_lines sn (c : char) (t : pystr) :
  if (c =? NL)%N then
    match two_nl t with
    | Some (a, b) =>
        exists m,
          match_at blank_lines_re (MState sn (c :: t) []) = Some m /\
          m_text m = c :: a /\ rest (m_end m) = b
    | None => match_at blank_lines_re (MState sn (c :: t) []) = None
    end
  else match_at blank_lines_re (MState sn (c :: t) []) = None.
Proof.
  unfold match_at, blank_lines_re. cbn [Seqs seen rest].
  rewrite bt_seq, bt_chr. cbn [rest]. change (only NL c) with (c =? NL)%N.
  destruct (c =? NL)%N; [|reflexivity].
  rewrite bt_seq, bt_star_class. unfold advance. cbn [seen rest caps].
  rewrite star_two_nl. pose proof (two_nl_spec t) as Hs.
  destruct (two_nl t) as [[a b]|] eqn:E; [|reflexivity].
  eexists. split; [reflexivity|]. split; [|reflexivity].
  unfold m_text. cbn [m_start m_end]. apply forward_consumed. cbn [rest].
  destruct Hs as (-> & _). reflexivity.
Qed.

(** *** What the substitutions write *)

Lemma scan_blank_lines :
  forall n sn rs k, length rs <= n ->
  k + nl_prefix rs <= 2 \/ k = 0 ->
  max_nl k
    (flat_map (fun t => match t with TChar c => [c] | TMatch _ => [NL; NL] end)
              (scan n blank_lines_re sn rs)) = true.
Proof.
  induction n as [n IH] using lt_wf_ind. intros sn rs k Hn Hk.
  destruct rs as [|c t]; [destruct n; reflexivity|].
  destruct n as [|n]; [cbn in Hn; lia|]. cbn [scan].
  pose proof (match_at_blank_lines sn c t) as Hm.
  pose proof (two_nl_spec t) as Hs.
  cbn [nl_prefix] in Hk. cbn [length] in Hn.
  destruct (N.eqb_spec c NL) as [->|Hc].
  - change (isspace NL) with true in Hk. cbn iota in Hk.
    destruct (two_nl t) as [[a b]|].
    + destruct Hm as (m & -> & Htext & Hrest).
      destruct Hs as (Ht & _ & Hb & Hnl).
      rewrite Htext, Hrest. cbn [length Nat.eqb flat_map app].
      assert (k = 0) as -> by lia.
      cbn [max_nl]. change (isspace NL) with true. rewrite N.eqb_refl.
      cbn [Nat.ltb Nat.leb andb]. apply IH; [lia | | lia].
      apply (f_equal (@length char)) in Ht. rewrite length_app in Ht. lia.
    + rewrite Hm. cbn [flat_map app max_nl].
      change (isspace NL) with true. rewrite N.eqb_refl.
      apply andb_true_iff. split; [apply Nat.ltb_lt; lia|].
      apply IH; lia.
  - rewrite Hm. cbn [flat_map app max_nl].
    apply N.eqb_neq in Hc. rewrite Hc in *.
    destruct (isspace c); apply IH; lia.
Qed.

Lemma max_nl_blanks (x y : pystr) k :
  forallb blank x = true -> max_nl k (x ++ y) = max_nl k y.
Proof.
  induction x as [|c x IH]; [reflexivity|]. cbn [forallb app max_nl].
  intros H. apply andb_true_iff in H as [Hc Hx].
  now rewrite (blank_isspace _ Hc), (blank_not_nl _ Hc), IH.
Qed.

Lemma scan_trailing_max :
  forall n sn rs k, length rs <= n ->
  max_nl k rs = true ->
  max_nl k
    (flat_map (fun t => match t with TChar c => [c] | TMatch _ => [NL] end)
              (scan n trailing_re sn rs)) = true.
Proof.
  induction n as [n IH] using lt_wf_ind. intros sn rs k Hn Hk.
  destruct rs as [|c t]; [destruct n; reflexivity|].
  destruct n as [|n]; [cbn in Hn; lia|]. cbn [scan]. cbn [length] in Hn.
  assert (Hchar :
    max_nl k
      (flat_map (fun t => match t with TChar c => [c] | TMatch _ => [NL] end)
                (TChar c :: scan n trailing_re (c :: sn) t)) = true).
  { cbn [flat_map app max_nl] in *.
    destruct (isspace c); [|apply IH; [lia | lia | exact Hk]].
    destruct (c =? NL)%N; [|apply IH; [lia | lia | exact Hk]].
    apply andb_true_iff in Hk as [Hk1 Hk2]. rewrite Hk1. cbn [andb].
    apply IH; [lia | lia | exact Hk2]. }
  pose proof (match_at_trailing sn c t) as Hm.
  pose proof (span_app blank t) as Happ.
  pose proof (span_all blank t) as Hall.
  destruct (blank c) eqn:Hc; [|now rewrite Hm].
  destruct (snd (span blank t)) as [|d r]; [now rewrite Hm|].
  destruct (N.eqb_spec d NL) as [->|]; [|now rewrite Hm].
  destruct Hm as (m & -> & Htext & Hrest).
  rewrite Htext, Hrest. cbn [length Nat.eqb flat_map app].
  cbn [max_nl] in Hk.
  rewrite (blank_isspace _ Hc), (blank_not_nl _ Hc), <- Happ in Hk.
  rewrite (@max_nl_blanks _ _ _ Hall) in Hk. cbn [max_nl] in Hk |- *.
  change (isspace NL) with true in *. rewrite N.eqb_refl in *.
  apply andb_true_iff in Hk as [Hk1 Hk2]. rewrite Hk1. cbn [andb].
  apply IH; [lia | | exact Hk2].
  apply (f_equal (@length char)) in Happ. rewrite !length_app in *.
  cbn [length] in *. lia.
Qed.

(** Where the pattern of line 115 does not match at a space or a tab, it
    does not match at the next character either, and that character is no
    newline. *)
Lemma trailing_none_next sn sn' c t :
  blank c = true ->
  match_at trailing_re (MState sn (c :: t) []) = None ->
  match t with
  | d :: t' =>
      match_at trailing_re (MState sn' (d :: t') []) = None /\ d <> NL
  | [] => True
  end.
Proof.
  intros Hc Hnone. destruct t as [|d t']; [exact I|].
  pose proof (match_at_trailing sn c (d :: t')) as H1.
  pose proof (match_at_trailing sn' d t') as H2.
  rewrite Hc in H1. cbn [span] in H1.
  destruct (blank d) eqn:Hd.
  - destruct (span blank t') as [a b] eqn:Es. cbn [fst snd] in *.
    split; [|intros ->; discriminate].
    destruct b as [|e r]; [exact H2|].
    destruct (e =? NL)%N; [|exact H2].
    destruct H1 as (m & H1 & _). congruence.
  - split; [exact H2|]. cbn [snd] in H1.
    destruct (N.eqb_spec d NL) as [->|Hne]; [|exact Hne].
    destruct H1 as (m & H1 & _). congruence.
Qed.

Lemma scan_trailing :
  forall n sn rs, length rs <= n ->
  no_blank_nl
    (flat_map (fun t => match t with TChar c => [c] | TMatch _ => [NL] end)
              (scan n trailing_re sn rs)) = true.
Proof.
  induction n as [n IH] using lt_wf_ind. intros sn rs Hn.
  destruct rs as [|c t]; [destruct n; reflexivity|].
  destruct n as [|n]; [cbn in Hn; lia|]. cbn [scan]. cbn [length] in Hn.
  pose proof (IH n (Nat.lt_succ_diag_r n) (c :: sn) t) as IHt.
  assert (Hplain : blank c = false ->
    no_blank_nl
      (flat_map (fun t => match t with TChar c => [c] | TMatch _ => [NL] end)
                (TChar c :: scan n trailing_re (c :: sn) t)) = true).
  { intros Hc. cbn [flat_map app no_blank_nl]. rewrite IHt by lia.
    rewrite Hc. now destruct (flat_map _ _). }
  assert (Hblank : blank c = true ->
    match_at trailing_re (MState sn (c :: t) []) = None ->
    no_blank_nl
      (flat_map (fun t => match t with TChar c => [c] | TMatch _ => [NL] end)
                (TChar c :: scan n trailing_re (c :: sn) t)) = true).
  { intros Hc Em. cbn [flat_map app no_blank_nl]. rewrite IHt by lia.
    rewrite andb_true_r.
    pose proof (@trailing_none_next sn (c :: sn) c t Hc Em) as Hnext.
    destruct t as [|d t']; [destruct n; reflexivity|].
    destruct Hnext as [Hnone Hd].
    destruct n as [|n']; [cbn in Hn; lia|]. cbn [scan].
    rewrite Hnone. cbn [flat_map app]. apply N.eqb_neq in Hd. rewrite Hd.
    now rewrite andb_false_r. }
  pose proof (match_at_trailing sn c t) as Hm.
  pose proof (span_app blank t) as Happ.
  destruct (blank c) eqn:Hc; [|rewrite Hm; now apply Hplain].
  destruct (snd (span blank t)) as [|d r];
    [rewrite Hm; now apply Hblank|].
  destruct (N.eqb_spec d NL) as [->|]; [|rewrite Hm; now apply Hblank].
  destruct Hm as (m & -> & Htext & Hrest).
  rewrite Htext, Hrest. cbn [length Nat.eqb flat_map app no_blank_nl].
  rewrite IH.
  - change (blank NL) with false.
    match goal with |- (match ?l with _ => _ end) && _ = _ => destruct l end;
      reflexivity.
  - lia.
  - apply (f_equal (@length char)) in Happ. rewrite !length_app in *.
    cbn [length] in *. lia.
Qed.

Lemma scan_blanks :
  forall n sn rs prev, length rs <= n ->
  (prev = true -> match rs with c :: _ => blank c = false | [] => True end) ->
  let out :=
    flat_map (fun t => match t with TChar c => [c] | TMatch _ => [SPACE] end)
             (scan n blanks_re sn rs) in
  no_blank_pair prev out = true /\ ~ In TAB out.
Proof.
  induction n as [n IH] using lt_wf_ind. intros sn rs prev Hn Hprev. cbv zeta.
  destruct rs as [|c t]; [destruct n; (split; [reflexivity | intros []])|].
  destruct n as [|n]; [cbn in Hn; lia|]. cbn [scan]. cbn [length] in Hn.
  unfold blanks_re. destruct (blank c) eqn:Hc.
  - destruct (@plus_class_match blank sn c t Hc) as (m & -> & Htext & Hrest).
    rewrite Htext, Hrest. cbn [length Nat.eqb flat_map app].
    pose proof (span_length blank t) as Hlen.
    pose proof (span_stop blank t) as Hstop.
    destruct (IH (n - (S (length (fst (span blank t))) - 1)))
      with (sn := seen (m_end m)) (rs := snd (span blank t)) (prev := true)
      as [H1 H2].
    + lia.
    + pose proof (span_app blank t) as Happ.
      apply (f_equal (@length char)) in Happ. rewrite length_app in Happ. lia.
    + intros _. exact Hstop.
    + split.
      * cbn [no_blank_pair]. change (blank SPACE) with true.
        destruct prev; [now specialize (Hprev eq_refl) | exact H1].
      * intros [E|E]; [discriminate | now apply H2].
  - rewrite (@plus_class_none blank sn c t Hc). cbn [flat_map app].
    destruct (IH n (Nat.lt_succ_diag_r n) (c :: sn) t false) as [H1 H2];
      [lia | discriminate |].
    split.
    + cbn [no_blank_pair]. rewrite Hc, andb_false_r. exact H1.
    + intros [E|E]; [subst; discriminate | now apply H2].
Qed.

Lemma no_blank_pair_after (x y : pystr) c :
  forall prev, no_blank_pair prev (x ++ c :: y) = true ->
  no_blank_pair (blank c) y = true.
Proof.
  induction x as [|d x IH]; intros prev H; cbn [app no_blank_pair] in H;
    apply andb_true_iff in H as [_ H]; [exact H | now apply IH in H].
Qed.

Lemma scan_blank_lines_pair :
  forall n sn rs prev, length rs <= n ->
  no_blank_pair prev rs = true ->
  no_blank_pair prev
    (flat_map (fun t => match t with TChar c => [c] | TMatch _ => [NL; NL] end)
              (scan n blank_lines_re sn rs)) = true.
Proof.
  induction n as [n IH] using lt_wf_ind. intros sn rs prev Hn Hp.
  destruct rs as [|c t]; [destruct n; reflexivity|].
  destruct n as [|n]; [cbn in Hn; lia|]. cbn [scan]. cbn [length] in Hn.
  assert (Hchar :
    no_blank_pair prev
      (flat_map (fun t => match t with TChar c => [c] | TMatch _ => [NL; NL] end)
                (TChar c :: scan n blank_lines_re (c :: sn) t)) = true).
  { cbn [flat_map app no_blank_pair] in *.
    apply andb_true_iff in Hp as [Hp1 Hp2]. rewrite Hp1. cbn [andb].
    apply IH; [lia | lia | exact Hp2]. }
  pose proof (match_at_blank_lines sn c t) as Hm.
  pose proof (two_nl_spec t) as Hs.
  destruct (N.eqb_spec c NL) as [->|Hc]; [|now rewrite Hm].
  destruct (two_nl t) as [[a b]|]; [|now rewrite Hm].
  destruct Hm as (m & -> & Htext & Hrest).
  destruct Hs as (Ht & [a' Ha] & _).
  rewrite Htext, Hrest. cbn [length Nat.eqb flat_map app no_blank_pair].
  change (blank NL) with false. rewrite andb_false_r. cbn [andb negb].
  apply IH.
  - lia.
  - apply (f_equal (@length char)) in Ht. rewrite length_app in Ht. lia.
  - subst t a. rewrite <- app_assoc in Hp. cbn [app] in Hp.
    apply (@no_blank_pair_after (NL :: a') b NL prev Hp).
Qed.

(** A substitution writes only characters of its subject and of the
    replacement. *)
Lemma scan_chars r (repl : pystr) c :
  forall n sn rs,
  In c (flat_map (fun t => match t with TChar c => [c] | TMatch _ => repl end)
                 (scan n r sn rs)) ->
  In c rs \/ In c repl.
Proof.
  induction n as [n IH] using lt_wf_ind. intros sn rs H.
  destruct n as [|n]; [destruct H|].
  destruct rs as [|d t]; [destruct H|]. cbn [scan] in H.
  assert (Hchar :
    In c (flat_map (fun t => match t with TChar c => [c] | TMatch _ => repl end)
                   (TChar d :: scan n r (d :: sn) t)) ->
    In c (d :: t) \/ In c repl).
  { cbn [flat_map app]. intros [E|E]; [left; now left|].
    apply IH in E as [E|E]; [left; now right | now right | lia]. }
  destruct (match_at r _) as [m|] eqn:Em; [|now apply Hchar].
  destruct (length (m_text m) =? 0); [now apply Hchar|].
  cbn [flat_map] in H. apply in_app_or in H as [H|H]; [now right|].
  apply IH in H as [H|H]; [|now right | lia].
  apply match_at_forward in Em as (_ & Hr & _). cbn [rest] in Hr.
  left. rewrite Hr. apply in_or_app. now right.
Qed.

(** *** From the checks to what they mean *)

Lemma no_blank_nl_spec (s : pystr) :
  no_blank_nl s = true ->
  forall before c after, s = before ++ c :: NL :: after -> blank c = false.
Proof.
  intros H before. revert s H.
  induction before as [|x p IH]; intros s H c after ->; cbn [app] in H.
  - cbn [no_blank_nl] in H. rewrite N.eqb_refl, andb_true_r in H.
    apply andb_true_iff in H as [H _]. now apply negb_true_iff in H.
  - cbn [no_blank_nl] in H. apply andb_true_iff in H as [_ H].
    now apply (IH _ H c after).
Qed.

Lemma no_blank_pair_spec (s : pystr) :
  forall prev, no_blank_pair prev s = true -> ~ substring [SPACE; SPACE] s.
Proof.
  intros prev H (before & after & ->). revert prev H.
  induction before as [|x p IH]; intros prev H; cbn [app no_blank_pair] in H.
  - change (blank SPACE) with true in H. rewrite andb_true_r in H.
    cbn [negb andb] in H. apply andb_true_iff in H as [_ H]. discriminate.
  - apply andb_true_iff in H as [_ H]. now apply IH in H.
Qed.

Lemma count_nl_cons c (w : pystr) :
  count_nl (c :: w) = (if (c =? NL)%N then 1 else 0) + count_nl w.
Proof. unfold count_nl. cbn [filter]. unfold only at 1. now destruct (c =? NL)%N. Qed.

Lemma max_nl_stretch (w q : pystr) :
  forallb isspace w = true ->
  forall k, max_nl k (w ++ q) = true ->
  (count_nl w = 0 \/ k + count_nl w <= 2) /\
  max_nl (k + count_nl w) q = true.
Proof.
  intros Hw. induction w as [|c w IH]; intros k H.
  - cbn. rewrite Nat.add_0_r. split; [now left | exact H].
  - cbn [forallb] in Hw. apply andb_true_iff in Hw as [Hc Hw].
    cbn [app max_nl] in H. rewrite Hc in H. rewrite count_nl_cons.
    destruct (c =? NL)%N.
    + apply andb_true_iff in H as [Hk H]. apply Nat.ltb_lt in Hk.
      destruct (IH Hw _ H) as [Hn Hq].
      replace (k + (1 + count_nl w)) with (S k + count_nl w) by lia.
      split; [right; lia | exact Hq].
    + exact (IH Hw _ H).
Qed.

Lemma max_nl_suffix (p r : pystr) :
  forall k, max_nl k (p ++ r) = true -> exists k', max_nl k' r = true.
Proof.
  induction p as [|c p IH]; intros k H; [now exists k|].
  cbn [app max_nl] in H.
  destruct (isspace c); [destruct (c =? NL)%N|]; eauto.
  apply andb_true_iff in H as [_ H]. eauto.
Qed.

Lemma max_nl_spec (s : pystr) :
  max_nl 0 s = true ->
  forall w, substring w s -> forallb isspace w = true -> count_nl w <= 2.
Proof.
  intros H w (before & after & ->) Hw.
  apply max_nl_suffix in H as [k H].
  destruct (@max_nl_stretch w after Hw k H) as [[Hn|Hn] _]; lia.
Qed.

Lemma lstrip_head (s : pystr) c t : lstrip s = c :: t -> isspace c = false.
Proof.
  induction s as [|d s IH]; [discriminate|]. cbn [lstrip].
  destruct (isspace d) eqn:Hd; [exact IH|].
  intros E. injection E as <- _. exact Hd.
Qed.

(** A stripped string neither begins nor ends with white space. *)
Lemma strip_ends (s : pystr) c t :
  strip s = c :: t \/ strip s = t ++ [c] -> isspace c = false.
Proof.
  unfold strip. intros [E|E].
  - destruct (rstrip_prefix (lstrip s)) as [w Hw]. rewrite E in Hw.
    now apply lstrip_head in Hw.
  - unfold rstrip in E. apply (f_equal (@rev char)) in E.
    rewrite rev_involutive, rev_app_distr in E. now apply lstrip_head in E.
Qed.

Lemma substring_strip (w s : pystr) : substring w (strip s) -> substring w s.
Proof.
  intros H. exact (substring_trans H (strip_substring s)).
Qed.

Lemma blank_lines_sub_max (s : pystr) :
  max_nl 0 (re_sub blank_lines_re [NL; NL] s) = true.
Proof.
  unfold re_sub, tokens. apply scan_blank_lines; [apply le_n | now right].
Qed.

(** X14 (white space of the Markdown output): whatever the renderer
    returns, the result of [convert_to_markdown] neither begins nor ends
    with white space, has no space or tab directly before a newline, and
    has no stretch of white space with more than two newlines; so it never
    has three newlines in a row. *)
Theorem markdown_white_space (handle : pystr -> pystr) (html_content : pystr) :
  let out := convert_to_markdown handle html_content in
  (forall c t, out = c :: t \/ out = t ++ [c] -> isspace c = false) /\
  (forall before c after, out = before ++ c :: NL :: after -> blank c = false) /\
  (forall w, substring w out -> forallb isspace w = true -> count_nl w <= 2) /\
  ~ substring [NL; NL; NL] out.
Proof.
  cbv zeta. unfold convert_to_markdown, tidy_markdown. cbv zeta.
  set (first := re_sub blank_lines_re [NL; NL] (handle html_content)).
  set (second := re_sub trailing_re [NL] first).
  assert (Hmax : max_nl 0 second = true).
  { unfold second, re_sub, tokens.
    apply scan_trailing_max; [apply le_n | apply blank_lines_sub_max]. }
  assert (Hnl : no_blank_nl second = true).
  { unfold second, re_sub, tokens. apply scan_trailing. apply le_n. }
  assert (Hruns : forall w, substring w (strip second) ->
                  forallb isspace w = true -> count_nl w <= 2).
  { intros w Hw. apply (max_nl_spec Hmax). now apply substring_strip. }
  split; [|split; [|split]].
  - intros c t. apply strip_ends.
  - intros before c after E.
    destruct (strip_substring second) as (p & q & Hs).
    rewrite E, <- app_assoc, app_assoc in Hs. cbn [app] in Hs.
    exact (no_blank_nl_spec Hnl _ _ _ Hs).
  - exact Hruns.
  - intros H. specialize (Hruns _ H eq_refl). vm_compute in Hruns. lia.
Qed.

(** X15 (white space of the text output): whatever text the parsed
    document has, the result of [convert_to_text] neither begins nor ends
    with white space, holds no tab and no two spaces side by side, and has
    no stretch of white space with more than two newlines; so it never has
    three newlines in a row. *)
Theorem text_white_space (soup_text : pystr -> pystr) (html_content : pystr) :
  let out := convert_to_text soup_text html_content in
  (forall c t, out = c :: t \/ out = t ++ [c] -> isspace c = false) /\
  ~ In TAB out /\
  ~ substring [SPACE; SPACE] out /\
  (forall w, substring w out -> forallb isspace w = true -> count_nl w <= 2) /\
  ~ substring [NL; NL; NL] out.
Proof.
  cbv zeta. unfold convert_to_text, tidy_text. cbv zeta.
  set (first := re_sub blanks_re [SPACE] (soup_text html_content)).
  set (second := re_sub blank_lines_re [NL; NL] first).
  destruct (@scan_blanks (length (soup_text html_content)) []
              (soup_text html_content) false (le_n _))
    as [Hpair Htab]; [discriminate|].
  fold (tokens blanks_re (soup_text html_content)) in Hpair, Htab.
  fold (re_sub blanks_re [SPACE] (soup_text html_content)) in Hpair, Htab.
  fold first in Hpair, Htab.
  assert (Hpair2 : no_blank_pair false second = true).
  { unfold second, re_sub, tokens.
    apply scan_blank_lines_pair; [apply le_n | exact Hpair]. }
  assert (Hruns : forall w, substring w (strip second) ->
                  forallb isspace w = true -> count_nl w <= 2).
  { intros w Hw. apply (max_nl_spec (blank_lines_sub_max first)).
    now apply substring_strip. }
  split; [|split; [|split; [|split]]].
  - intros c t. apply strip_ends.
  - intros H.
    apply (@substring_chars _ _ TAB (strip_substring second)) in H.
    unfold second, re_sub, tokens in H.
    apply scan_chars in H as [H|[H|[H|[]]]]; [now apply Htab | |];
      discriminate.
  - intros H. apply substring_strip in H.
    exact (@no_blank_pair_spec second false Hpair2 H).
  - exact Hruns.
  - intros H. specialize (Hruns _ H eq_refl). vm_compute in Hruns. lia.
Qed.

End Tidying.

(** ** The fields of the records *)

Lemma keys_dict_set_in k v d : In k (keys d) -> keys (dict_set k v d) = keys d.
Proof.
  induction d as [|[k0 w] d IH]; [intros []|]. cbn [keys map fst dict_set].
  intros H. destruct (String.eqb_spec k k0) as [->|Hk]; [reflexivity|].
  cbn [map fst]. f_equal. apply IH. destruct H as [H|H]; [congruence | exact H].
Qed.

Lemma keys_dict_set_new k v d :
  ~ In k (keys d) -> keys (dict_set k v d) = keys d ++ [k].
Proof.
  induction d as [|[k0 w] d IH]; [reflexivity|]. cbn [keys map fst dict_set].
  intros H. destruct (String.eqb_spec k k0) as [->|Hk].
  - exfalso. apply H. now left.
  - cbn [map fst app]. f_equal. apply IH. intros Hin. apply H. now right.
Qed.

Section RecordFacts.
Context {U : Unicode}.

Lemma new_record_fields title url line number :
  let p := dict_update (new_paper title url line number)
                       (extract_table_cells_from_line line) in
  keys p = record_keys /\
  forall k, In k field_keys ->
    dict_get k p = dict_get k (extract_table_cells_from_line (raw_row p)).
Proof.
  cbv zeta. unfold extract_table_cells_from_line.
  destruct (table_cells_shape problem_patterns method_patterns line)
    as (a & b & c & d & e & E).
  assert (Hraw :
    raw_row (dict_update (new_paper title url line number)
               (table_cells_with problem_patterns method_patterns line))
    = line).
  { rewrite E. generalize (clean_value a), (clean_value b), (clean_value c),
      (clean_value d), (clean_value e). intros; reflexivity. }
  rewrite Hraw, E.
  generalize (clean_value a), (clean_value b), (clean_value c),
    (clean_value d), (clean_value e). intros va vb vc vd ve.
  split; [reflexivity|].
  intros k Hk. cbn in Hk.
  destruct Hk as [<-|[<-|[<-|[<-|[<-|[]]]]]]; reflexivity.
Qed.

Lemma papers_loop_fields :
  forall lines papers,
  Forall (fun p =>
    keys p = record_keys /\
    forall k, In k field_keys ->
      dict_get k p = dict_get k (extract_table_cells_from_line (raw_row p)))
    papers ->
  Forall (fun p =>
    keys p = record_keys /\
    forall k, In k field_keys ->
      dict_get k p = dict_get k (extract_table_cells_from_line (raw_row p)))
    (papers_loop lines papers).
Proof.
  induction lines as [|raw ls IH]; intros papers H; [exact H|].
  cbn [papers_loop]. cbv zeta.
  destruct (negb (truthy (strip raw)) || _ || _); [now apply IH|].
  destruct (re_match link_re (strip raw)) as [m|]; [|now apply IH].
  apply IH. apply Forall_app. split; [exact H|].
  constructor; [|constructor]. apply new_record_fields.
Qed.

(** X16 (the fields of the records): every record of
    [extract_papers_from_section] has the nine keys of lines 125-135, in
    that order, and holds under each of the five field keys what
    [extract_table_cells_from_line] returns for the record's own row.  The
    second pass of [main] adds the key [research_entry_point] after them
    and leaves the fields other than [data_mining_methods] as they are. *)
Theorem record_fields (section_content : pystr) :
  Forall (fun p =>
    keys p = record_keys /\
    (forall k, In k field_keys ->
       dict_get k p = dict_get k (extract_table_cells_from_line (raw_row p))) /\
    let r := dict_update p (extract_research_details p) in
    keys r = record_keys ++ ["research_entry_point"%string] /\
    (forall k, In k field_keys -> k <> "data_mining_methods"%string ->
       dict_get k r = dict_get k (extract_table_cells_from_line (raw_row r))))
    (extract_papers_from_section section_content).
Proof.
  unfold extract_papers_from_section.
  pose proof (@papers_loop_fields (split_lines section_content) []
                (Forall_nil _)) as H.
  rewrite Forall_forall in *. intros p Hp.
  destruct (H p Hp) as [Hkeys Hfields].
  split; [exact Hkeys | split; [exact Hfields|]]. cbv zeta. split.
  - unfold extract_research_details, research_details_with. cbv zeta.
    unfold dict_update. cbn [fold_left fst snd].
    rewrite keys_dict_set_in, keys_dict_set_new.
    + now rewrite Hkeys.
    + rewrite Hkeys. cbn. intuition discriminate.
    + rewrite keys_dict_set_new, Hkeys; [cbn; tauto|].
      rewrite Hkeys. cbn. intuition discriminate.
  - intros k Hk Hne. rewrite raw_row_details, <- (Hfields k Hk).
    apply details_other; [|exact Hne].
    intros ->. cbn in Hk. intuition discriminate.
Qed.

End RecordFacts.

(** ** Cleaning the white space twice *)

Section TidyingTwice.
Import Convert.

(** *** The checks survive the stripping *)

Lemma no_blank_nl_suffix (w x : pystr) :
  no_blank_nl (w ++ x) = true -> no_blank_nl x = true.
Proof.
  induction w as [|c w IH]; [trivial|]. cbn [app no_blank_nl]. intros H.
  apply andb_true_iff in H as [_ H]. now apply IH.
Qed.

Lemma no_blank_nl_prefix (x w : pystr) :
  no_blank_nl (x ++ w) = true -> no_blank_nl x = true.
Proof.
  induction x as [|c x IH]; [reflexivity|]. cbn [app no_blank_nl]. intros H.
  apply andb_true_iff in H as [H1 H2]. rewrite (IH H2), andb_true_r.
  destruct x as [|d x]; [reflexivity | exact H1].
Qed.

Lemma max_nl_prefix (x w : pystr) :
  forall k, max_nl k (x ++ w) = true -> max_nl k x = true.
Proof.
  induction x as [|c x IH]; intros k H; [reflexivity|].
  cbn [app max_nl] in *.
  destruct (isspace c); [destruct (c =? NL)%N|]; try now apply IH.
  apply andb_true_iff in H as [H1 H2]. rewrite H1. now apply IH.
Qed.

Lemma max_nl_restart (x : pystr) k :
  (forall c t, x = c :: t -> isspace c = false) ->
  max_nl k x = true -> max_nl 0 x = true.
Proof.
  destruct x as [|c t]; [reflexivity|]. intros H.
  cbn [max_nl]. now rewrite (H c t eq_refl).
Qed.

Lemma no_blank_pair_weaken (x : pystr) prev :
  no_blank_pair prev x = true -> no_blank_pair false x = true.
Proof.
  destruct x as [|c x]; [reflexivity|]. cbn [no_blank_pair]. intros H.
  apply andb_true_iff in H as [_ H]. exact H.
Qed.

Lemma no_blank_pair_suffix (w x : pystr) :
  forall prev, no_blank_pair prev (w ++ x) = true ->
  no_blank_pair false x = true.
Proof.
  induction w as [|c w IH]; intros prev H.
  - now apply no_blank_pair_weaken in H.
  - cbn [app no_blank_pair] in H. apply andb_true_iff in H as [_ H].
    now apply IH in H.
Qed.

Lemma no_blank_pair_prefix (x w : pystr) :
  forall prev, no_blank_pair prev (x ++ w) = true ->
  no_blank_pair prev x = true.
Proof.
  induction x as [|c x IH]; intros prev H; [reflexivity|].
  cbn [app no_blank_pair] in *.
  apply andb_true_iff in H as [H1 H2]. rewrite H1. now apply IH.
Qed.

Lemma strip_parts (s : pystr) : exists w w', s = w ++ strip s ++ w'.
Proof.
  destruct (lstrip_suffix s) as [w Hw].
  destruct (rstrip_prefix (lstrip s)) as [w' Hw'].
  exists w, w'. unfold strip. now rewrite <- Hw', <- Hw.
Qed.

Lemma strip_head (s : pystr) c t : strip s = c :: t -> isspace c = false.
Proof. intros H. apply (@strip_ends s c t). now left. Qed.

Lemma max_nl_strip (s : pystr) :
  max_nl 0 s = true -> max_nl 0 (strip s) = true.
Proof.
  intros H. destruct (strip_parts s) as (w & w' & E). rewrite E in H.
  apply max_nl_suffix in H as [k H]. apply max_nl_prefix in H.
  apply (@max_nl_restart _ k); [apply strip_head | exact H].
Qed.

Lemma no_blank_nl_strip (s : pystr) :
  no_blank_nl s = true -> no_blank_nl (strip s) = true.
Proof.
  intros H. destruct (strip_parts s) as (w & w' & E). rewrite E in H.
  apply no_blank_nl_suffix in H. now apply no_blank_nl_prefix in H.
Qed.

Lemma no_blank_pair_strip (s : pystr) :
  no_blank_pair false s = true -> no_blank_pair false (strip s) = true.
Proof.
  intros H. destruct (strip_parts s) as (w & w' & E). rewrite E in H.
  apply no_blank_pair_suffix in H. now apply no_blank_pair_prefix in H.
Qed.

(** *** A stripped string is stripped *)

Lemma lstrip_fixed (x : pystr) :
  (forall c t, x = c :: t -> isspace c = false) -> lstrip x = x.
Proof.
  destruct x as [|c t]; [reflexivity|]. intros H. cbn [lstrip].
  now rewrite (H c t eq_refl).
Qed.

Lemma rstrip_fixed (x : pystr) :
  (forall c t, x = t ++ [c] -> isspace c = false) -> rstrip x = x.
Proof.
  intros H. unfold rstrip. rewrite lstrip_fixed; [apply rev_involutive|].
  intros c t E. apply (H c (rev t)).
  apply (f_equal (@rev char)) in E. rewrite rev_involutive in E.
  rewrite E. reflexivity.
Qed.

Lemma strip_fixed (s : pystr) : strip (strip s) = strip s.
Proof.
  unfold strip at 1. rewrite lstrip_fixed; [apply rstrip_fixed|].
  - intros c t E. apply (@strip_ends s c t). now right.
  - apply strip_head.
Qed.

(** *** Substitutions that find nothing to change *)

Lemma max_nl_front (t : pystr) :
  forall k, max_nl k t = true -> nl_prefix t = 0 \/ k + nl_prefix t <= 2.
Proof.
  induction t as [|c t IH]; intros k H; [now left|].
  cbn [max_nl nl_prefix] in *. destruct (isspace c); [|now left].
  destruct (c =? NL)%N.
  - apply andb_true_iff in H as [Hk H]. apply Nat.ltb_lt in Hk.
    destruct (IH _ H); right; lia.
  - exact (IH _ H).
Qed.

Lemma scan_blank_lines_fixed :
  forall n sn rs k, length rs <= n -> max_nl k rs = true ->
  flat_map (fun t => match t with TChar c => [c] | TMatch _ => [NL; NL] end)
           (scan n blank_lines_re sn rs) = rs.
Proof.
  induction n as [n IH] using lt_wf_ind. intros sn rs k Hn Hk.
  destruct rs as [|c t]; [destruct n; reflexivity|].
  destruct n as [|n]; [cbn in Hn; lia|]. cbn [scan]. cbn [length] in Hn.
  assert (Hnone : match_at blank_lines_re (MState sn (c :: t) []) = None).
  { pose proof (match_at_blank_lines sn c t) as Hm.
    pose proof (two_nl_spec t) as Hs.
    destruct (N.eqb_spec c NL) as [->|]; [|exact Hm].
    destruct (two_nl t) as [[a b]|]; [|exact Hm].
    exfalso. destruct Hs as (_ & _ & _ & Hs).
    cbn [max_nl] in Hk. change (isspace NL) with true in Hk.
    rewrite N.eqb_refl in Hk. apply andb_true_iff in Hk as [_ Hk].
    apply max_nl_front in Hk. lia. }
  rewrite Hnone. cbn [flat_map app]. f_equal.
  cbn [max_nl] in Hk.
  destruct (isspace c); [destruct (c =? NL)%N|].
  - apply andb_true_iff in Hk as [_ Hk]. apply (IH n) with (k := S k); [lia | lia | exact Hk].
  - apply (IH n) with (k := k); [lia | lia | exact Hk].
  - apply (IH n) with (k := 0); [lia | lia | exact Hk].
Qed.

Lemma no_blank_nl_run (t : pystr) :
  forall c, no_blank_nl (c :: t) = true -> blank c = true ->
  match snd (span blank t) with
  | d :: _ => (d =? NL)%N = false
  | [] => True
  end.
Proof.
  induction t as [|d t IH]; intros c H Hc; [exact I|].
  change (no_blank_nl (c :: d :: t))
    with (negb (blank c && (d =? NL)%N) && no_blank_nl (d :: t)) in H.
  apply andb_true_iff in H as [H1 H2].
  rewrite Hc in H1. cbn [andb] in H1. apply negb_true_iff in H1.
  cbn [span]. destruct (blank d) eqn:Hd.
  - specialize (IH d H2 Hd). destruct (span blank t) as [a b]. exact IH.
  - exact H1.
Qed.

Lemma scan_trailing_fixed :
  forall n sn rs, length rs <= n -> no_blank_nl rs = true ->
  flat_map (fun t => match t with TChar c => [c] | TMatch _ => [NL] end)
           (scan n trailing_re sn rs) = rs.
Proof.
  induction n as [n IH] using lt_wf_ind. intros sn rs Hn Hk.
  destruct rs as [|c t]; [destruct n; reflexivity|].
  destruct n as [|n]; [cbn in Hn; lia|]. cbn [scan]. cbn [length] in Hn.
  assert (Hnone : match_at trailing_re (MState sn (c :: t) []) = None).
  { pose proof (match_at_trailing sn c t) as Hm.
    destruct (blank c) eqn:Hc; [|exact Hm].
    pose proof (@no_blank_nl_run t c Hk Hc) as Hrun.
    destruct (snd (span blank t)) as [|d r]; [exact Hm|].
    rewrite Hrun in Hm. exact Hm. }
  rewrite Hnone. cbn [flat_map app]. f_equal.
  apply IH; [lia | lia |].
  cbn [no_blank_nl] in Hk. now apply andb_true_iff in Hk as [_ Hk].
Qed.

Lemma blank_cases c : blank c = true -> c = SPACE \/ c = TAB.
Proof.
  unfold blank. intros H. apply orb_true_iff in H as [H|H];
    apply N.eqb_eq in H; auto.
Qed.

Lemma scan_blanks_fixed :
  forall n sn rs prev, length rs <= n ->
  no_blank_pair prev rs = true -> ~ In TAB rs ->
  flat_map (fun t => match t with TChar c => [c] | TMatch _ => [SPACE] end)
           (scan n blanks_re sn rs) = rs.
Proof.
  induction n as [n IH] using lt_wf_ind. intros sn rs prev Hn Hp Htab.
  destruct rs as [|c t]; [destruct n; reflexivity|].
  destruct n as [|n]; [cbn in Hn; lia|]. cbn [scan]. cbn [length] in Hn.
  cbn [no_blank_pair] in Hp. apply andb_true_iff in Hp as [_ Hp].
  assert (Htab' : ~ In TAB t) by (intros H; apply Htab; now right).
  unfold blanks_re. destruct (blank c) eqn:Hc.
  - destruct (@plus_class_match blank sn c t Hc) as (m & -> & Htext & Hrest).
    assert (Hspan : span blank t = ([], t)).
    { destruct t as [|d t']; [reflexivity|]. cbn [no_blank_pair] in Hp.
      apply andb_true_iff in Hp as [Hd _]. cbn [andb] in Hd.
      apply negb_true_iff in Hd. cbn [span]. now rewrite Hd. }
    rewrite Hspan in Htext, Hrest. cbn [fst snd] in Htext, Hrest.
    rewrite Htext, Hrest. cbn [length Nat.eqb flat_map app Nat.sub].
    rewrite Nat.sub_0_r.
    destruct (blank_cases _ Hc) as [-> | ->]; [|exfalso; apply Htab; now left].
    f_equal. apply (IH n) with (prev := true); [lia | lia | exact Hp | exact Htab'].
  - rewrite (@plus_class_none blank sn c t Hc). cbn [flat_map app]. f_equal.
    apply (IH n) with (prev := false); [lia | lia | exact Hp | exact Htab'].
Qed.

(** *** The checks on the results of the two clean-ups *)

Lemma tidy_markdown_checks (markdown : pystr) :
  max_nl 0 (tidy_markdown markdown) = true /\
  no_blank_nl (tidy_markdown markdown) = true.
Proof.
  unfold tidy_markdown. cbv zeta. split.
  - apply max_nl_strip. unfold re_sub at 1. unfold tokens.
    apply scan_trailing_max; [apply le_n | apply blank_lines_sub_max].
  - apply no_blank_nl_strip. unfold re_sub at 1. unfold tokens.
    apply scan_trailing. apply le_n.
Qed.

Lemma tidy_text_checks (text : pystr) :
  max_nl 0 (tidy_text text) = true /\
  no_blank_pair false (tidy_text text) = true /\
  ~ In TAB (tidy_text text).
Proof.
  unfold tidy_text. cbv zeta.
  destruct (@scan_blanks (length text) [] text false (le_n _))
    as [Hpair Htab]; [discriminate|].
  fold (tokens blanks_re text) in Hpair, Htab.
  fold (re_sub blanks_re [SPACE] text) in Hpair, Htab.
  split; [|split].
  - apply max_nl_strip, blank_lines_sub_max.
  - apply no_blank_pair_strip. unfold re_sub at 1. unfold tokens.
    apply scan_blank_lines_pair; [apply le_n | exact Hpair].
  - intros H.
    apply (@substring_chars _ _ TAB (strip_substring _)) in H.
    unfold re_sub at 1 in H. unfold tokens in H.
    apply scan_chars in H as [H|[H|[H|[]]]]; [now apply Htab | |];
      discriminate.
Qed.

(** X17 (cleaning the white space of the Markdown twice): the clean-up of
    lines 114-116 finds nothing left to change in a result of
    [convert_to_markdown]: none of the two substitutions matches and the
    stripping removes nothing. *)
Theorem markdown_cleanup_fixed (handle : pystr -> pystr) (html_content : pystr) :
  let out := convert_to_markdown handle html_content in
  re_sub blank_lines_re [NL; NL] out = out /\
  re_sub trailing_re [NL] out = out /\
  strip out = out /\
  tidy_markdown out = out.
Proof.
  cbv zeta. unfold convert_to_markdown.
  destruct (tidy_markdown_checks (handle html_content)) as [Hmax Hnl].
  set (out := tidy_markdown (handle html_content)) in *.
  assert (H1 : re_sub blank_lines_re [NL; NL] out = out).
  { unfold re_sub, tokens.
    apply scan_blank_lines_fixed with (k := 0); [apply le_n | exact Hmax]. }
  assert (H2 : re_sub trailing_re [NL] out = out).
  { unfold re_sub, tokens. apply scan_trailing_fixed; [apply le_n | exact Hnl]. }
  assert (H3 : strip out = out) by apply strip_fixed.
  repeat split; try assumption.
  unfold tidy_markdown at 1. cbv zeta. now rewrite H1, H2.
Qed.

(** X18 (cleaning the white space of the text twice): the clean-up of
    lines 127-129 leaves a result of [convert_to_text] as it is. *)
Theorem text_cleanup_fixed (soup_text : pystr -> pystr) (html_content : pystr) :
  let out := convert_to_text soup_text html_content in
  re_sub blanks_re [SPACE] out = out /\
  re_sub blank_lines_re [NL; NL] out = out /\
  strip out = out /\
  tidy_text out = out.
Proof.
  cbv zeta. unfold convert_to_text.
  destruct (tidy_text_checks (soup_text html_content))
    as (Hmax & Hpair & Htab).
  set (out := tidy_text (soup_text html_content)) in *.
  assert (H1 : re_sub blanks_re [SPACE] out = out).
  { unfold re_sub, tokens.
    apply scan_blanks_fixed with (prev := false);
      [apply le_n | exact Hpair | exact Htab]. }
  assert (H2 : re_sub blank_lines_re [NL; NL] out = out).
  { unfold re_sub, tokens.
    apply scan_blank_lines_fixed with (k := 0); [apply le_n | exact Hmax]. }
  assert (H3 : strip out = out) by apply strip_fixed.
  repeat split; try assumption.
  unfold tidy_text at 1. cbv zeta. now rewrite H1, H2.
Qed.

End TidyingTwice.

(** ** Further theorems applied to concrete inputs *)

Section MoreConcrete.
Import Extract Convert Samples MoreSamples.
#[local] Existing Instance ascii_tables.

Lemma find_section_heading_witness :
  try_patterns (patterns target_section_title) (split_lines doc) = Some 1 /\
  startswith [hash] (nth 1 (split_lines doc) []) = true /\
  exists e,
    find_section doc target_section_title
    = Ok (Some (join_lines (slice 1 e (split_lines doc)))) /\
    1 < e <= length (split_lines doc).
Proof.
  assert (H1 : try_patterns (patterns target_section_title) (split_lines doc)
               = Some 1) by (vm_compute; reflexivity).
  assert (H2 : startswith [hash] (nth 1 (split_lines doc) []) = true)
    by (vm_compute; reflexivity).
  split; [exact H1 | split; [exact H2|]].
  destruct (@find_section_heading ascii_tables doc target_section_title 1 H1 H2)
    as (e & He & Hb & _).
  exists e. split; [exact He | exact Hb].
Defined.

Lemma keyword_fallback_result_witness :
  try_patterns (patterns other_title) (split_lines doc_volcano) = None /\
  find_section doc_volcano other_title = Ok (Some volcano_section) /\
  run_of_lines volcano_section (split_lines doc_volcano) /\
  line_has_keyword volcano_section = true.
Proof.
  assert (Hnone : try_patterns (patterns other_title) (split_lines doc_volcano)
                  = None) by (vm_compute; reflexivity).
  assert (Hf : find_section doc_volcano other_title = Ok (Some volcano_section))
    by (vm_compute; reflexivity).
  split; [exact Hnone | split; [exact Hf|]].
  destruct (@keyword_fallback_result ascii_tables doc_volcano other_title Hnone)
    as (r & Hr & Hprop).
  rewrite Hf in Hr. apply Ok_inj in Hr. subst r. exact Hprop.
Defined.

Lemma pipeline_records_witness :
  run_pipeline doc target_section_title = Ok doc_papers /\
  map raw_row doc_papers = [row] /\
  map number_of doc_papers = [Some (VInt 1)] /\
  Forall (fun r => get_str "core_problem" r <> [] ->
                   entry_point_of r = get_str "core_problem" r) doc_papers.
Proof.
  assert (Hrun : run_pipeline doc target_section_title = Ok doc_papers)
    by (vm_compute; reflexivity).
  split; [exact Hrun|].
  destruct (@pipeline_records ascii_tables doc target_section_title doc_papers
              Hrun)
    as (section_content & _ & _ & Hnum & _ & Hentry).
  split; [vm_compute; reflexivity|].
  split; [rewrite Hnum; vm_compute; reflexivity | exact Hentry].
Defined.


End MoreConcrete.
